(** * Notion importers: reconciliation core of [subir_mongo_notion.cjs]
      and [subir_excel_notion.cjs]

    The repository holds two scripts that import rows into a Notion
    database.  Both share the same core: derive a property mapping, make
    the database schema match it, index the pages already present by the
    values of some key fields, split the rows between pages to create and
    pages to update, and write them.

    The embedding follows the scripts function by function.  Identical
    functions are modelled once; where the scripts differ
    ([getPropertyValue], [mapProperties], [main]) module [Mongo] follows
    [subir_mongo_notion.cjs] and module [Excel] follows
    [subir_excel_notion.cjs].

    Conventions.
    - JS strings are [string]; [trim] and [toLowerCase] act on the ASCII
      range (white space is TAB, LF, VT, FF, CR, SP).
    - JS numbers stay abstract: the class [JsNumber] provides the type and
      the two built-ins the scripts apply to it.
    - A JS object used as a dictionary is a [gmap string _], and only its
      own properties are modelled; a row, whose [Object.entries] order is
      observable, is an association list.
    - A rejected promise or a [TypeError] is [Throw]; [try]/[catch] is
      [try_catch].
    - The remote service is a value of type [Notion]: the answers it will
      give to each kind of request, and the trace of requests received and
      of error and warning lines printed so far.  Informational console
      lines, and the lines that go with a prompt, are not part of the
      trace. *)

From stdpp Require Import gmap strings list fin_maps.
From Stdlib Require Import ZArith Ascii.

Local Open Scope Z_scope.

(** ** JavaScript built-ins used by the scripts *)

Module JS.

Definition isWhiteSpace (c : ascii) : bool :=
  match N_of_ascii c with
  | 9%N | 10%N | 11%N | 12%N | 13%N | 32%N => true
  | _ => false
  end.

Fixpoint trimStart (s : string) : string :=
  match s with
  | EmptyString => EmptyString
  | String c s' => if isWhiteSpace c then trimStart s' else s
  end.

Definition trimEnd (s : string) : string :=
  String.rev (trimStart (String.rev s)).

(** [s.trim()] *)
Definition trim (s : string) : string := trimEnd (trimStart s).

Definition lowerChar (c : ascii) : ascii :=
  let n := N_of_ascii c in
  if ((65 <=? n) && (n <=? 90))%N then ascii_of_N (n + 32) else c.

(** [s.toLowerCase()] *)
Fixpoint toLowerCase (s : string) : string :=
  match s with
  | EmptyString => EmptyString
  | String c s' => String (lowerChar c) (toLowerCase s')
  end.

(** [s.split(sep)] for a one-character separator: never empty, and the
    empty string splits into one empty piece. *)
Fixpoint split (sep : ascii) (s : string) : list string :=
  match s with
  | EmptyString => [EmptyString]
  | String c s' =>
      if Ascii.eqb c sep then EmptyString :: split sep s'
      else match split sep s' with
           | [] => [String c EmptyString]
           | w :: ws => String c w :: ws
           end
  end.

(** [l.join(sep)] *)
Definition join (sep : string) (l : list string) : string :=
  String.concat sep l.

Definition digitValue (radix : Z) (c : ascii) : option Z :=
  let n := Z.of_N (N_of_ascii c) in
  let d := if (48 <=? n) && (n <=? 57) then Some (n - 48)
           else if (97 <=? n) && (n <=? 122) then Some (n - 87)
           else if (65 <=? n) && (n <=? 90) then Some (n - 55)
           else None in
  match d with
  | Some v => if v <? radix then Some v else None
  | None => None
  end.

Fixpoint digits (radix : Z) (acc : option Z) (s : string) : option Z :=
  match s with
  | EmptyString => acc
  | String c s' =>
      match digitValue radix c with
      | Some d => digits radix (Some (radix * default 0 acc + d)) s'
      | None => acc
      end
  end.

(** [parseInt(s)] with no radix argument; [None] is [NaN].  The result is
    the exact integer: the scripts only compare it with small bounds. *)
Definition parseInt (s : string) : option Z :=
  let s := trimStart s in
  let '(sign, s) :=
    match s with
    | String "-" s' => (-1, s')
    | String "+" s' => (1, s')
    | _ => (1, s)
    end in
  let '(radix, s) :=
    match s with
    | String "0" (String "x" s') => (16, s')
    | String "0" (String "X" s') => (16, s')
    | _ => (10, s)
    end in
  (λ n, sign * n) <$> digits radix None s.

(** Truthiness of a string. *)
Definition truthy (s : string) : bool := negb (String.eqb s "").

End JS.

(** JS numbers and the built-ins applied to them. *)
Class JsNumber := {
  number : Type;
  String_number : number → string;   (* String(n) *)
  parseFloat : string → number;      (* parseFloat(s) *)
}.

(** ** Results of computations that may throw *)

Inductive Result (A : Type) : Type :=
| Ok (a : A)
| Throw (e : string).
Arguments Ok {A} a.
Arguments Throw {A} e.

#[global] Instance Result_ret : MRet Result := λ A a, Ok a.
#[global] Instance Result_bind : MBind Result := λ A B f r,
  match r with
  | Ok a => f a
  | Throw e => Throw e
  end.

Definition TypeError : string := "TypeError".

(** ** Data model *)

Section Model.
Context `{JsNumber}.

(** A cell of a row: the scalars the readers produce. *)
Inductive value : Type :=
| VUndefined
| VNull
| VString (s : string)
| VNumber (n : number)
| VBoolean (b : bool).

(** [String(v)] *)
Definition String_of (v : value) : string :=
  match v with
  | VUndefined => "undefined"
  | VNull => "null"
  | VString s => s
  | VNumber n => String_number n
  | VBoolean true => "true"
  | VBoolean false => "false"
  end.

(** [v !== undefined && v !== null] *)
Definition notNullish (v : value) : bool :=
  match v with
  | VUndefined | VNull => false
  | _ => true
  end.

(** [v !== undefined && v !== null && v !== ""] *)
Definition notEmpty (v : value) : bool :=
  match v with
  | VUndefined | VNull | VString EmptyString => false
  | _ => true
  end.

(** [value !== undefined && value !== null ? String(value) : ""] *)
Definition stringValue (v : value) : string :=
  if notNullish v then String_of v else "".

(** A row (spreadsheet row or document), in [Object.entries] order. *)
Definition entry : Type := list (string * value).

(** [doc[field]] *)
Fixpoint entry_get (doc : entry) (field : string) : value :=
  match doc with
  | [] => VUndefined
  | (k, v) :: doc' => if String.eqb k field then v else entry_get doc' field
  end.

(** The value of a page property as the service returns it, seen as the
    object the scripts read: each field is [None] when it is [undefined] or
    [null] on the object. *)
Record RichText : Type := { plain_text : string }.

Record property : Type := {
  url : option string;
  phone_number : option string;
  rich_text : option (list RichText);
  title : option (list RichText);
  email : option string;
  number_ : option number;
  select : option string;             (* select.name *)
  status : option string;             (* status.name *)
  multi_select : option (list string);  (* the names of the items *)
  checkbox : bool;                    (* truthiness of the field *)
}.

(** An existing page of the database. *)
Record page : Type := { id : string; properties : gmap string property }.

(** [{ name, type }] of [mappedProperties]. *)
Record mapped : Type := { name : string; type : string }.

End Model.

(** ** The remote service and the effects of a run *)

Section Effects.
Context `{JsNumber}.

(** Property payloads built by [buildPropertyPayload]. *)
Inductive payload : Type :=
| PayTitle (content : string)
| PayFiles (external_url : string)        (* one file named "Archivo" *)
| PayDate (start : string)
| PayCheckbox (b : bool)
| PayUrl (s : string)
| PayEmail (s : string)
| PayPhoneNumber (s : string)
| PayNumber (n : number)
| PaySelect (name : string)
| PayStatus (name : string)
| PayMultiSelect (names : list string)
| PayRichText (content : string).

(** The only block the scripts emit: an external image. *)
Inductive block : Type :=
| ImageBlock (external_url : string).

(** Error and warning lines, by kind. *)
Inductive report : Type :=
| ErrorEnsure (e : string)     (* logError in ensurePropertiesExist *)
| ErrorCreate (e : string)     (* logError of the first creation pass *)
| ErrorRetry (e : string)      (* logError of the retry pass *)
| ErrorUpdate (e : string)     (* logError in updateDuplicateRecords *)
| ErrorGeneral (e : string)    (* logError in the catch of main *)
| WarnRetrying                 (* logWarn before the retry pass *)
| WarnStillFailed              (* logWarn after the retry pass *)
| WarnNoValidFields.           (* logWarn in main, no valid key field *)

Inductive event : Type :=
| DatabasesRetrieve (database_id : string)
| DatabasesUpdate (database_id : string) (props : gmap string string)
| DatabasesQuery (database_id : string) (start_cursor : option string)
| PagesCreate (database_id : string) (props : gmap string payload)
    (children : list block)
| PagesUpdate (page_id : string) (props : gmap string payload)
| Console (r : report).

(** One page of results of [databases.query]. *)
Record QueryPage : Type := {
  results : list page;
  has_more : bool;
  next_cursor : option string;
}.

(** The service: its coming answers to each kind of request, in order, and
    the trace so far.  A schema is a map from property name to type.  Once
    the answers of a kind are used up, further requests of that kind are
    rejected. *)
Record Notion : Type := {
  retrieve_answers : list (Result (gmap string string));
  schema_answers : list (Result ());
  query_answers : list (Result QueryPage);
  create_answers : list (Result ());
  update_answers : list (Result ());
  trace : list event;
}.

Definition M (A : Type) : Type := Notion → Result A * Notion.

#[export] Instance M_ret : MRet M := λ A a σ, (Ok a, σ).
#[export] Instance M_bind : MBind M := λ A B f m σ,
  match m σ with
  | (Ok a, σ') => f a σ'
  | (Throw e, σ') => (Throw e, σ')
  end.

(** [try { body } catch (error) { handler(error) }] *)
Definition try_catch {A} (body : M A) (handler : string → M A) : M A :=
  λ σ, match body σ with
       | (Ok a, σ') => (Ok a, σ')
       | (Throw e, σ') => handler e σ'
       end.

(** A computation that may throw, run inside an effectful one. *)
Definition lift {A} (r : Result A) : M A := λ σ, (r, σ).

Definition emit (ev : event) (σ : Notion) : Notion :=
  {| retrieve_answers := retrieve_answers σ;
     schema_answers := schema_answers σ;
     query_answers := query_answers σ;
     create_answers := create_answers σ;
     update_answers := update_answers σ;
     trace := trace σ ++ [ev] |}.

Definition log (r : report) : M () := λ σ, (Ok (), emit (Console r) σ).

Definition unanswered : string := "request failed".

(** [await notion.databases.retrieve({ database_id })], reduced to the
    [properties] of the answer. *)
Definition databases_retrieve (database_id : string)
  : M (gmap string string) := λ σ,
  let σ := emit (DatabasesRetrieve database_id) σ in
  match retrieve_answers σ with
  | [] => (Throw unanswered, σ)
  | r :: rs =>
      (r, {| retrieve_answers := rs;
             schema_answers := schema_answers σ;
             query_answers := query_answers σ;
             create_answers := create_answers σ;
             update_answers := update_answers σ;
             trace := trace σ |})
  end.

(** [await notion.databases.update({ database_id, properties })] *)
Definition databases_update (database_id : string)
    (props : gmap string string) : M () := λ σ,
  let σ := emit (DatabasesUpdate database_id props) σ in
  match schema_answers σ with
  | [] => (Throw unanswered, σ)
  | r :: rs =>
      (r, {| retrieve_answers := retrieve_answers σ;
             schema_answers := rs;
             query_answers := query_answers σ;
             create_answers := create_answers σ;
             update_answers := update_answers σ;
             trace := trace σ |})
  end.

(** [await notion.databases.query({ database_id, page_size, start_cursor })] *)
Definition databases_query (database_id : string)
    (start_cursor : option string) : M QueryPage := λ σ,
  let σ := emit (DatabasesQuery database_id start_cursor) σ in
  match query_answers σ with
  | [] => (Throw unanswered, σ)
  | r :: rs =>
      (r, {| retrieve_answers := retrieve_answers σ;
             schema_answers := schema_answers σ;
             query_answers := rs;
             create_answers := create_answers σ;
             update_answers := update_answers σ;
             trace := trace σ |})
  end.

(** [await notion.pages.create({ parent, properties, children })] *)
Definition pages_create (database_id : string)
    (props : gmap string payload) (children : list block) : M () := λ σ,
  let σ := emit (PagesCreate database_id props children) σ in
  match create_answers σ with
  | [] => (Throw unanswered, σ)
  | r :: rs =>
      (r, {| retrieve_answers := retrieve_answers σ;
             schema_answers := schema_answers σ;
             query_answers := query_answers σ;
             create_answers := rs;
             update_answers := update_answers σ;
             trace := trace σ |})
  end.

(** [await notion.pages.update({ page_id, properties })] *)
Definition pages_update (page_id : string)
    (props : gmap string payload) : M () := λ σ,
  let σ := emit (PagesUpdate page_id props) σ in
  match update_answers σ with
  | [] => (Throw unanswered, σ)
  | r :: rs =>
      (r, {| retrieve_answers := retrieve_answers σ;
             schema_answers := schema_answers σ;
             query_answers := query_answers σ;
             create_answers := create_answers σ;
             update_answers := rs;
             trace := trace σ |})
  end.

End Effects.

(** ** Functions shared by both scripts *)

Section Core.
Context `{JsNumber}.

(** [buildPropertyPayload(propertyType, stringValue)] *)
Definition buildPropertyPayload (propertyType stringValue : string) : payload :=
  if String.eqb propertyType "title" then PayTitle stringValue
  else if String.eqb propertyType "files" then PayFiles stringValue
  else if String.eqb propertyType "date" then PayDate stringValue
  else if String.eqb propertyType "checkbox" then
    PayCheckbox (String.eqb (JS.toLowerCase stringValue) "true")
  else if String.eqb propertyType "url" then PayUrl stringValue
  else if String.eqb propertyType "email" then PayEmail stringValue
  else if String.eqb propertyType "phone_number" then PayPhoneNumber stringValue
  else if String.eqb propertyType "number" then PayNumber (parseFloat stringValue)
  else if String.eqb propertyType "select" then PaySelect stringValue
  else if String.eqb propertyType "status" then PayStatus stringValue
  else if String.eqb propertyType "multi_select" then
    PayMultiSelect (JS.trim <$> JS.split "," stringValue)
  else PayRichText stringValue.

(** The loop of [buildPagePayload] over [Object.entries(entry)].
    Destructuring [selectedProperties[header]] throws when the header has
    no mapping. *)
Fixpoint buildPagePayload_loop (entries : entry)
    (selectedProperties : gmap string mapped)
    (props : gmap string payload) (children : list block)
  : Result (gmap string payload * list block) :=
  match entries with
  | [] => Ok (props, children)
  | (header, value) :: entries' =>
      match selectedProperties !! header with
      | None => Throw TypeError
      | Some m =>
          let stringValue := stringValue value in
          buildPagePayload_loop entries' selectedProperties
            (<[name m := buildPropertyPayload (type m) stringValue]> props)
            (if String.eqb (type m) "files" && JS.truthy stringValue
             then children ++ [ImageBlock stringValue]
             else children)
      end
  end.

(** [buildPagePayload(entry, selectedProperties)] *)
Definition buildPagePayload (e : entry)
    (selectedProperties : gmap string mapped)
  : Result (gmap string payload * list block) :=
  buildPagePayload_loop e selectedProperties ∅ [].

(** [Object.keys(o)]; the scripts only test membership in the result. *)
Definition Object_keys {A} (o : gmap string A) : list string :=
  (map_to_list o).*1.

(** The loop of [ensurePropertiesExist] over the headers, threading
    [propertiesToAdd] and [propertiesToUpdate]. *)
Fixpoint ensure_loop (headers : list string)
    (selectedProperties : gmap string mapped)
    (currentProperties : gmap string string)
    (propertiesToAdd propertiesToUpdate : gmap string string)
  : Result (gmap string string * gmap string string) :=
  match headers with
  | [] => Ok (propertiesToAdd, propertiesToUpdate)
  | header :: headers' =>
      match selectedProperties !! header with
      | None => Throw TypeError
      | Some m =>
          match currentProperties !! name m with
          | None =>
              ensure_loop headers' selectedProperties currentProperties
                (<[name m := type m]> propertiesToAdd) propertiesToUpdate
          | Some currentType =>
              if negb (String.eqb currentType (type m)) then
                ensure_loop headers' selectedProperties currentProperties
                  propertiesToAdd (<[name m := type m]> propertiesToUpdate)
              else
                ensure_loop headers' selectedProperties currentProperties
                  propertiesToAdd propertiesToUpdate
          end
      end
  end.

(** [ensurePropertiesExist(databaseId, headers, selectedProperties, notion)] *)
Definition ensurePropertiesExist (databaseId : string)
    (headers : list string) (selectedProperties : gmap string mapped)
  : M (list string) :=
  try_catch
    (currentProperties ← databases_retrieve databaseId;
     '(propertiesToAdd, propertiesToUpdate) ←
        lift (ensure_loop headers selectedProperties currentProperties ∅ ∅);
     let newProps := Object_keys propertiesToAdd in
     (if bool_decide (0 < length (Object_keys propertiesToAdd))%nat
         || bool_decide (0 < length (Object_keys propertiesToUpdate))%nat
      then databases_update databaseId
             (propertiesToUpdate ∪ propertiesToAdd)
      else mret ());;
     mret newProps)
    (λ error, log (ErrorEnsure error);; mret []).

(** The [while (hasMore)] loop of [fetchAllRecords]; every turn uses up
    one answer of the service, which bounds the number of turns. *)
Fixpoint fetch_loop (turns : nat) (databaseId : string)
    (allRecords : list page) (startCursor : option string)
  : M (list page) :=
  match turns with
  | O => lift (Throw unanswered)
  | S turns' =>
      response ← databases_query databaseId startCursor;
      let allRecords := allRecords ++ results response in
      if has_more response
      then fetch_loop turns' databaseId allRecords (next_cursor response)
      else mret allRecords
  end.

(** [fetchAllRecords(databaseId, notion)] *)
Definition fetchAllRecords (databaseId : string) : M (list page) :=
  λ σ, fetch_loop (S (length (query_answers σ))) databaseId [] None σ.

(** An element of [duplicatesToUpdate]. *)
Record duplicate : Type := {
  recordId : string;
  dup_entry : entry;
  updateOnlyNewProperties : bool;
}.

(** The loop of [updateDuplicateRecords] over [Object.entries(entry)]
    that fills [propertiesToUpdate]. *)
Fixpoint update_props_loop (entries : entry) (updateOnlyNew : bool)
    (newProperties : list string) (selectedProperties : gmap string mapped)
    (propertiesToUpdate : gmap string payload)
  : Result (gmap string payload) :=
  match entries with
  | [] => Ok propertiesToUpdate
  | (header, value) :: entries' =>
      if updateOnlyNew && negb (bool_decide (header ∈ newProperties)) then
        update_props_loop entries' updateOnlyNew newProperties
          selectedProperties propertiesToUpdate
      else
        match selectedProperties !! header with
        | None => Throw TypeError
        | Some m =>
            update_props_loop entries' updateOnlyNew newProperties
              selectedProperties
              (<[name m := buildPropertyPayload (type m) (stringValue value)]>
                 propertiesToUpdate)
        end
  end.

(** [updateDuplicateRecords(duplicates, selectedProperties, newProps, notion)] *)
Fixpoint updateDuplicateRecords (duplicates : list duplicate)
    (selectedProperties : gmap string mapped) (newProperties : list string)
  : M () :=
  match duplicates with
  | [] => mret ()
  | d :: duplicates' =>
      propertiesToUpdate ←
        lift (update_props_loop (dup_entry d) (updateOnlyNewProperties d)
                newProperties selectedProperties ∅);
      try_catch
        (pages_update (recordId d) propertiesToUpdate)
        (λ error, log (ErrorUpdate error));;
      updateDuplicateRecords duplicates' selectedProperties newProperties
  end.

(** First pass of [addNonDuplicateRecords]; returns [failedRecords]. *)
Fixpoint create_pass (records : list entry)
    (selectedProperties : gmap string mapped) (databaseId : string)
    (failedRecords : list entry) : M (list entry) :=
  match records with
  | [] => mret failedRecords
  | e :: records' =>
      '(props, children) ← lift (buildPagePayload e selectedProperties);
      failedRecords ←
        try_catch
          (pages_create databaseId props children;; mret failedRecords)
          (λ error, log (ErrorCreate error);; mret (failedRecords ++ [e]));
      create_pass records' selectedProperties databaseId failedRecords
  end.

(** Second pass of [addNonDuplicateRecords]; returns [stillFailedRecords]. *)
Fixpoint retry_pass (failedRecords : list entry)
    (selectedProperties : gmap string mapped) (databaseId : string)
    (stillFailedRecords : list entry) : M (list entry) :=
  match failedRecords with
  | [] => mret stillFailedRecords
  | e :: failedRecords' =>
      '(props, children) ← lift (buildPagePayload e selectedProperties);
      stillFailedRecords ←
        try_catch
          (pages_create databaseId props children;; mret stillFailedRecords)
          (λ error, log (ErrorRetry error);;
                    mret (stillFailedRecords ++ [e]));
      retry_pass failedRecords' selectedProperties databaseId
        stillFailedRecords
  end.

(** [addNonDuplicateRecords(records, selectedProperties, databaseId, notion)] *)
Definition addNonDuplicateRecords (recordsToAdd : list entry)
    (selectedProperties : gmap string mapped) (databaseId : string)
  : M () :=
  failedRecords ← create_pass recordsToAdd selectedProperties databaseId [];
  if bool_decide (0 < length failedRecords)%nat then
    log WarnRetrying;;
    stillFailedRecords ←
      retry_pass failedRecords selectedProperties databaseId [];
    if bool_decide (0 < length stillFailedRecords)%nat
    then log WarnStillFailed
    else mret ()
  else mret ().

End Core.

(** ** Duplicate detection and [exportToNotion]

    The two scripts run the same [exportToNotion] over their own
    [getPropertyValue], which is a parameter here. *)

Section Exporting.
Context `{JsNumber}.
Variable getPropertyValue : option property → option string → Result string.

(** [existingValuesMap[field] = new Map()] for every key field. *)
Definition emptyMaps (duplicateCheckFields : list string)
  : gmap string (gmap string string) :=
  foldl (λ maps field, <[field := ∅]> maps) ∅ duplicateCheckFields.

(** [propertyTypeMap[field] = currentProperties[field]?.type || null] *)
Definition typeOrNull (currentProperties : gmap string string)
    (field : string) : option string :=
  match currentProperties !! field with
  | Some t => if JS.truthy t then Some t else None
  | None => None
  end.

Definition buildTypeMap (duplicateCheckFields : list string)
    (currentProperties : gmap string string) : gmap string (option string) :=
  foldl (λ types field, <[field := typeOrNull currentProperties field]> types)
        ∅ duplicateCheckFields.

(** [propertyTypeMap[field]], [None] when it is [null] or missing. *)
Definition typeOf (propertyTypeMap : gmap string (option string))
    (field : string) : option string :=
  default None (propertyTypeMap !! field).

(** Body of the inner loop that fills the maps, for one page and one key
    field. *)
Definition index_field (record : page)
    (propertyTypeMap : gmap string (option string))
    (existingValuesMap : gmap string (gmap string string)) (field : string)
  : Result (gmap string (gmap string string)) :=
  match properties record !! field, typeOf propertyTypeMap field with
  | Some prop, Some t =>
      value ← getPropertyValue (Some prop) (Some t);
      if JS.truthy value
      then Ok (alter (λ m, <[value := id record]> m) field existingValuesMap)
      else Ok existingValuesMap
  | _, _ => Ok existingValuesMap
  end.

Fixpoint index_record (record : page) (fields : list string)
    (propertyTypeMap : gmap string (option string))
    (existingValuesMap : gmap string (gmap string string))
  : Result (gmap string (gmap string string)) :=
  match fields with
  | [] => Ok existingValuesMap
  | field :: fields' =>
      maps ← index_field record propertyTypeMap existingValuesMap field;
      index_record record fields' propertyTypeMap maps
  end.

(** The loop over [allRecords] that fills [existingValuesMap]. *)
Fixpoint index_records (allRecords : list page)
    (duplicateCheckFields : list string)
    (propertyTypeMap : gmap string (option string))
    (existingValuesMap : gmap string (gmap string string))
  : Result (gmap string (gmap string string)) :=
  match allRecords with
  | [] => Ok existingValuesMap
  | record :: allRecords' =>
      maps ← index_record record duplicateCheckFields propertyTypeMap
                existingValuesMap;
      index_records allRecords' duplicateCheckFields propertyTypeMap maps
  end.

(** The index of a run: empty maps, then the fill loop. *)
Definition buildIndex (allRecords : list page)
    (duplicateCheckFields : list string)
    (currentProperties : gmap string string)
  : Result (gmap string (gmap string string)) :=
  index_records allRecords duplicateCheckFields
    (buildTypeMap duplicateCheckFields currentProperties)
    (emptyMaps duplicateCheckFields).

(** [existingValuesMap[field].get(s)]; [None] when [has(s)] is false. *)
Definition indexed (existingValuesMap : gmap string (gmap string string))
    (field s : string) : option string :=
  default ∅ (existingValuesMap !! field) !! s.

(** The loop over the key fields for one row: [Some id] when [isDuplicate]
    ends up true, with [duplicateRecordId = id]. *)
Fixpoint findDuplicate (existingValuesMap : gmap string (gmap string string))
    (duplicateCheckFields : list string) (doc : entry) : option string :=
  match duplicateCheckFields with
  | [] => None
  | field :: fields' =>
      let docValue := entry_get doc field in
      if notNullish docValue then
        match indexed existingValuesMap field (String_of docValue) with
        | Some recordId => Some recordId                  (* break *)
        | None => findDuplicate existingValuesMap fields' doc
        end
      else findDuplicate existingValuesMap fields' doc
  end.

(** The loop over [newProperties] that computes [hasNewPropertyValues]. *)
Fixpoint hasNewPropertyValues (newProperties : list string) (doc : entry)
  : bool :=
  match newProperties with
  | [] => false
  | prop :: rest =>
      if notEmpty (entry_get doc prop) then true
      else hasNewPropertyValues rest doc
  end.

(** Body of the loop that separates the rows. *)
Definition classify (existingValuesMap : gmap string (gmap string string))
    (duplicateCheckFields : list string) (duplicateOption : string)
    (newProperties : list string)
    (lists : list duplicate * list entry) (doc : entry)
  : list duplicate * list entry :=
  let '(duplicatesForUpdate, nonDuplicatesToAdd) := lists in
  match findDuplicate existingValuesMap duplicateCheckFields doc with
  | Some duplicateRecordId =>
      if String.eqb duplicateOption "1" then lists
      else if String.eqb duplicateOption "2" then
        if hasNewPropertyValues newProperties doc then
          (duplicatesForUpdate ++
             [{| recordId := duplicateRecordId; dup_entry := doc;
                 updateOnlyNewProperties := true |}],
           nonDuplicatesToAdd)
        else lists
      else lists
  | None => (duplicatesForUpdate, nonDuplicatesToAdd ++ [doc])
  end.

(** The loop over [data]: [(duplicatesForUpdate, nonDuplicatesToAdd)]. *)
Definition separate (existingValuesMap : gmap string (gmap string string))
    (duplicateCheckFields : list string) (duplicateOption : string)
    (newProperties : list string) (data : list entry)
  : list duplicate * list entry :=
  foldl (classify existingValuesMap duplicateCheckFields duplicateOption
           newProperties) ([], []) data.

(** [exportToNotion({ data, databaseId, selectedProperties, notion,
    duplicateCheckFields, duplicateOption, newProperties })] *)
Definition exportToNotion (data : list entry) (databaseId : string)
    (selectedProperties : gmap string mapped)
    (duplicateCheckFields : list string) (duplicateOption : string)
    (newProperties : list string) : M () :=
  if String.eqb duplicateOption "3" then
    addNonDuplicateRecords data selectedProperties databaseId
  else
    allRecords ← fetchAllRecords databaseId;
    currentProperties ← databases_retrieve databaseId;
    existingValuesMap ←
      lift (buildIndex allRecords duplicateCheckFields currentProperties);
    let '(duplicatesForUpdate, nonDuplicatesToAdd) :=
      separate existingValuesMap duplicateCheckFields duplicateOption
        newProperties data in
    (if String.eqb duplicateOption "2"
        && bool_decide (0 < length duplicatesForUpdate)%nat
     then updateDuplicateRecords duplicatesForUpdate selectedProperties
            newProperties
     else mret ());;
    (if bool_decide (0 < length nonDuplicatesToAdd)%nat
     then addNonDuplicateRecords nonDuplicatesToAdd selectedProperties
            databaseId
     else mret ()).

End Exporting.

(** ** Prompts

    The user's answers are the lines still to be read on standard input;
    a prompt that finds none is blocked ([None]). *)

(** The [while (true)] loops of [main] that ask until the trimmed answer is
    one of the valid choices; the answer is returned as typed. *)
Fixpoint askChoice (valid : list string) (stdin : list string)
  : option (string * list string) :=
  match stdin with
  | [] => None
  | answer :: stdin' =>
      if bool_decide (JS.trim answer ∈ valid) then Some (answer, stdin')
      else askChoice valid stdin'
  end.

(** The [propertyTypes] offered by [mapProperties]. *)
Definition propertyTypes : list string :=
  [ "rich_text"; "title"; "number"; "select"; "multi_select"; "date";
    "people"; "files"; "checkbox"; "url"; "email"; "phone_number";
    "formula"; "relation"; "rollup"; "created_time"; "created_by";
    "last_edited_time"; "last_edited_by"; "status" ].

(** The [while (true)] loop of [mapProperties] that asks for a type. *)
Fixpoint askType (stdin : list string) : option (string * list string) :=
  match stdin with
  | [] => None
  | typeChoice :: stdin' =>
      match JS.parseInt typeChoice with
      | Some selectedIndex =>
          if (1 <=? selectedIndex)
             && (selectedIndex <=? Z.of_nat (length propertyTypes))
          then Some (default EmptyString
                       (propertyTypes !! Z.to_nat (selectedIndex - 1)),
                     stdin')
          else askType stdin'
      | None => askType stdin'
      end
  end.

(** The customization step of [mapProperties] for one header, taken when
    the mapping option is ["2"]. *)
Definition customize (propertyName propertyType : string)
    (stdin : list string) : option (mapped * list string) :=
  match stdin with
  | newName :: changeType :: stdin' =>
      let propertyName :=
        if String.eqb (JS.trim newName) "" then propertyName
        else JS.trim newName in
      if String.eqb (JS.toLowerCase (JS.trim changeType)) "s" then
        '(propertyType, stdin'') ← askType stdin';
        Some ({| name := propertyName; type := propertyType |}, stdin'')
      else Some ({| name := propertyName; type := propertyType |}, stdin')
  | _ => None
  end.

(** [mapProperties] of both scripts, over the default type of a header. *)
Fixpoint mapProperties_loop (defaultType : string → string)
    (headers : list string) (customizationOption : string)
    (mappedProperties : gmap string mapped) (stdin : list string)
  : option (gmap string mapped * list string) :=
  match headers with
  | [] => Some (mappedProperties, stdin)
  | header :: headers' =>
      '(m, stdin') ←
        (if String.eqb customizationOption "2"
         then customize header (defaultType header) stdin
         else Some ({| name := header; type := defaultType header |}, stdin));
      mapProperties_loop defaultType headers' customizationOption
        (<[header := m]> mappedProperties) stdin'
  end.

(** [fields.split(",").map(f => f.trim()).filter(f => f)
          .filter(f => headers.includes(f))] *)
Definition parseCheckFields (fields : string) (headers : list string)
  : list string :=
  filter (λ f, f ∈ headers)
    (filter (λ f, JS.truthy f = true) (JS.trim <$> JS.split "," fields)).

(** What the part of [main] after the prompts runs: the schema
    synchronisation and the export, under the [try]/[catch] of [main]. *)
Section Run.
Context `{JsNumber}.
Variable exportToNotion :
  list entry → string → gmap string mapped → list string → string →
  list string → M ().

Definition synchronise_and_export (data : list entry) (databaseId : string)
    (headers : list string) (selectedProperties : gmap string mapped)
    (duplicateCheckFields : list string) (duplicateOption : string)
  : M () :=
  newProperties ← ensurePropertiesExist databaseId headers selectedProperties;
  exportToNotion data databaseId selectedProperties duplicateCheckFields
    duplicateOption newProperties.

(** [main] from the choice of the duplicate option on.  [data], [headers],
    [titleField] and [databaseId] are what the earlier steps obtained;
    [normalise] is what the script keeps of an accepted answer;
    [mapProperties] is the script's own.  The result is the final state of
    the service, [None] when the run is blocked on a prompt. *)
Definition main_from_options (normalise : string → string)
    (mapProperties :
       list string → gmap string string → string → string → list string →
       option (gmap string mapped * list string))
    (data : list entry) (databaseId : string) (headers : list string)
    (titleField : string) (stdin : list string) (σ : Notion)
  : option Notion :=
  '(answer, stdin) ← askChoice ["1"; "2"; "3"] stdin;
  let duplicateOption := normalise answer in
  '(duplicateOption, duplicateCheckFields, stdin, σ) ←
    (if String.eqb duplicateOption "1" || String.eqb duplicateOption "2" then
       match stdin with
       | [] => None
       | fields :: stdin' =>
           let duplicateCheckFields := parseCheckFields fields headers in
           if bool_decide (length duplicateCheckFields = 0%nat)
           then Some ("3", duplicateCheckFields, stdin',
                      emit (Console WarnNoValidFields) σ)
           else Some (duplicateOption, duplicateCheckFields, stdin', σ)
       end
     else Some (duplicateOption, [], stdin, σ));
  match databases_retrieve databaseId σ with
  | (Throw error, σ) => Some (emit (Console (ErrorGeneral error)) σ)
  | (Ok currentProperties, σ) =>
      '(answer, stdin) ← askChoice ["1"; "2"] stdin;
      let mapOption := normalise answer in
      '(selectedProperties, _) ←
        mapProperties headers currentProperties mapOption titleField stdin;
      Some (try_catch
              (synchronise_and_export data databaseId headers
                 selectedProperties duplicateCheckFields duplicateOption)
              (λ error, log (ErrorGeneral error)) σ).2
  end.

End Run.

(** ** [subir_mongo_notion.cjs] *)

Module Mongo.
Section Mongo.
Context `{JsNumber}.

(** [getPropertyValue(property, type)] *)
Definition getPropertyValue (prop : option property) (type : option string)
  : string :=
  match prop, type with
  | Some p, Some t =>
      if negb (JS.truthy t) then ""
      else if String.eqb t "url" then default "" (url p)
      else if String.eqb t "phone_number" then default "" (phone_number p)
      else if String.eqb t "rich_text" then
        JS.join "" (plain_text <$> default [] (rich_text p))
      else if String.eqb t "title" then
        JS.join "" (plain_text <$> default [] (title p))
      else ""
  | _, _ => ""
  end.

(** The types [getPropertyValue] has a case for. *)
Definition supported : list string :=
  ["url"; "phone_number"; "rich_text"; "title"].

(** The type a header gets before any customization. *)
Definition defaultType (currentProperties : gmap string string)
    (titleField header : string) : string :=
  let propertyType :=
    if String.eqb header titleField then "title" else "rich_text" in
  match currentProperties !! header with
  | Some t => if negb (String.eqb header titleField) then t else propertyType
  | None => propertyType
  end.

(** [mapProperties(headers, currentProperties, customizationOption,
    titleField)] *)
Definition mapProperties (headers : list string)
    (currentProperties : gmap string string)
    (customizationOption titleField : string) (stdin : list string)
  : option (gmap string mapped * list string) :=
  mapProperties_loop (defaultType currentProperties titleField) headers
    customizationOption ∅ stdin.

Definition exportToNotion :=
  exportToNotion (λ p t, Ok (getPropertyValue p t)).

(** [main]: the accepted answers are kept as typed. *)
Definition main := main_from_options exportToNotion (λ answer, answer)
                     mapProperties.

End Mongo.
End Mongo.

(** ** [subir_excel_notion.cjs] *)

Module Excel.
Section Excel.
Context `{JsNumber}.

(** [getPropertyValue(property, type)]; reading [multi_select] off an
    object that lacks it throws. *)
Definition getPropertyValue (prop : option property) (type : option string)
  : Result string :=
  match prop, type with
  | Some p, Some t =>
      if negb (JS.truthy t) then Ok ""
      else if String.eqb t "url" then Ok (default "" (url p))
      else if String.eqb t "phone_number" then Ok (default "" (phone_number p))
      else if String.eqb t "rich_text" then
        Ok (JS.join "" (plain_text <$> default [] (rich_text p)))
      else if String.eqb t "title" then
        Ok (JS.join "" (plain_text <$> default [] (title p)))
      else if String.eqb t "email" then Ok (default "" (email p))
      else if String.eqb t "number" then
        Ok (match number_ p with
            | Some n => String_number n
            | None => ""
            end)
      else if String.eqb t "select" then Ok (default "" (select p))
      else if String.eqb t "status" then Ok (default "" (status p))
      else if String.eqb t "multi_select" then
        match multi_select p with
        | Some names => Ok (JS.join "," names)
        | None => Throw TypeError
        end
      else if String.eqb t "checkbox" then
        Ok (if checkbox p then "true" else "false")
      else Ok ""
  | _, _ => Ok ""
  end.

(** The types [getPropertyValue] has a case for. *)
Definition supported : list string :=
  ["url"; "phone_number"; "rich_text"; "title"; "email"; "number";
   "select"; "status"; "multi_select"; "checkbox"].

(** The type a header gets before any customization:
    [header === titleField ? "title"
       : currentProperties[header]?.type || "rich_text"] *)
Definition defaultType (currentProperties : gmap string string)
    (titleField header : string) : string :=
  if String.eqb header titleField then "title"
  else match currentProperties !! header with
       | Some t => if JS.truthy t then t else "rich_text"
       | None => "rich_text"
       end.

(** [mapProperties(headers, currentProperties, mapOption, titleField)] *)
Definition mapProperties (headers : list string)
    (currentProperties : gmap string string)
    (mapOption titleField : string) (stdin : list string)
  : option (gmap string mapped * list string) :=
  mapProperties_loop (defaultType currentProperties titleField) headers
    mapOption ∅ stdin.

Definition exportToNotion := exportToNotion getPropertyValue.

(** [main]: the accepted answers are trimmed. *)
Definition main := main_from_options exportToNotion JS.trim mapProperties.

End Excel.
End Excel.

(** ** Earlier steps of [main] in [subir_mongo_notion.cjs] *)

(** The selection loops ([promptDatabaseSelection], [promptCollectionIndex],
    [promptTitleField], and the choice of a sheet in the spreadsheet
    script): ask until [parseInt(answer) - 1] is an index of the list, and
    return the item at that index. *)
Fixpoint promptIndex {A} (items : list A) (stdin : list string)
  : option (A * list string) :=
  match stdin with
  | [] => None
  | answer :: stdin' =>
      match JS.parseInt answer with
      | Some n =>
          let idx := n - 1 in
          if (0 <=? idx) && (idx <? Z.of_nat (length items)) then
            match items !! Z.to_nat idx with
            | Some item => Some (item, stdin')
            | None => promptIndex items stdin'
            end
          else promptIndex items stdin'
      | None => promptIndex items stdin'
      end
  end.

(** [promptTitleField(headers)] *)
Definition promptTitleField (headers : list string) (stdin : list string)
  : option (string * list string) :=
  promptIndex headers stdin.

(** [headersSet.add(key)] on a [Set] kept in insertion order. *)
Definition Set_add (headersSet : list string) (key : string) : list string :=
  if bool_decide (key ∈ headersSet) then headersSet else headersSet ++ [key].

Section Documents.
Context `{JsNumber}.

(** [readMongoDBHeaders(data)]: the keys met in the documents, each once,
    in the order of their first occurrence. *)
Definition readMongoDBHeaders (data : list entry) : list string :=
  foldl (λ headersSet doc, foldl Set_add headersSet doc.*1) [] data.

(** [doc[key] = v]: in place when the key is present, at the end when not. *)
Fixpoint entry_set (doc : entry) (key : string) (v : value) : entry :=
  match doc with
  | [] => [(key, v)]
  | (k, w) :: doc' =>
      if String.eqb k key then (k, v) :: doc'
      else (k, w) :: entry_set doc' key v
  end.

(** [delete doc[key]] *)
Definition entry_delete (doc : entry) (key : string) : entry :=
  filter (λ kv, kv.1 ≠ key) doc.

(** [doc[newIdFieldName] = doc["_id"]; delete doc["_id"]] *)
Definition renameId (newIdFieldName : string) (doc : entry) : entry :=
  entry_delete (entry_set doc newIdFieldName (entry_get doc "_id")) "_id".

(** [l.splice(l.indexOf(x), 1)] for an [x] that occurs in [l]. *)
Fixpoint remove_first (x : string) (l : list string) : list string :=
  match l with
  | [] => []
  | y :: l' => if String.eqb y x then l' else y :: remove_first x l'
  end.

(** Step 8 of [main]: when [_id] is a header, ask for a name, put it at
    the end of the headers, take [_id] out, and rename the field in every
    document. *)
Definition renameIdStep (headers : list string) (data : list entry)
    (stdin : list string) : option (list string * list entry * list string) :=
  if bool_decide ("_id" ∈ headers) then
    match stdin with
    | [] => None
    | newIdFieldName :: stdin' =>
        Some (remove_first "_id" (headers ++ [newIdFieldName]),
              renameId newIdFieldName <$> data, stdin')
    end
  else Some (headers, data, stdin).

(** What steps 6 to 9 of [main] hand to the rest of the run. *)
Inductive prepared : Type :=
| NoData                       (* the collection is empty: [main] returns *)
| NoFields                     (* the documents have no key: [main] returns *)
| Ready (headers : list string) (data : list entry) (titleField : string)
    (stdin : list string).

(** Steps 6 to 9 of [main], from the documents read off the collection:
    [None] when the run is blocked on a prompt. *)
Definition prepare (data : list entry) (stdin : list string)
  : option prepared :=
  match data with
  | [] => Some NoData
  | _ :: _ =>
      match readMongoDBHeaders data with
      | [] => Some NoFields
      | headers =>
          '(headers, data, stdin) ← renameIdStep headers data stdin;
          '(titleField, stdin) ← promptTitleField headers stdin;
          Some (Ready headers data titleField stdin)
      end
  end.

End Documents.

(** ** Notions used to state the properties *)

Section Observations.
Context `{JsNumber}.

(** The requests of each kind found in a trace, in order. *)
Definition creates_of (tr : list event)
  : list (gmap string payload * list block) :=
  omap (λ ev, match ev with
              | PagesCreate _ props children => Some (props, children)
              | _ => None
              end) tr.

Definition updates_of (tr : list event)
  : list (string * gmap string payload) :=
  omap (λ ev, match ev with
              | PagesUpdate page_id props => Some (page_id, props)
              | _ => None
              end) tr.

Definition reports_of (tr : list event) : list report :=
  omap (λ ev, match ev with Console r => Some r | _ => None end) tr.

(** Requests that read the database. *)
Definition is_read (ev : event) : bool :=
  match ev with
  | DatabasesQuery _ _ | DatabasesRetrieve _ => true
  | _ => false
  end.

Definition reads_of (tr : list event) : list event :=
  filter (λ ev, is_read ev = true) tr.

(** Every field of the row has a mapping. *)
Definition mappable (selectedProperties : gmap string mapped) (e : entry)
  : Prop :=
  Forall (λ hv, is_Some (selectedProperties !! hv.1)) e.

(** The items sent while the service answers [answers] that are rejected,
    and the errors they are rejected with. *)
Fixpoint rejected {A} (items : list A) (answers : list (Result ()))
  : list A :=
  match items, answers with
  | [], _ => []
  | x :: items', Ok _ :: answers' => rejected items' answers'
  | x :: items', Throw _ :: answers' => x :: rejected items' answers'
  | x :: items', [] => x :: rejected items' []
  end.

Fixpoint rejections {A} (items : list A) (answers : list (Result ()))
  : list string :=
  match items, answers with
  | [], _ => []
  | x :: items', Ok _ :: answers' => rejections items' answers'
  | x :: items', Throw e :: answers' => e :: rejections items' answers'
  | x :: items', [] => unanswered :: rejections items' []
  end.

(** The events of one creation pass over [records]: a request per row,
    followed by an error line when the service rejects it. *)
Fixpoint pass_events (line : string → report) (databaseId : string)
    (selectedProperties : gmap string mapped) (records : list entry)
    (answers : list (Result ())) : list event :=
  match records with
  | [] => []
  | e :: records' =>
      match buildPagePayload e selectedProperties with
      | Ok (props, children) =>
          PagesCreate databaseId props children ::
          match answers with
          | Ok _ :: answers' =>
              pass_events line databaseId selectedProperties records' answers'
          | Throw error :: answers' =>
              Console (line error) ::
              pass_events line databaseId selectedProperties records' answers'
          | [] =>
              Console (line unanswered) ::
              pass_events line databaseId selectedProperties records' []
          end
      | Throw _ => []
      end
  end.

(** The events of [updateDuplicateRecords]. *)
Fixpoint update_events (duplicates : list duplicate)
    (selectedProperties : gmap string mapped) (newProperties : list string)
    (answers : list (Result ())) : list event :=
  match duplicates with
  | [] => []
  | d :: duplicates' =>
      match update_props_loop (dup_entry d) (updateOnlyNewProperties d)
              newProperties selectedProperties ∅ with
      | Ok props =>
          PagesUpdate (recordId d) props ::
          match answers with
          | Ok _ :: answers' =>
              update_events duplicates' selectedProperties newProperties
                answers'
          | Throw error :: answers' =>
              Console (ErrorUpdate error) ::
              update_events duplicates' selectedProperties newProperties
                answers'
          | [] =>
              Console (ErrorUpdate unanswered) ::
              update_events duplicates' selectedProperties newProperties []
          end
      | Throw _ => []
      end
  end.

(** The service after [n] creation requests and the events [evs]. *)
Definition after_creates (σ : Notion) (n : nat) (evs : list event) : Notion :=
  {| retrieve_answers := retrieve_answers σ;
     schema_answers := schema_answers σ;
     query_answers := query_answers σ;
     create_answers := drop n (create_answers σ);
     update_answers := update_answers σ;
     trace := trace σ ++ evs |}.

(** The service after [n] page updates and the events [evs]. *)
Definition after_updates (σ : Notion) (n : nat) (evs : list event) : Notion :=
  {| retrieve_answers := retrieve_answers σ;
     schema_answers := schema_answers σ;
     query_answers := query_answers σ;
     create_answers := create_answers σ;
     update_answers := drop n (update_answers σ);
     trace := trace σ ++ evs |}.

(** The events of [addNonDuplicateRecords]: the first pass, then, when a
    row was rejected, the retry pass over the rejected rows. *)
Definition add_events (databaseId : string)
    (selectedProperties : gmap string mapped) (records : list entry)
    (answers : list (Result ())) : list event :=
  let failed := rejected records answers in
  let answers' := drop (length records) answers in
  pass_events ErrorCreate databaseId selectedProperties records answers ++
  match failed with
  | [] => []
  | _ :: _ =>
      Console WarnRetrying ::
      pass_events ErrorRetry databaseId selectedProperties failed answers' ++
      match rejected failed answers' with
      | [] => []
      | _ :: _ => [Console WarnStillFailed]
      end
  end.

Variable getPropertyValue : option property → option string → Result string.

(** The value a page contributes to the index of a key field whose type in
    the schema is [ty]: none when the page lacks the property, the type is
    missing, or the extracted text is empty. *)
Definition extracted (ty : option string) (record : page) (field : string)
  : option string :=
  match properties record !! field, ty with
  | Some prop, Some t =>
      match getPropertyValue (Some prop) (Some t) with
      | Ok v => if JS.truthy v then Some v else None
      | Throw _ => None
      end
  | _, _ => None
  end.

(** The pages, in scan order, whose extracted value for [field] is [v]. *)
Definition matching (currentProperties : gmap string string)
    (allRecords : list page) (field v : string) : list page :=
  filter (λ r, extracted (typeOrNull currentProperties field) r field = Some v)
    allRecords.

(** The reading of the index as "first seen wins". *)
Definition index_keeps_first (allRecords : list page)
    (duplicateCheckFields : list string)
    (currentProperties : gmap string string) : Prop :=
  ∀ idx field v,
    buildIndex getPropertyValue allRecords duplicateCheckFields
      currentProperties = Ok idx →
    field ∈ duplicateCheckFields →
    indexed idx field v
    = id <$> head (matching currentProperties allRecords field v).

(** The outcome of the key-field check for one field of one row. *)
Definition key_hit (existingValuesMap : gmap string (gmap string string))
    (doc : entry) (field : string) : option string :=
  if notNullish (entry_get doc field)
  then indexed existingValuesMap field (String_of (entry_get doc field))
  else None.

End Observations.


(** ** A number instance for the examples

    Integers only, [None] being NaN: [String] prints in base ten (as JS
    does below 10^21), and [parseFloat] reads an optional sign and decimal
    digits after leading white space, giving NaN when no digit is found.
    Fractions, exponents and infinities are outside this instance; the
    examples use none. *)

Definition parseInteger (s : string) : option Z :=
  let s := JS.trimStart s in
  let '(sign, s) :=
    match s with
    | String "-" s' => (-1, s')
    | String "+" s' => (1, s')
    | _ => (1, s)
    end in
  (λ n, sign * n) <$> JS.digits 10 None s.

Definition IntegerNumber : JsNumber :=
  {| number := option Z;
     String_number := λ n, match n with
                           | Some z => pretty.pretty z
                           | None => "NaN"
                           end;
     parseFloat := parseInteger |}.

(** The requests a pass is expected to send for some rows. *)
Definition payloads `{JsNumber} (selectedProperties : gmap string mapped)
    (records : list entry) : list (gmap string payload * list block) :=
  omap (λ e, match buildPagePayload e selectedProperties with
             | Ok r => Some r
             | Throw _ => None
             end) records.

(** The page updates expected for some duplicates. *)
Definition update_requests `{JsNumber}
    (selectedProperties : gmap string mapped) (newProperties : list string)
    (duplicates : list duplicate) : list (string * gmap string payload) :=
  omap (λ d, match update_props_loop (dup_entry d)
                     (updateOnlyNewProperties d) newProperties
                     selectedProperties ∅ with
             | Ok props => Some (recordId d, props)
             | Throw _ => None
             end) duplicates.

(** The lists [separate] is expected to build under option 2: the
    duplicates that carry a value for a new property, and the rows that
    match no page. *)
Definition to_update `{JsNumber}
    (existingValuesMap : gmap string (gmap string string))
    (duplicateCheckFields newProperties : list string) (data : list entry)
  : list duplicate :=
  omap (λ doc,
          match findDuplicate existingValuesMap duplicateCheckFields doc with
          | Some recordId =>
              if hasNewPropertyValues newProperties doc
              then Some {| recordId := recordId; dup_entry := doc;
                           updateOnlyNewProperties := true |}
              else None
          | None => None
          end) data.

Definition to_create `{JsNumber}
    (existingValuesMap : gmap string (gmap string string))
    (duplicateCheckFields : list string) (data : list entry) : list entry :=
  filter (λ doc,
            findDuplicate existingValuesMap duplicateCheckFields doc = None)
    data.


(** The reading of a rejected schema request as fatal: [main] reports the
    error in its own handler and no page is created or updated. *)
Definition schema_rejection_aborts `{JsNumber}
    (main : list entry → string → list string → string → list string →
            Notion → option Notion)
    (data : list entry) (databaseId : string) (headers : list string)
    (titleField : string) (stdin : list string) (σ : Notion) : Prop :=
  ∀ error rest σ',
    schema_answers σ = Throw error :: rest →
    main data databaseId headers titleField stdin σ = Some σ' →
    (∃ props, DatabasesUpdate databaseId props ∈ trace σ') →
    ErrorGeneral error ∈ reports_of (trace σ')
    ∧ creates_of (trace σ') = creates_of (trace σ)
    ∧ updates_of (trace σ') = updates_of (trace σ).

(** ** Example data *)

Module Ex.

Definition alice : @entry IntegerNumber :=
  [("name", VString "Alice"); ("email", VString "a@x.com")].
Definition bob : @entry IntegerNumber :=
  [("name", VString "Bob"); ("email", VString "b@x.com")].

Definition headers : list string := ["name"; "email"].

(** The mapping of the two headers, [name] being the title. *)
Definition selected : gmap string mapped :=
  <["email" := {| name := "email"; type := "rich_text" |}]>
    (<["name" := {| name := "name"; type := "title" |}]> ∅).

(** A service that rejects the first creation and accepts the next. *)
Definition flaky : @Notion IntegerNumber :=
  {| retrieve_answers := []; schema_answers := []; query_answers := [];
     create_answers := [Throw "timeout"; Ok (); Ok ()];
     update_answers := [Throw "conflict"]; trace := [] |}.

(** Two pages whose [email] text is the same. *)
Definition email_text (s : string) : @property IntegerNumber :=
  {| url := None; phone_number := None;
     rich_text := Some [{| plain_text := s |}]; title := None;
     email := None; number_ := None; select := None; status := None;
     multi_select := None; checkbox := false |}.

Definition page1 : @page IntegerNumber :=
  {| id := "p1"; properties := <["email" := email_text "a@x.com"]> ∅ |}.
Definition page2 : @page IntegerNumber :=
  {| id := "p2"; properties := <["email" := email_text "a@x.com"]> ∅ |}.

Definition schema : gmap string string :=
  <["email" := "rich_text"]> (<["name" := "title"]> ∅).

(** The extraction of [subir_mongo_notion.cjs], as [exportToNotion]
    takes it. *)
Definition mongo_value (p : option (@property IntegerNumber))
    (t : option string) : Result string :=
  Ok (Mongo.getPropertyValue p t).

(** A row with a new phone number, and a row with no age. *)
Definition alice_phone : @entry IntegerNumber :=
  [("name", VString "Alice"); ("email", VString "a@x.com");
   ("phone", VString "555")].

Definition selected_more : gmap string mapped :=
  <["age" := {| name := "age"; type := "number" |}]>
    (<["phone" := {| name := "phone"; type := "phone_number" |}]> selected).

(** An index by hand. *)
Definition index : gmap string (gmap string string) :=
  <["email" := <["a@x.com" := "p1"]> ∅]>
    (<["name" := <["Bob" := "p2"]> ∅]> ∅).

(** A service that holds [page1] and accepts every write. *)
Definition populated : @Notion IntegerNumber :=
  {| retrieve_answers := [Ok schema]; schema_answers := [];
     query_answers :=
       [Ok {| results := [page1]; has_more := false;
              next_cursor := None |}];
     create_answers := [Ok ()]; update_answers := [Ok ()]; trace := [] |}.

(** The same service once the pages are fetched, and once the schema is
    read as well. *)
Definition populated_fetched : @Notion IntegerNumber :=
  {| retrieve_answers := [Ok schema]; schema_answers := [];
     query_answers := [];
     create_answers := [Ok ()]; update_answers := [Ok ()];
     trace := [DatabasesQuery "db" None] |}.

Definition populated_read : @Notion IntegerNumber :=
  {| retrieve_answers := []; schema_answers := [];
     query_answers := [];
     create_answers := [Ok ()]; update_answers := [Ok ()];
     trace := [DatabasesQuery "db" None; DatabasesRetrieve "db"] |}.

(** The index of [page1] on the key field [email]. *)
Definition index_page1 : gmap string (gmap string string) :=
  <["email" := <["a@x.com" := "p1"]> ∅]> ∅.

(** The index of [page1] then [page2] on the key field [email]. *)
Definition index_page2 : gmap string (gmap string string) :=
  <["email" := <["a@x.com" := "p2"]> ∅]> ∅.

(** A schema whose [email] property has the type [email]. *)
Definition schema_email : gmap string string := <["email" := "email"]> ∅.

(** A database whose only property is its title, [Name]. *)
Definition existing : gmap string string := <["Name" := "title"]> ∅.

(** A service that rejects the schema request and accepts the rest. *)
Definition strict : @Notion IntegerNumber :=
  {| retrieve_answers := [Ok existing; Ok existing];
     schema_answers := [Throw "validation_error"];
     query_answers := []; create_answers := [Ok (); Ok ()];
     update_answers := []; trace := [] |}.

End Ex.

(** An answer to a selection prompt that is no index of a list of [n]
    items, counted from one. *)
Definition invalid_choice (n : nat) (answer : string) : Prop :=
  ∀ k, JS.parseInt answer = Some k → ¬ (1 ≤ k ≤ Z.of_nat n).

(** The keys of a row. *)
Definition keys `{JsNumber} (doc : entry) : list string := doc.*1.

(** The service after [nr] schema reads, [ns] schema requests and the
    events [evs]. *)
Definition after_schema `{JsNumber} (σ : Notion) (nr ns : nat)
    (evs : list event) : Notion :=
  {| retrieve_answers := drop nr (retrieve_answers σ);
     schema_answers := drop ns (schema_answers σ);
     query_answers := query_answers σ;
     create_answers := create_answers σ;
     update_answers := update_answers σ;
     trace := trace σ ++ evs |}.

(** The answer of the service to the next request of a kind. *)
Definition next_answer {A} (answers : list (Result A)) : Result A :=
  match answers with
  | [] => Throw unanswered
  | r :: _ => r
  end.

(** What [ensurePropertiesExist] is expected to do in a given state: its
    result, the schema requests it sends and the events it leaves. *)
Definition ensure_outcome `{JsNumber} (db : string) (headers : list string)
    (sp : gmap string mapped) (σ : Notion)
  : list string * nat * list event :=
  match next_answer (retrieve_answers σ) with
  | Throw error =>
      ([], 0%nat, [DatabasesRetrieve db; Console (ErrorEnsure error)])
  | Ok current =>
      match ensure_loop headers sp current ∅ ∅ with
      | Throw error =>
          ([], 0%nat, [DatabasesRetrieve db; Console (ErrorEnsure error)])
      | Ok (adds, updates) =>
          if bool_decide (0 < length (Object_keys adds))%nat
             || bool_decide (0 < length (Object_keys updates))%nat
          then
            match next_answer (schema_answers σ) with
            | Ok _ =>
                (Object_keys adds, 1%nat,
                 [DatabasesRetrieve db; DatabasesUpdate db (updates ∪ adds)])
            | Throw error =>
                ([], 1%nat,
                 [DatabasesRetrieve db; DatabasesUpdate db (updates ∪ adds);
                  Console (ErrorEnsure error)])
            end
          else (Object_keys adds, 0%nat, [DatabasesRetrieve db])
      end
  end.

(** The schema requests found in a trace, in order. *)
Definition schema_updates_of `{JsNumber} (tr : list event)
  : list (gmap string string) :=
  omap (λ ev, match ev with
              | DatabasesUpdate _ props => Some props
              | _ => None
              end) tr.

(** Every header is mapped to a property the schema has with that type. *)
Definition in_sync (headers : list string) (sp : gmap string mapped)
    (current : gmap string string) : Prop :=
  ∀ h m, h ∈ headers → sp !! h = Some m →
         current !! name m = Some (type m).

(** The service after [n] queries and the events [evs]. *)
Definition after_queries `{JsNumber} (σ : Notion) (n : nat)
    (evs : list event) : Notion :=
  {| retrieve_answers := retrieve_answers σ;
     schema_answers := schema_answers σ;
     query_answers := drop n (query_answers σ);
     create_answers := create_answers σ;
     update_answers := update_answers σ;
     trace := trace σ ++ evs |}.

(** The cursor in hand once [pages] are read from [cursor]. *)
Definition cursor_after `{JsNumber} (cursor : option string)
    (pages : list QueryPage) : option string :=
  foldl (λ _ p, next_cursor p) cursor pages.

(** The queries that read [pages] one after the other, the first with
    [cursor], each of the next with the cursor of the page before. *)
Fixpoint fetch_events `{JsNumber} (db : string) (cursor : option string)
    (pages : list QueryPage) : list event :=
  match pages with
  | [] => []
  | p :: pages' =>
      DatabasesQuery db cursor :: fetch_events db (next_cursor p) pages'
  end.

(** The image blocks expected for a row: one per field of type [files]
    whose value gives a string that is not empty, in the order of the
    fields. *)
Definition image_blocks `{JsNumber} (sp : gmap string mapped) (e : entry)
  : list block :=
  omap (λ hv, match sp !! hv.1 with
              | Some m =>
                  if String.eqb (type m) "files"
                     && JS.truthy (stringValue hv.2)
                  then Some (ImageBlock (stringValue hv.2))
                  else None
              | None => None
              end) e.


(** The mapping [mapProperties] builds without customization: every
    header under its own name, with its default type. *)
Definition default_mapping (defaultType : string → string)
    (headers : list string) : gmap string mapped :=
  foldl (λ m h, <[h := {| name := h; type := defaultType h |}]> m) ∅ headers.

(** ** More example data *)

Module More.

(** A document with an [_id], and the same once [_id] is renamed [key]. *)
Definition doc1 : @entry IntegerNumber :=
  [("_id", VString "a1"); ("name", VString "Alice")].
Definition doc1_renamed : @entry IntegerNumber :=
  [("name", VString "Alice"); ("key", VString "a1")].

(** Two pages of results, the first announcing more. *)
Definition first_page : @QueryPage IntegerNumber :=
  {| results := [Ex.page1]; has_more := true; next_cursor := Some "c1" |}.
Definition last_page : @QueryPage IntegerNumber :=
  {| results := [Ex.page2]; has_more := false; next_cursor := None |}.

(** A service that holds the two pages and accepts every request. *)
Definition paged : @Notion IntegerNumber :=
  {| retrieve_answers := [Ok Ex.existing; Ok Ex.schema];
     schema_answers := [Ok ()];
     query_answers := [Ok first_page; Ok last_page];
     create_answers := [Ok (); Ok ()]; update_answers := [Ok ()];
     trace := [] |}.

(** A service that rejects the second query. *)
Definition interrupted : @Notion IntegerNumber :=
  {| retrieve_answers := [Ok Ex.schema]; schema_answers := [];
     query_answers := [Ok first_page; Throw "rate_limited"];
     create_answers := [Ok ()]; update_answers := [Ok ()]; trace := [] |}.

(** A service that rejects the schema read. *)
Definition denied : @Notion IntegerNumber :=
  {| retrieve_answers := [Throw "unauthorized"]; schema_answers := [];
     query_answers := []; create_answers := [Ok ()]; update_answers := [];
     trace := [] |}.

(** A row with a picture, and a mapping that types it [files]. *)
Definition photo_row : @entry IntegerNumber :=
  [("name", VString "Alice"); ("photo", VString "http://x/p.png")].
Definition selected_photo : gmap string mapped :=
  <["photo" := {| name := "photo"; type := "files" |}]>
    (<["name" := {| name := "name"; type := "title" |}]> ∅).
Definition photo_props : gmap string (@payload IntegerNumber) :=
  <["photo" := PayFiles "http://x/p.png"]> (<["name" := PayTitle "Alice"]> ∅).

(** A row with a field that has no mapping in [Ex.selected]. *)
Definition stray : @entry IntegerNumber :=
  [("name", VString "Carol"); ("fax", VString "1")].

End More.

(** * Properties *)

(** A closed equation settled by evaluating both sides. *)
Ltac by_evaluation :=
  lazymatch goal with
  | |- ?a = ?b => exact (@eq_refl _ b <: a = b)
  end.

(** ** Runs of the writers *)

Section Writers.
Context `{JsNumber}.
Implicit Types (σ : Notion) (sp : gmap string mapped) (e : entry).

Lemma buildPagePayload_loop_mappable e sp props children :
  mappable sp e →
  ∃ r, buildPagePayload_loop e sp props children = Ok r.
Proof.
  intros Hm. revert props children.
  induction Hm as [|[h v] e [m Hm] _ IH]; intros props children; simpl.
  - eauto.
  - simpl in Hm. rewrite Hm. apply IH.
Qed.

Lemma buildPagePayload_mappable e sp :
  mappable sp e → ∃ props children, buildPagePayload e sp = Ok (props, children).
Proof.
  intros Hm.
  destruct (buildPagePayload_loop_mappable e sp ∅ [] Hm) as [[p c] Hr].
  by exists p, c.
Qed.

Lemma after_creates_0 σ : after_creates σ 0 [] = σ.
Proof. destruct σ. unfold after_creates. simpl. by rewrite app_nil_r. Qed.

Lemma after_updates_0 σ : after_updates σ 0 [] = σ.
Proof. destruct σ. unfold after_updates. simpl. by rewrite app_nil_r. Qed.

Lemma after_creates_after_creates σ n evs n' evs' :
  after_creates (after_creates σ n evs) n' evs'
  = after_creates σ (n + n') (evs ++ evs').
Proof.
  unfold after_creates. simpl.
  by rewrite drop_drop, <- app_assoc.
Qed.

(** One creation request and its handler, as both passes run it. *)
Lemma create_step (line : string → report) db props children
    (kept : list entry) e σ :
  try_catch (pages_create db props children;; mret kept)
            (λ error, log (line error);; mret (kept ++ [e])) σ
  = match create_answers σ with
    | Ok _ :: _ =>
        (Ok kept, after_creates σ 1 [PagesCreate db props children])
    | Throw error :: _ =>
        (Ok (kept ++ [e]),
         after_creates σ 1
           [PagesCreate db props children; Console (line error)])
    | [] =>
        (Ok (kept ++ [e]),
         after_creates σ 1
           [PagesCreate db props children; Console (line unanswered)])
    end.
Proof.
  unfold try_catch, mbind, M_bind, pages_create, mret, M_ret, log,
    after_creates, emit.
  simpl. destruct (create_answers σ) as [|[[]|error] answers]; simpl.
  - by rewrite <- app_assoc.
  - by rewrite drop_0.
  - by rewrite drop_0, <- app_assoc.
Qed.

Lemma create_pass_run records sp db failed σ :
  Forall (mappable sp) records →
  create_pass records sp db failed σ
  = (Ok (failed ++ rejected records (create_answers σ)),
     after_creates σ (length records)
       (pass_events ErrorCreate db sp records (create_answers σ))).
Proof.
  intros Hm. revert failed σ.
  induction Hm as [|e records He _ IH]; intros failed σ; simpl.
  - by rewrite app_nil_r, after_creates_0.
  - destruct (buildPagePayload_mappable e sp He) as (props & children & Hp).
    unfold mbind at 1, M_bind at 1, lift at 1. rewrite Hp.
    unfold mbind at 1, M_bind at 1.
    rewrite (create_step ErrorCreate).
    destruct (create_answers σ) as [|[[]|error] answers] eqn:Ha;
      rewrite IH, after_creates_after_creates; simpl;
      rewrite ?drop_0, ?Ha, <- ?app_assoc; simpl; try done.
Qed.

Lemma retry_pass_run records sp db failed σ :
  Forall (mappable sp) records →
  retry_pass records sp db failed σ
  = (Ok (failed ++ rejected records (create_answers σ)),
     after_creates σ (length records)
       (pass_events ErrorRetry db sp records (create_answers σ))).
Proof.
  intros Hm. revert failed σ.
  induction Hm as [|e records He _ IH]; intros failed σ; simpl.
  - by rewrite app_nil_r, after_creates_0.
  - destruct (buildPagePayload_mappable e sp He) as (props & children & Hp).
    unfold mbind at 1, M_bind at 1, lift at 1. rewrite Hp.
    unfold mbind at 1, M_bind at 1.
    rewrite (create_step ErrorRetry).
    destruct (create_answers σ) as [|[[]|error] answers] eqn:Ha;
      rewrite IH, after_creates_after_creates; simpl;
      rewrite ?drop_0, ?Ha, <- ?app_assoc; simpl; try done.
Qed.

Lemma rejected_Forall {A} (P : A → Prop) (items : list A) answers :
  Forall P items → Forall P (rejected items answers).
Proof.
  intros HP. revert answers.
  induction HP as [|x items Hx _ IH]; intros answers; simpl; [done|].
  destruct answers as [|[[]|error] answers]; auto.
Qed.

Lemma emit_after_creates σ n evs ev :
  emit ev (after_creates σ n evs) = after_creates σ n (evs ++ [ev]).
Proof. unfold after_creates, emit. simpl. by rewrite <- app_assoc. Qed.

Lemma create_answers_after_creates σ n evs :
  create_answers (after_creates σ n evs) = drop n (create_answers σ).
Proof. done. Qed.

Lemma addNonDuplicateRecords_run records sp db σ :
  Forall (mappable sp) records →
  addNonDuplicateRecords records sp db σ
  = (Ok (),
     after_creates σ
       (length records + length (rejected records (create_answers σ)))
       (add_events db sp records (create_answers σ))).
Proof.
  intros Hm. unfold addNonDuplicateRecords, add_events.
  unfold mbind at 1, M_bind at 1. rewrite create_pass_run by done. simpl.
  destruct (rejected records (create_answers σ)) as [|e failed] eqn:Hf.
  - simpl. rewrite Nat.add_0_r. unfold mret, M_ret. by rewrite app_nil_r.
  - rewrite bool_decide_true by (simpl; lia).
    unfold mbind at 1, M_bind at 1, log at 1.
    rewrite emit_after_creates.
    unfold mbind at 1, M_bind at 1.
    assert (Forall (mappable sp) (e :: failed)) as Hm'.
    { rewrite <- Hf. by apply rejected_Forall. }
    rewrite retry_pass_run by done.
    rewrite after_creates_after_creates, create_answers_after_creates.
    rewrite app_nil_l.
    destruct (rejected (e :: failed) (drop (length records) (create_answers σ)))
      as [|e' still] eqn:Hs.
    + rewrite bool_decide_false by (simpl; apply Nat.lt_irrefl).
      unfold mret, M_ret. by rewrite app_nil_r, <- app_assoc.
    + rewrite bool_decide_true by (simpl; lia).
      unfold log. rewrite emit_after_creates.
      by rewrite <- !app_assoc.
Qed.

Lemma update_props_loop_mappable e only newProps sp props :
  mappable sp e → ∃ r, update_props_loop e only newProps sp props = Ok r.
Proof.
  intros Hm. revert props.
  induction Hm as [|[h v] e [m Hm] _ IH]; intros props; simpl; [eauto|].
  simpl in Hm. rewrite Hm. destruct (_ && _); apply IH.
Qed.

Lemma after_updates_after_updates σ n evs n' evs' :
  after_updates (after_updates σ n evs) n' evs'
  = after_updates σ (n + n') (evs ++ evs').
Proof.
  unfold after_updates. simpl.
  by rewrite drop_drop, <- app_assoc.
Qed.

(** One page update and its handler. *)
Lemma update_step page_id props σ :
  try_catch (pages_update page_id props) (λ error, log (ErrorUpdate error)) σ
  = match update_answers σ with
    | Ok _ :: _ => (Ok (), after_updates σ 1 [PagesUpdate page_id props])
    | Throw error :: _ =>
        (Ok (), after_updates σ 1
                  [PagesUpdate page_id props; Console (ErrorUpdate error)])
    | [] =>
        (Ok (), after_updates σ 1
                  [PagesUpdate page_id props;
                   Console (ErrorUpdate unanswered)])
    end.
Proof.
  unfold try_catch, pages_update, log, after_updates, emit.
  simpl. destruct (update_answers σ) as [|[[]|error] answers]; simpl.
  - by rewrite <- app_assoc.
  - by rewrite drop_0.
  - by rewrite drop_0, <- app_assoc.
Qed.

Lemma updateDuplicateRecords_run duplicates sp newProps σ :
  Forall (λ d, mappable sp (dup_entry d)) duplicates →
  updateDuplicateRecords duplicates sp newProps σ
  = (Ok (),
     after_updates σ (length duplicates)
       (update_events duplicates sp newProps (update_answers σ))).
Proof.
  intros Hm. revert σ.
  induction Hm as [|d duplicates Hd _ IH]; intros σ; simpl.
  - by rewrite after_updates_0.
  - destruct (update_props_loop_mappable (dup_entry d)
                (updateOnlyNewProperties d) newProps sp ∅ Hd) as [props Hp].
    unfold mbind at 1, M_bind at 1, lift at 1. rewrite Hp.
    unfold mbind at 1, M_bind at 1.
    rewrite update_step.
    destruct (update_answers σ) as [|[[]|error] answers] eqn:Ha;
      rewrite IH, after_updates_after_updates; simpl;
      rewrite ?drop_0, ?Ha, <- ?app_assoc; simpl; try done.
Qed.

End Writers.

(** ** Reading the pages *)

Section Fetch.
Context `{JsNumber}.

(** The number of turns [fetchAllRecords] allows is never what stops the
    loop: any larger number gives the same run. *)
Lemma fetch_loop_turns n m db (allRecords : list page) cursor (σ : Notion) :
  (length (query_answers σ) < n)%nat →
  (length (query_answers σ) < m)%nat →
  fetch_loop n db allRecords cursor σ = fetch_loop m db allRecords cursor σ.
Proof.
  revert m allRecords cursor σ.
  induction n as [|n IH]; intros [|m] allRecords cursor σ Hn Hm; try lia.
  cbn [fetch_loop]. unfold mbind, M_bind, databases_query.
  cbn [query_answers emit].
  destruct (query_answers σ) as [|[response|error] answers] eqn:Ha; [done| |done].
  destruct (has_more response); [|done].
  apply IH; simpl in *; lia.
Qed.

Lemma fetchAllRecords_turns n db (σ : Notion) :
  (length (query_answers σ) < n)%nat →
  fetchAllRecords db σ = fetch_loop n db [] None σ.
Proof. intros Hn. unfold fetchAllRecords. apply fetch_loop_turns; lia. Qed.

End Fetch.

(** ** Creation with one retry, update without *)

Create Rewrite HintDb observe.

Section Retry.
Context `{JsNumber}.
Implicit Types (σ : Notion) (sp : gmap string mapped) (e : entry).

Lemma creates_of_app (tr1 tr2 : list event) :
  creates_of (tr1 ++ tr2) = creates_of tr1 ++ creates_of tr2.
Proof. apply omap_app. Qed.

Lemma updates_of_app (tr1 tr2 : list event) :
  updates_of (tr1 ++ tr2) = updates_of tr1 ++ updates_of tr2.
Proof. apply omap_app. Qed.

Lemma reports_of_app (tr1 tr2 : list event) :
  reports_of (tr1 ++ tr2) = reports_of tr1 ++ reports_of tr2.
Proof. apply omap_app. Qed.

Lemma reads_of_app (tr1 tr2 : list event) :
  reads_of (tr1 ++ tr2) = reads_of tr1 ++ reads_of tr2.
Proof. apply filter_app. Qed.

Lemma creates_of_create db props children (tr : list event) :
  creates_of (PagesCreate db props children :: tr)
  = (props, children) :: creates_of tr.
Proof. done. Qed.

Lemma creates_of_update page_id props (tr : list event) :
  creates_of (PagesUpdate page_id props :: tr) = creates_of tr.
Proof. done. Qed.

Lemma creates_of_console r (tr : list event) :
  creates_of (Console r :: tr) = creates_of tr.
Proof. done. Qed.

Lemma updates_of_create db props children (tr : list event) :
  updates_of (PagesCreate db props children :: tr) = updates_of tr.
Proof. done. Qed.

Lemma updates_of_update page_id props (tr : list event) :
  updates_of (PagesUpdate page_id props :: tr)
  = (page_id, props) :: updates_of tr.
Proof. done. Qed.

Lemma updates_of_console r (tr : list event) :
  updates_of (Console r :: tr) = updates_of tr.
Proof. done. Qed.

Lemma reports_of_create db props children (tr : list event) :
  reports_of (PagesCreate db props children :: tr) = reports_of tr.
Proof. done. Qed.

Lemma reports_of_update page_id props (tr : list event) :
  reports_of (PagesUpdate page_id props :: tr) = reports_of tr.
Proof. done. Qed.

Lemma reports_of_console r (tr : list event) :
  reports_of (Console r :: tr) = r :: reports_of tr.
Proof. done. Qed.

Lemma reads_of_write (ev : event) (tr : list event) :
  is_read ev = false → reads_of (ev :: tr) = reads_of tr.
Proof.
  intros Hev. unfold reads_of. rewrite filter_cons_False; [done|].
  by rewrite Hev.
Qed.

#[local] Hint Rewrite creates_of_create creates_of_update creates_of_console
  updates_of_create updates_of_update updates_of_console
  reports_of_create reports_of_update reports_of_console
  creates_of_app updates_of_app reports_of_app reads_of_app : observe.
#[local] Hint Rewrite reads_of_write using done : observe.

Lemma pass_events_observed line db sp records answers :
  Forall (mappable sp) records →
  creates_of (pass_events line db sp records answers) = payloads sp records
  ∧ updates_of (pass_events line db sp records answers) = []
  ∧ reads_of (pass_events line db sp records answers) = []
  ∧ reports_of (pass_events line db sp records answers)
    = line <$> rejections records answers.
Proof.
  intros Hm. revert answers.
  induction Hm as [|e records He _ IH]; intros answers; [done|].
  destruct (buildPagePayload_mappable e sp He) as (props & children & Hp).
  unfold payloads; fold (payloads sp records).
  simpl pass_events. simpl rejections. simpl omap. rewrite Hp.
  destruct answers as [|[[]|error] answers];
    [destruct (IH []) as (Hc & Hu & Hr & Hl)
    |destruct (IH answers) as (Hc & Hu & Hr & Hl)..];
    autorewrite with observe; rewrite ?Hc, ?Hu, ?Hr, ?Hl; done.
Qed.

Lemma update_events_observed duplicates sp newProps answers :
  Forall (λ d, mappable sp (dup_entry d)) duplicates →
  updates_of (update_events duplicates sp newProps answers)
  = update_requests sp newProps duplicates
  ∧ creates_of (update_events duplicates sp newProps answers) = []
  ∧ reads_of (update_events duplicates sp newProps answers) = []
  ∧ reports_of (update_events duplicates sp newProps answers)
    = ErrorUpdate <$> rejections duplicates answers.
Proof.
  intros Hm. revert answers.
  induction Hm as [|d duplicates Hd _ IH]; intros answers; [done|].
  destruct (update_props_loop_mappable (dup_entry d)
              (updateOnlyNewProperties d) newProps sp ∅ Hd) as [props Hp].
  unfold update_requests; fold (update_requests sp newProps duplicates).
  simpl update_events. simpl rejections. simpl omap. rewrite Hp.
  destruct answers as [|[[]|error] answers];
    [destruct (IH []) as (Hc & Hu & Hr & Hl)
    |destruct (IH answers) as (Hc & Hu & Hr & Hl)..];
    autorewrite with observe; rewrite ?Hc, ?Hu, ?Hr, ?Hl; done.
Qed.

Lemma payloads_cons sp e (l : list entry) r :
  buildPagePayload e sp = Ok r → payloads sp (e :: l) = r :: payloads sp l.
Proof. intros Hr. unfold payloads. simpl. by rewrite Hr. Qed.

Lemma payloads_length sp (l : list entry) :
  Forall (mappable sp) l → length (payloads sp l) = length l.
Proof.
  induction 1 as [|e l He _ IH]; [done|].
  destruct (buildPagePayload_mappable e sp He) as (p & c & Hp).
  rewrite (payloads_cons _ _ _ _ Hp). simpl. by rewrite IH.
Qed.

Lemma update_requests_cons sp newProps d (l : list duplicate) props :
  update_props_loop (dup_entry d) (updateOnlyNewProperties d) newProps sp ∅
  = Ok props →
  update_requests sp newProps (d :: l)
  = (recordId d, props) :: update_requests sp newProps l.
Proof. intros Hp. unfold update_requests. simpl. by rewrite Hp. Qed.

Lemma update_requests_length sp newProps (l : list duplicate) :
  Forall (λ d, mappable sp (dup_entry d)) l →
  length (update_requests sp newProps l) = length l.
Proof.
  induction 1 as [|d l Hd _ IH]; [done|].
  destruct (update_props_loop_mappable (dup_entry d)
              (updateOnlyNewProperties d) newProps sp ∅ Hd) as [props Hp].
  rewrite (update_requests_cons _ _ _ _ _ Hp). simpl. by rewrite IH.
Qed.

Lemma rejections_length {A} (items : list A) answers :
  length (rejections items answers) = length (rejected items answers).
Proof.
  revert answers. induction items as [|x l IH]; intros a; [done|].
  destruct a as [|[[]|error] a]; simpl; by rewrite ?IH.
Qed.

(** C8: every create batch sends one request per row in a first pass over
    all the rows, then exactly one more request per rejected row in a second
    pass; rows rejected twice are reported and the batch still ends
    normally.  Every duplicate gets exactly one update request, whatever
    the answer, and a rejected update is only reported. *)
Theorem create_retried_once_update_never records duplicates sp db newProps σ :
  Forall (mappable sp) records →
  Forall (λ d, mappable sp (dup_entry d)) duplicates →
  let answers := create_answers σ in
  let failed := rejected records answers in
  let answers' := drop (length records) answers in
  let still := rejected failed answers' in
  (∃ σ' first second,
     addNonDuplicateRecords records sp db σ = (Ok (), σ')
     ∧ trace σ' = trace σ ++ first ++ second
     ∧ creates_of first = payloads sp records
     ∧ reports_of first = ErrorCreate <$> rejections records answers
     ∧ creates_of second = payloads sp failed
     ∧ reports_of second
       = match failed with
         | [] => []
         | _ :: _ =>
             WarnRetrying :: (ErrorRetry <$> rejections failed answers')
             ++ match still with [] => [] | _ :: _ => [WarnStillFailed] end
         end
     ∧ length (rejections failed answers') = length still
     ∧ length (creates_of (first ++ second))
       = (length records + length failed)%nat
     ∧ updates_of (first ++ second) = [])
  ∧ (∃ σ' evs,
       updateDuplicateRecords duplicates sp newProps σ = (Ok (), σ')
       ∧ trace σ' = trace σ ++ evs
       ∧ updates_of evs = update_requests sp newProps duplicates
       ∧ length (updates_of evs) = length duplicates
       ∧ creates_of evs = []
       ∧ reports_of evs
         = ErrorUpdate <$> rejections duplicates (update_answers σ)).
Proof.
  intros Hr Hd answers failed answers' still. split.
  - assert (Forall (mappable sp) failed) as Hf by by apply rejected_Forall.
    destruct (pass_events_observed ErrorCreate db sp records answers Hr)
      as (Hc1 & Hu1 & _ & Hl1).
    destruct (pass_events_observed ErrorRetry db sp failed answers' Hf)
      as (Hc2 & Hu2 & _ & Hl2).
    eexists _, (pass_events ErrorCreate db sp records answers),
      (match failed with
       | [] => []
       | _ :: _ =>
           Console WarnRetrying ::
           pass_events ErrorRetry db sp failed answers' ++
           match still with [] => [] | _ :: _ => [Console WarnStillFailed] end
       end).
    split; [by apply addNonDuplicateRecords_run|].
    split; [done|]. split; [done|]. split; [done|].
    pose proof (payloads_length sp records Hr) as Hn1.
    pose proof (payloads_length sp failed Hf) as Hn2.
    pose proof (rejections_length failed answers') as Hlen.
    fold still in Hlen.
    destruct failed as [|e failed'] eqn:Ef.
    + rewrite app_nil_r, Hc1, Hu1, Hn1. simpl. repeat split; try done; lia.
    + assert (creates_of
                match still with [] => [] | _ :: _ => [Console WarnStillFailed] end
              = []
              ∧ updates_of
                  match still with [] => [] | _ :: _ => [Console WarnStillFailed] end
                = []) as [Hc3 Hu3] by by destruct still.
      autorewrite with observe.
      rewrite Hc1, Hc2, Hu1, Hu2, Hl2, Hc3, Hu3, !app_nil_r.
      rewrite length_app, Hn1, Hn2.
      repeat split; try done.
      by destruct still.
  - destruct (update_events_observed duplicates sp newProps
                (update_answers σ) Hd) as (Hu & Hc & _ & Hl).
    eexists _, _. split; [by apply updateDuplicateRecords_run|].
    split; [done|]. split; [done|]. split; [|done].
    rewrite Hu. by apply update_requests_length.
Qed.

Lemma add_events_observed db sp records answers :
  Forall (mappable sp) records →
  creates_of (add_events db sp records answers)
  = payloads sp records ++ payloads sp (rejected records answers)
  ∧ updates_of (add_events db sp records answers) = []
  ∧ reads_of (add_events db sp records answers) = [].
Proof.
  intros Hr. unfold add_events.
  assert (Forall (mappable sp) (rejected records answers)) as Hf
    by by apply rejected_Forall.
  destruct (pass_events_observed ErrorCreate db sp records answers Hr)
    as (Hc1 & Hu1 & Hr1 & _).
  destruct (pass_events_observed ErrorRetry db sp _
              (drop (length records) answers) Hf) as (Hc2 & Hu2 & Hr2 & _).
  destruct (rejected records answers) as [|e failed].
  - by rewrite !app_nil_r.
  - autorewrite with observe. rewrite Hc1, Hc2, Hu1, Hu2, Hr1, Hr2.
    destruct (rejected (e :: failed) _); simpl; by rewrite ?app_nil_r.
Qed.

End Retry.

#[export] Hint Rewrite @creates_of_create @creates_of_update
  @creates_of_console @updates_of_create @updates_of_update
  @updates_of_console @reports_of_create @reports_of_update
  @reports_of_console @creates_of_app @updates_of_app @reports_of_app
  @reads_of_app : observe.
#[export] Hint Rewrite @reads_of_write using done : observe.

(** An instance: the first of two creations is rejected and retried. *)
Lemma create_retried_once_witness :
  ∃ σ', addNonDuplicateRecords [Ex.alice; Ex.bob] Ex.selected "db" Ex.flaky
        = (Ok (), σ')
        ∧ length (creates_of (trace σ')) = 3%nat
        ∧ reports_of (trace σ') = [ErrorCreate "timeout"; WarnRetrying].
Proof.
  destruct (create_retried_once_update_never (H:=IntegerNumber)
              [Ex.alice; Ex.bob] [] Ex.selected "db" [] Ex.flaky)
    as [(σ' & first & second & Hrun & Htr & _ & Hl1 & _ & Hl2 & _ & Hn & _) _].
  - repeat constructor; vm_compute; eauto.
  - constructor.
  - exists σ'. split; [exact Hrun|]. rewrite Htr. simpl trace.
    rewrite app_nil_l. split; [exact Hn|].
    rewrite reports_of_app, Hl1, Hl2. reflexivity.
Defined.

(** ** Policy 3 *)

Section PolicyNone.
Context `{JsNumber}.
Variable getPropertyValue : option property → option string → Result string.

(** C7: under option 3, [exportToNotion] hands the whole input to the
    create path; the run then sends a create request for every row, in
    order, and no update and no read of the database. *)
Theorem policy_none_creates_all (data : list entry) db sp fields newProps σ :
  exportToNotion getPropertyValue data db sp fields "3" newProps σ
  = addNonDuplicateRecords data sp db σ
  ∧ (Forall (mappable sp) data →
     ∃ σ' evs,
       exportToNotion getPropertyValue data db sp fields "3" newProps σ
       = (Ok (), σ')
       ∧ trace σ' = trace σ ++ evs
       ∧ creates_of evs
         = payloads sp data
           ++ payloads sp (rejected data (create_answers σ))
       ∧ length (payloads sp data) = length data
       ∧ updates_of evs = []
       ∧ reads_of evs = []).
Proof.
  split; [done|]. intros Hm.
  destruct (add_events_observed db sp data (create_answers σ) Hm)
    as (Hc & Hu & Hr).
  eexists _, _. split; [by apply addNonDuplicateRecords_run|].
  split; [done|]. split; [done|].
  split; [by apply payloads_length|done].
Qed.

End PolicyNone.

(** An instance: two rows under option 3, one creation being retried. *)
Lemma policy_none_witness :
  ∃ σ', Mongo.exportToNotion [Ex.alice; Ex.bob] "db" Ex.selected
          ["email"] "3" [] Ex.flaky = (Ok (), σ')
        ∧ length (creates_of (trace σ')) = 3%nat
        ∧ updates_of (trace σ') = [].
Proof.
  destruct (policy_none_creates_all (H:=IntegerNumber)
              (λ p t, Ok (Mongo.getPropertyValue p t))
              [Ex.alice; Ex.bob] "db" Ex.selected ["email"] [] Ex.flaky)
    as [_ Hrun].
  destruct Hrun as (σ' & evs & Hrun & Htr & Hc & _ & Hu & _).
  - repeat constructor; vm_compute; eauto.
  - exists σ'. split; [exact Hrun|]. rewrite Htr. simpl trace.
    rewrite app_nil_l, Hc, Hu. split; reflexivity.
Defined.

(** ** Classification of the rows *)

Section Duplicates.
Context `{JsNumber}.
Implicit Types (idx : gmap string (gmap string string)) (doc : entry).

Lemma findDuplicate_cons idx f fields doc :
  findDuplicate idx (f :: fields) doc
  = match key_hit idx doc f with
    | Some recordId => Some recordId
    | None => findDuplicate idx fields doc
    end.
Proof.
  unfold key_hit. simpl.
  by destruct (notNullish (entry_get doc f)).
Qed.

Lemma findDuplicate_None idx fields doc :
  findDuplicate idx fields doc = None
  ↔ ∀ g, g ∈ fields → key_hit idx doc g = None.
Proof.
  induction fields as [|f fields IH].
  - split; [|done]. intros _ g Hg. by apply elem_of_nil in Hg.
  - rewrite findDuplicate_cons. split.
    + destruct (key_hit idx doc f) eqn:Hf; [done|]. intros Hn g Hg.
      apply elem_of_cons in Hg as [->|Hg]; [done|]. by apply IH.
    + intros Hall. rewrite (Hall f) by left. apply IH.
      intros g Hg. apply Hall. by right.
Qed.

Lemma findDuplicate_first_hit idx pre f post doc recordId :
  (∀ g, g ∈ pre → key_hit idx doc g = None) →
  key_hit idx doc f = Some recordId →
  findDuplicate idx (pre ++ f :: post) doc = Some recordId.
Proof.
  intros Hpre Hf. induction pre as [|g pre IH]; simpl app.
  - by rewrite findDuplicate_cons, Hf.
  - rewrite findDuplicate_cons, (Hpre g) by left.
    apply IH. intros g' Hg'. apply Hpre. by right.
Qed.

Lemma findDuplicate_Some idx fields doc recordId :
  findDuplicate idx fields doc = Some recordId
  ↔ ∃ pre f post,
      fields = pre ++ f :: post
      ∧ (∀ g, g ∈ pre → key_hit idx doc g = None)
      ∧ key_hit idx doc f = Some recordId.
Proof.
  split.
  - induction fields as [|f fields IH]; [done|].
    rewrite findDuplicate_cons.
    destruct (key_hit idx doc f) as [i|] eqn:Hf.
    + intros [= ->]. exists [], f, fields. split; [done|]. split; [|done].
      intros g Hg. by apply elem_of_nil in Hg.
    + intros Hfind. destruct (IH Hfind) as (pre & f' & post & -> & Hpre & Hf').
      exists (f :: pre), f', post. split; [done|]. split; [|done].
      intros g Hg. apply elem_of_cons in Hg as [->|Hg]; [done|by apply Hpre].
  - intros (pre & f & post & -> & Hpre & Hf).
    by apply findDuplicate_first_hit.
Qed.

Lemma key_hit_agree idx idx' doc g :
  idx' !! g = idx !! g → key_hit idx' doc g = key_hit idx doc g.
Proof. intros Hg. unfold key_hit, indexed. by rewrite Hg. Qed.

(** C6: the key fields are tried in the caller's order; a field whose
    value is undefined or null is passed over without a lookup; the first
    field whose stringified value is in the index fixes the matched page,
    whatever fields follow it and whatever the index holds for them; a row
    with no hit goes to the rows to create, and a row with a hit does not. *)
Theorem first_key_field_hit_wins idx fields doc :
  (∀ recordId,
     findDuplicate idx fields doc = Some recordId
     ↔ ∃ pre f post,
         fields = pre ++ f :: post
         ∧ (∀ g, g ∈ pre → key_hit idx doc g = None)
         ∧ key_hit idx doc f = Some recordId)
  ∧ (∀ pre f post recordId idx' post',
       fields = pre ++ f :: post →
       (∀ g, g ∈ pre → key_hit idx doc g = None) →
       key_hit idx doc f = Some recordId →
       (∀ g, g ∈ pre ++ [f] → idx' !! g = idx !! g) →
       findDuplicate idx' (pre ++ f :: post') doc = Some recordId)
  ∧ (∀ f rest,
       notNullish (entry_get doc f) = false →
       findDuplicate idx (f :: rest) doc = findDuplicate idx rest doc)
  ∧ (∀ f, notNullish (entry_get doc f) = true →
          key_hit idx doc f
          = default ∅ (idx !! f) !! String_of (entry_get doc f))
  ∧ (findDuplicate idx fields doc = None
     ↔ ∀ g, g ∈ fields → key_hit idx doc g = None)
  ∧ (∀ duplicateOption newProperties duplicatesForUpdate nonDuplicatesToAdd,
       match findDuplicate idx fields doc with
       | None =>
           classify idx fields duplicateOption newProperties
             (duplicatesForUpdate, nonDuplicatesToAdd) doc
           = (duplicatesForUpdate, nonDuplicatesToAdd ++ [doc])
       | Some recordId =>
           (classify idx fields duplicateOption newProperties
              (duplicatesForUpdate, nonDuplicatesToAdd) doc).2
           = nonDuplicatesToAdd
           ∧ ∀ d, d ∈ (classify idx fields duplicateOption newProperties
                         (duplicatesForUpdate, nonDuplicatesToAdd) doc).1 →
                  d ∈ duplicatesForUpdate
                  ∨ d = {| recordId := recordId; dup_entry := doc;
                           updateOnlyNewProperties := true |}
       end).
Proof.
  split; [intros recordId; exact (findDuplicate_Some idx fields doc recordId)|].
  split.
  { intros pre f post recordId idx' post' _ Hpre Hf Hagree.
    apply findDuplicate_first_hit.
    - intros g Hg. rewrite (key_hit_agree idx idx'); [by apply Hpre|].
      apply Hagree, elem_of_app. by left.
    - rewrite (key_hit_agree idx idx'); [done|].
      apply Hagree, elem_of_app. right. by left. }
  split.
  { intros f rest Hnull. rewrite findDuplicate_cons.
    unfold key_hit. by rewrite Hnull. }
  split.
  { intros f Hval. unfold key_hit, indexed. by rewrite Hval. }
  split; [exact (findDuplicate_None idx fields doc)|].
  intros opt newProps dups adds. unfold classify.
  destruct (findDuplicate idx fields doc) as [recordId|]; [|done].
  destruct (String.eqb opt "1"); [by auto|].
  destruct (String.eqb opt "2"); [|by auto].
  destruct (hasNewPropertyValues newProps doc); [|by auto].
  split; [done|]. simpl. intros d Hd.
  apply elem_of_app in Hd as [Hd|Hd]; [by left|].
  apply list_elem_of_singleton in Hd. by right.
Qed.

Lemma hasNewPropertyValues_true newProps doc :
  hasNewPropertyValues newProps doc = true
  ↔ ∃ prop, prop ∈ newProps ∧ notEmpty (entry_get doc prop) = true.
Proof.
  induction newProps as [|p newProps IH]; simpl.
  - split; [done|]. intros (prop & Hp & _). by apply elem_of_nil in Hp.
  - destruct (notEmpty (entry_get doc p)) eqn:Hp.
    + split; [|done]. intros _. exists p. split; [by left|done].
    + rewrite IH. split.
      * intros (prop & Hin & Hv). exists prop. split; [by right|done].
      * intros (prop & Hin & Hv).
        apply elem_of_cons in Hin as [->|Hin]; [congruence|eauto].
Qed.

Lemma classify_update idx fields newProps duplicatesForUpdate
    nonDuplicatesToAdd doc :
  classify idx fields "2" newProps (duplicatesForUpdate, nonDuplicatesToAdd)
    doc
  = match findDuplicate idx fields doc with
    | Some recordId =>
        if hasNewPropertyValues newProps doc
        then (duplicatesForUpdate ++
                [{| recordId := recordId; dup_entry := doc;
                    updateOnlyNewProperties := true |}],
              nonDuplicatesToAdd)
        else (duplicatesForUpdate, nonDuplicatesToAdd)
    | None => (duplicatesForUpdate, nonDuplicatesToAdd ++ [doc])
    end.
Proof. done. Qed.

Lemma to_update_cons idx fields newProps doc (data : list entry) :
  to_update idx fields newProps (doc :: data)
  = match findDuplicate idx fields doc with
    | Some recordId =>
        if hasNewPropertyValues newProps doc
        then {| recordId := recordId; dup_entry := doc;
                updateOnlyNewProperties := true |}
             :: to_update idx fields newProps data
        else to_update idx fields newProps data
    | None => to_update idx fields newProps data
    end.
Proof.
  unfold to_update. simpl.
  destruct (findDuplicate idx fields doc); [|done].
  by destruct (hasNewPropertyValues newProps doc).
Qed.

Lemma to_create_cons idx fields doc (data : list entry) :
  to_create idx fields (doc :: data)
  = match findDuplicate idx fields doc with
    | Some _ => to_create idx fields data
    | None => doc :: to_create idx fields data
    end.
Proof.
  unfold to_create. rewrite filter_cons.
  destruct (findDuplicate idx fields doc); by case_decide.
Qed.

Lemma separate_update idx fields newProps (data : list entry)
    duplicatesForUpdate nonDuplicatesToAdd :
  foldl (classify idx fields "2" newProps)
    (duplicatesForUpdate, nonDuplicatesToAdd) data
  = (duplicatesForUpdate ++ to_update idx fields newProps data,
     nonDuplicatesToAdd ++ to_create idx fields data).
Proof.
  revert duplicatesForUpdate nonDuplicatesToAdd.
  induction data as [|doc data IH]; intros dups adds.
  - simpl. by rewrite !app_nil_r.
  - cbn [foldl]. rewrite classify_update, to_update_cons, to_create_cons.
    destruct (findDuplicate idx fields doc) as [recordId|].
    + destruct (hasNewPropertyValues newProps doc); rewrite IH;
        by rewrite <- ?app_assoc.
    + rewrite IH. by rewrite <- app_assoc.
Qed.

Lemma to_update_elem idx fields newProps (data : list entry) d :
  d ∈ to_update idx fields newProps data
  ↔ ∃ doc recordId,
      doc ∈ data
      ∧ findDuplicate idx fields doc = Some recordId
      ∧ (∃ prop, prop ∈ newProps ∧ notEmpty (entry_get doc prop) = true)
      ∧ d = {| recordId := recordId; dup_entry := doc;
               updateOnlyNewProperties := true |}.
Proof.
  unfold to_update. rewrite list_elem_of_omap. split.
  - intros (doc & Hin & Hd).
    destruct (findDuplicate idx fields doc) as [recordId|] eqn:Hf; [|done].
    destruct (hasNewPropertyValues newProps doc) eqn:Hn; [|done].
    exists doc, recordId. apply hasNewPropertyValues_true in Hn.
    by injection Hd as <-.
  - intros (doc & recordId & Hin & Hf & Hn & ->). exists doc.
    apply hasNewPropertyValues_true in Hn. by rewrite Hf, Hn.
Qed.

Lemma to_create_elem idx fields (data : list entry) doc :
  doc ∈ to_create idx fields data
  ↔ doc ∈ data ∧ findDuplicate idx fields doc = None.
Proof. unfold to_create. rewrite list_elem_of_filter. tauto. Qed.

Lemma update_props_loop_only_new doc newProps sp props0 props :
  update_props_loop doc true newProps sp props0 = Ok props →
  ∀ n pay, props !! n = Some pay →
    props0 !! n = Some pay
    ∨ ∃ h v m, (h, v) ∈ doc ∧ h ∈ newProps ∧ sp !! h = Some m
               ∧ name m = n
               ∧ pay = buildPropertyPayload (type m) (stringValue v).
Proof.
  revert props0. induction doc as [|[h v] doc IH]; intros props0; simpl.
  - intros [= ->]. by left.
  - case_bool_decide as Hin; simpl.
    + destruct (sp !! h) as [m|] eqn:Hm; [|done].
      intros Hloop n pay Hn.
      destruct (IH _ Hloop n pay Hn) as [H0|(h' & v' & m' & Hd & ?)].
      * destruct (decide (name m = n)) as [<-|Hne].
        -- rewrite lookup_insert_eq in H0. injection H0 as <-.
           right. exists h, v, m. split; [by left|done].
        -- rewrite lookup_insert_ne in H0 by done. by left.
      * right. exists h', v', m'. split; [by right|done].
    + intros Hloop n pay Hn.
      destruct (IH _ Hloop n pay Hn) as [H0|(h' & v' & m' & Hd & ?)];
        [by left|].
      right. exists h', v', m'. split; [by right|done].
Qed.

Lemma to_update_mappable idx fields newProps sp (data : list entry) :
  Forall (mappable sp) data →
  Forall (λ d, mappable sp (dup_entry d)) (to_update idx fields newProps data).
Proof.
  rewrite !Forall_forall. intros Hm d Hd.
  apply to_update_elem in Hd as (doc & recordId & Hin & _ & _ & ->).
  by apply Hm.
Qed.

Lemma to_create_mappable idx fields sp (data : list entry) :
  Forall (mappable sp) data → Forall (mappable sp) (to_create idx fields data).
Proof.
  rewrite !Forall_forall. intros Hm doc Hd.
  apply to_create_elem in Hd as [Hin _]. by apply Hm.
Qed.

Variable getPropertyValue : option property → option string → Result string.

(** A run of [exportToNotion] under option 2 whose reads succeed. *)
Lemma exportToNotion_update_run (data : list entry) db sp fields newProps
    σ allRecords σ1 schema σ2 idx :
  fetchAllRecords db σ = (Ok allRecords, σ1) →
  databases_retrieve db σ1 = (Ok schema, σ2) →
  buildIndex getPropertyValue allRecords fields schema = Ok idx →
  Forall (mappable sp) data →
  let dups := to_update idx fields newProps data in
  let adds := to_create idx fields data in
  exportToNotion getPropertyValue data db sp fields "2" newProps σ
  = (Ok (),
     after_creates
       (after_updates σ2 (length dups)
          (update_events dups sp newProps (update_answers σ2)))
       (length adds + length (rejected adds (create_answers σ2)))
       (add_events db sp adds (create_answers σ2))).
Proof.
  intros Hfetch Hretrieve Hindex Hm dups adds.
  unfold exportToNotion. change (String.eqb "2" "3") with false. cbv iota.
  unfold mbind at 1, M_bind at 1. rewrite Hfetch.
  unfold mbind at 1, M_bind at 1. rewrite Hretrieve.
  unfold mbind at 1, M_bind at 1, lift at 1. rewrite Hindex.
  unfold separate. rewrite separate_update, !app_nil_l.
  fold dups adds. change (String.eqb "2" "2") with true.
  rewrite andb_true_l.
  unfold mbind at 1, M_bind at 1.
  assert ((if bool_decide (0 < length dups)%nat
           then updateDuplicateRecords dups sp newProps
           else mret ()) σ2
          = (Ok (), after_updates σ2 (length dups)
                      (update_events dups sp newProps (update_answers σ2))))
    as ->.
  { case_bool_decide as Hlen.
    - apply updateDuplicateRecords_run. by apply to_update_mappable.
    - destruct dups; [|simpl in Hlen; lia]. simpl.
      by rewrite after_updates_0. }
  case_bool_decide as Hlen.
  - rewrite addNonDuplicateRecords_run by by apply to_create_mappable.
    done.
  - destruct adds; [|simpl in Hlen; lia]. simpl.
    unfold add_events. simpl. by rewrite after_creates_0.
Qed.

(** C3: under option 2, with the reads of the run succeeding, the update
    requests are exactly those of the duplicates that have, among the new
    properties, a field whose value is not undefined, null or empty, one
    request each; the properties of such a request all come from fields in
    the new properties; the create requests are those of the rows that
    match no page, so a duplicate without new values is not written. *)
Theorem update_new_only (data : list entry) db sp fields newProps
    σ allRecords σ1 schema σ2 idx :
  fetchAllRecords db σ = (Ok allRecords, σ1) →
  databases_retrieve db σ1 = (Ok schema, σ2) →
  buildIndex getPropertyValue allRecords fields schema = Ok idx →
  Forall (mappable sp) data →
  let dups := to_update idx fields newProps data in
  let adds := to_create idx fields data in
  ∃ σ' evs,
    exportToNotion getPropertyValue data db sp fields "2" newProps σ
    = (Ok (), σ')
    ∧ trace σ' = trace σ2 ++ evs
    ∧ updates_of evs = update_requests sp newProps dups
    ∧ length (updates_of evs) = length dups
    ∧ creates_of evs
      = payloads sp adds ++ payloads sp (rejected adds (create_answers σ2))
    ∧ (∀ d, d ∈ dups
            ↔ ∃ doc recordId,
                doc ∈ data
                ∧ findDuplicate idx fields doc = Some recordId
                ∧ (∃ prop, prop ∈ newProps
                           ∧ notEmpty (entry_get doc prop) = true)
                ∧ d = {| recordId := recordId; dup_entry := doc;
                         updateOnlyNewProperties := true |})
    ∧ (∀ doc, doc ∈ adds
              ↔ doc ∈ data ∧ findDuplicate idx fields doc = None)
    ∧ (∀ d page_id props,
         d ∈ dups →
         (page_id, props) ∈ update_requests sp newProps [d] →
         page_id = recordId d
         ∧ ∀ n pay, props !! n = Some pay →
             ∃ h v m, (h, v) ∈ dup_entry d ∧ h ∈ newProps
                      ∧ sp !! h = Some m ∧ name m = n
                      ∧ pay = buildPropertyPayload (type m) (stringValue v)).
Proof.
  intros Hfetch Hretrieve Hindex Hm dups adds.
  pose proof (to_update_mappable idx fields newProps sp data Hm) as Hd.
  pose proof (to_create_mappable idx fields sp data Hm) as Ha.
  fold dups in Hd. fold adds in Ha.
  destruct (update_events_observed dups sp newProps (update_answers σ2) Hd)
    as (Hu1 & Hc1 & _ & _).
  destruct (add_events_observed db sp adds (create_answers σ2) Ha)
    as (Hc2 & Hu2 & _).
  eexists _, (update_events dups sp newProps (update_answers σ2)
              ++ add_events db sp adds (create_answers σ2)).
  split; [by eapply exportToNotion_update_run|].
  split; [simpl; by rewrite app_assoc|].
  autorewrite with observe. rewrite Hu1, Hu2, Hc1, Hc2, app_nil_r.
  split; [done|]. split; [by apply update_requests_length|].
  split; [done|].
  split; [apply to_update_elem|]. split; [apply to_create_elem|].
  intros d page_id props Hin Hreq.
  apply to_update_elem in Hin as (doc & recordId & _ & _ & _ & ->).
  unfold update_requests in Hreq. simpl in Hreq.
  destruct (update_props_loop doc true newProps sp ∅) as [props'|] eqn:Hp;
    [|by apply elem_of_nil in Hreq].
  apply list_elem_of_singleton in Hreq. injection Hreq as -> ->.
  split; [done|]. intros n pay Hn.
  destruct (update_props_loop_only_new _ _ _ _ _ Hp n pay Hn) as [H0|Hsrc];
    [by rewrite lookup_empty in H0|done].
Qed.

End Duplicates.

(** An instance: the row has no [phone], and its [email] is indexed. *)
Lemma first_key_field_hit_wins_witness :
  findDuplicate Ex.index ["phone"; "email"; "name"] Ex.alice = Some "p1".
Proof.
  destruct (first_key_field_hit_wins (H:=IntegerNumber) Ex.index
              ["phone"; "email"; "name"] Ex.alice) as (_ & Hfirst & _).
  apply (Hfirst ["phone"] "email" ["name"] "p1" Ex.index ["name"]).
  - reflexivity.
  - intros g Hg. apply list_elem_of_singleton in Hg as ->. reflexivity.
  - reflexivity.
  - reflexivity.
Defined.

(** An instance: one duplicate with a new phone number, one new row. *)
Lemma update_new_only_witness :
  ∃ σ', Mongo.exportToNotion [Ex.alice_phone; Ex.bob] "db" Ex.selected_more
          ["email"] "2" ["phone"] Ex.populated = (Ok (), σ')
        ∧ updates_of (trace σ')
          = [("p1", <["phone" := PayPhoneNumber "555"]> ∅)]
        ∧ length (creates_of (trace σ')) = 1%nat.
Proof.
  destruct (update_new_only (H:=IntegerNumber) Ex.mongo_value
              [Ex.alice_phone; Ex.bob] "db" Ex.selected_more ["email"]
              ["phone"] Ex.populated [Ex.page1] Ex.populated_fetched
              Ex.schema Ex.populated_read Ex.index_page1)
    as (σ' & evs & Hrun & Htrace & Hupdates & _ & Hcreates & _).
  - by_evaluation.
  - by_evaluation.
  - by_evaluation.
  - repeat constructor; vm_compute; eauto.
  - exists σ'. split; [exact Hrun|]. rewrite Htrace.
    rewrite updates_of_app, creates_of_app, Hupdates, Hcreates.
    split; by_evaluation.
Defined.

(** ** The index of existing values *)

Section Index.
Context `{JsNumber}.
Variable getPropertyValue : option property → option string → Result string.
Implicit Types (evm : gmap string (gmap string string)) (r : page).

Lemma buildTypeMap_lookup fields schema (init : gmap string (option string)) f :
  foldl (λ types field, <[field := typeOrNull schema field]> types) init fields
    !! f
  = if decide (f ∈ fields) then Some (typeOrNull schema f) else init !! f.
Proof.
  revert init. induction fields as [|g fields IH]; intros init; cbn [foldl].
  - by rewrite decide_False by apply not_elem_of_nil.
  - rewrite IH. destruct (decide (f ∈ fields)) as [Hin|Hnin].
    + rewrite decide_True by by right. done.
    + destruct (decide (f = g)) as [->|Hne].
      * rewrite decide_True by by left. by rewrite lookup_insert_eq.
      * rewrite decide_False by (rewrite not_elem_of_cons; done).
        by rewrite lookup_insert_ne.
Qed.

Lemma typeOf_buildTypeMap fields schema f :
  f ∈ fields → typeOf (buildTypeMap fields schema) f = typeOrNull schema f.
Proof.
  intros Hin. unfold typeOf, buildTypeMap.
  by rewrite buildTypeMap_lookup, decide_True.
Qed.

Lemma emptyMaps_lookup fields (init : gmap string (gmap string string)) f :
  foldl (λ maps field, <[field := ∅]> maps) init fields !! f
  = if decide (f ∈ fields) then Some ∅ else init !! f.
Proof.
  revert init. induction fields as [|g fields IH]; intros init; cbn [foldl].
  - by rewrite decide_False by apply not_elem_of_nil.
  - rewrite IH. destruct (decide (f ∈ fields)) as [Hin|Hnin].
    + rewrite decide_True by by right. done.
    + destruct (decide (f = g)) as [->|Hne].
      * rewrite decide_True by by left. by rewrite lookup_insert_eq.
      * rewrite decide_False by (rewrite not_elem_of_cons; done).
        by rewrite lookup_insert_ne.
Qed.

Lemma indexed_emptyMaps fields f v : indexed (emptyMaps fields) f v = None.
Proof.
  unfold indexed, emptyMaps. rewrite emptyMaps_lookup.
  case_decide; simpl; apply lookup_empty.
Qed.

Lemma indexed_set evm f g v w recordId :
  is_Some (evm !! f) →
  indexed (alter (λ m, <[v := recordId]> m) f evm) g w
  = if decide (g = f ∧ w = v) then Some recordId else indexed evm g w.
Proof.
  intros [m Hm]. unfold indexed. rewrite lookup_alter.
  destruct (decide (f = g)) as [<-|Hne].
  - rewrite Hm. simpl. destruct (decide (w = v)) as [->|Hw].
    + rewrite decide_True by done. apply lookup_insert_eq.
    + rewrite decide_False by (intros [_ ?]; done).
      by rewrite lookup_insert_ne.
  - rewrite decide_False by (intros [-> _]; done). done.
Qed.

(** One page and one key field. *)
Lemma index_field_spec r ptm evm f evm' :
  index_field getPropertyValue r ptm evm f = Ok evm' →
  is_Some (evm !! f) →
  (∀ g, is_Some (evm' !! g) ↔ is_Some (evm !! g))
  ∧ ∀ g v,
      indexed evm' g v
      = if decide (g = f
                   ∧ extracted getPropertyValue (typeOf ptm g) r g = Some v)
        then Some (id r) else indexed evm g v.
Proof.
  unfold index_field, extracted. intros Hrun Hf.
  destruct (properties r !! f) as [prop|] eqn:Hprop.
  - destruct (typeOf ptm f) as [t|] eqn:Ht.
    + simpl in Hrun.
      destruct (getPropertyValue (Some prop) (Some t)) as [value|e] eqn:Hv;
        [|done]. simpl in Hrun.
      destruct (JS.truthy value) eqn:Htruthy; injection Hrun as <-.
      * split; [intros g; apply lookup_alter_is_Some|].
        intros g v. rewrite indexed_set by done.
        destruct (decide (g = f)) as [->|Hne].
        -- rewrite Hprop, Ht, Hv, Htruthy.
           destruct (decide (v = value)) as [->|Hvne].
           ++ by rewrite !decide_True.
           ++ rewrite !decide_False; [done|intros [_ [= ->]]; done
                                     |intros [_ ?]; done].
        -- rewrite !decide_False; [done|intros [? _]; done|intros [? _]; done].
      * split; [done|]. intros g v. rewrite decide_False; [done|].
        intros [-> Hx]. by rewrite Hprop, Ht, Hv, Htruthy in Hx.
    + injection Hrun as <-. split; [done|]. intros g v.
      rewrite decide_False; [done|].
      intros [-> Hx]. by rewrite Hprop, Ht in Hx.
  - injection Hrun as <-. split; [done|]. intros g v.
    rewrite decide_False; [done|].
    intros [-> Hx]. by rewrite Hprop in Hx.
Qed.

(** One page and all the key fields. *)
Lemma index_record_spec r ptm fs evm evm' :
  index_record getPropertyValue r fs ptm evm = Ok evm' →
  (∀ f, f ∈ fs → is_Some (evm !! f)) →
  (∀ g, is_Some (evm' !! g) ↔ is_Some (evm !! g))
  ∧ ∀ g v,
      indexed evm' g v
      = if decide (g ∈ fs
                   ∧ extracted getPropertyValue (typeOf ptm g) r g = Some v)
        then Some (id r) else indexed evm g v.
Proof.
  revert evm. induction fs as [|f fs IH]; intros evm; cbn [index_record].
  - intros [= <-] _. split; [done|]. intros g v.
    rewrite decide_False; [done|]. intros [Hg _]. by apply elem_of_nil in Hg.
  - destruct (index_field getPropertyValue r ptm evm f) as [evm1|e] eqn:Hf;
      [|done].
    cbn [mbind Result_bind]. intros Hrest Hdom.
    destruct (index_field_spec _ _ _ _ _ Hf) as [Hdom1 Hidx1];
      [apply Hdom; by left|].
    destruct (IH evm1 Hrest) as [Hdom' Hidx'].
    { intros f' Hf'. apply Hdom1, Hdom. by right. }
    split; [intros g; by rewrite Hdom', Hdom1|].
    intros g v. rewrite Hidx', Hidx1.
    destruct (decide (g ∈ fs
                ∧ extracted getPropertyValue (typeOf ptm g) r g = Some v))
      as [[Hin Hx]|Hno].
    + rewrite decide_True; [done|]. split; [by right|done].
    + destruct (decide (g = f
                  ∧ extracted getPropertyValue (typeOf ptm g) r g = Some v))
        as [[-> Hx]|Hno'].
      * rewrite decide_True; [done|]. split; [by left|done].
      * rewrite decide_False; [done|]. intros [Hin Hx].
        apply elem_of_cons in Hin as [->|Hin]; [by apply Hno'|by apply Hno].
Qed.

(** All the pages: the last page with a given value for a key field is
    the one the index keeps. *)
Lemma index_records_spec rs ptm fs evm evm' :
  index_records getPropertyValue rs fs ptm evm = Ok evm' →
  (∀ f, f ∈ fs → is_Some (evm !! f)) →
  ∀ g v,
    indexed evm' g v
    = match last (filter (λ r, g ∈ fs
                               ∧ extracted getPropertyValue (typeOf ptm g) r g
                                 = Some v) rs) with
      | Some r => Some (id r)
      | None => indexed evm g v
      end.
Proof.
  revert evm. induction rs as [|r rs IH]; intros evm; cbn [index_records].
  - by intros [= <-] _ g v.
  - destruct (index_record getPropertyValue r fs ptm evm) as [evm1|e] eqn:Hr;
      [|done].
    cbn [mbind Result_bind]. intros Hrest Hdom g v.
    destruct (index_record_spec _ _ _ _ _ Hr Hdom) as [Hdom1 Hidx1].
    rewrite (IH evm1 Hrest) by (intros f Hf; by apply Hdom1, Hdom).
    rewrite filter_cons, Hidx1.
    destruct (decide (g ∈ fs
                ∧ extracted getPropertyValue (typeOf ptm g) r g = Some v)).
    + rewrite last_cons. by destruct (last _).
    + done.
Qed.

Lemma filter_none {A} (P : A → Prop) `{!∀ x, Decision (P x)} (l : list A) :
  (∀ x, x ∈ l → ¬ P x) → filter P l = [].
Proof.
  intros HP. induction l as [|x l IH]; [done|].
  rewrite filter_cons_False by (apply HP; by left).
  apply IH. intros y Hy. apply HP. by right.
Qed.

Lemma buildIndex_spec allRecords fields schema idx g v :
  buildIndex getPropertyValue allRecords fields schema = Ok idx →
  indexed idx g v
  = if decide (g ∈ fields)
    then id <$> last (matching getPropertyValue schema allRecords g v)
    else None.
Proof.
  unfold buildIndex, matching. intros Hrun.
  rewrite (index_records_spec _ _ _ _ _ Hrun).
  - rewrite indexed_emptyMaps.
    destruct (decide (g ∈ fields)) as [Hin|Hnin].
    + rewrite typeOf_buildTypeMap by done.
      erewrite (list_filter_iff _
        (λ r, extracted getPropertyValue (typeOrNull schema g) r g = Some v));
        [by destruct (last _)|]. intros r. tauto.
    + rewrite filter_none; [done|]. intros r _ [Hin _]. done.
  - intros f Hf. unfold emptyMaps. rewrite emptyMaps_lookup.
    by rewrite decide_True.
Qed.

(** C1, as amended: for a key field and a value, the identity the index
    stores is that of the last page in scan order whose extracted value is
    that value; the index stores nothing when no page has it. *)
Theorem index_keeps_last allRecords fields schema idx field v :
  buildIndex getPropertyValue allRecords fields schema = Ok idx →
  field ∈ fields →
  indexed idx field v
  = id <$> last (matching getPropertyValue schema allRecords field v).
Proof.
  intros Hrun Hin. rewrite (buildIndex_spec _ _ _ _ _ _ Hrun).
  by rewrite decide_True.
Qed.

End Index.

(** C1 fails as stated: two pages carry the same text for the key field,
    and the index maps that text to the second page, not to the first. *)
Lemma index_keeps_first_fails :
  ¬ index_keeps_first Ex.mongo_value [Ex.page1; Ex.page2] ["email"] Ex.schema.
Proof.
  intros Hfirst.
  assert (buildIndex Ex.mongo_value [Ex.page1; Ex.page2] ["email"] Ex.schema
          = Ok Ex.index_page2) as Hrun by by_evaluation.
  assert ("email" ∈ ["email"]) as Hin by by left.
  specialize (Hfirst Ex.index_page2 "email" "a@x.com" Hrun Hin).
  assert (indexed Ex.index_page2 "email" "a@x.com" = Some "p2") as Hlast
    by by_evaluation.
  assert (id <$> head (matching Ex.mongo_value Ex.schema [Ex.page1; Ex.page2]
                         "email" "a@x.com") = Some "p1") as Hhead
    by by_evaluation.
  rewrite Hlast, Hhead in Hfirst. discriminate.
Qed.

(** An instance: the index built from the same two pages. *)
Lemma index_keeps_last_witness :
  buildIndex Ex.mongo_value [Ex.page1; Ex.page2] ["email"] Ex.schema
  = Ok Ex.index_page2
  ∧ indexed Ex.index_page2 "email" "a@x.com" = Some (id Ex.page2).
Proof.
  assert (buildIndex Ex.mongo_value [Ex.page1; Ex.page2] ["email"] Ex.schema
          = Ok Ex.index_page2) as Hrun by by_evaluation.
  split; [exact Hrun|].
  rewrite (index_keeps_last (H:=IntegerNumber) Ex.mongo_value
             [Ex.page1; Ex.page2] ["email"] Ex.schema Ex.index_page2
             "email" "a@x.com" Hrun).
  - by_evaluation.
  - by left.
Defined.

(** ** Extraction of the value of a key field *)

Section Extraction.
Context `{JsNumber}.

Lemma append_empty_r (s : string) : String.append s "" = s.
Proof.
  induction s as [|a s IH]; [done|].
  change (String a (String.append s "") = String a s). by rewrite IH.
Qed.

Lemma join_empty (l : list string) :
  JS.join "" l = foldr String.append "" l.
Proof.
  unfold JS.join. induction l as [|x [|y l] IH]; [done| |].
  - simpl. by rewrite append_empty_r.
  - change (String.concat "" (x :: y :: l))
      with (String.append x (String.append "" (String.concat "" (y :: l)))).
    by rewrite IH.
Qed.

Lemma Mongo_unsupported (p : property) t :
  t ∉ Mongo.supported → Mongo.getPropertyValue (Some p) (Some t) = "".
Proof.
  intros Ht. unfold Mongo.getPropertyValue.
  destruct (JS.truthy t); simpl; [|done].
  repeat match goal with
         | |- context [String.eqb t ?s] =>
             destruct (String.eqb_spec t s) as [->|_];
             [exfalso; apply Ht, list_elem_of_In; simpl; tauto|]
         end.
  done.
Qed.

Lemma Excel_unsupported (p : property) t :
  t ∉ Excel.supported → Excel.getPropertyValue (Some p) (Some t) = Ok "".
Proof.
  intros Ht. unfold Excel.getPropertyValue.
  destruct (JS.truthy t); simpl; [|done].
  repeat match goal with
         | |- context [String.eqb t ?s] =>
             destruct (String.eqb_spec t s) as [->|_];
             [exfalso; apply Ht, list_elem_of_In; simpl; tauto|]
         end.
  done.
Qed.

(** A key field whose extraction is always empty hits no row. *)
Lemma empty_extraction_never_hits
    (getPropertyValue : option property → option string → Result string)
    allRecords fields schema idx field t (doc : entry) :
  schema !! field = Some t →
  (∀ p, getPropertyValue (Some p) (Some t) = Ok "") →
  buildIndex getPropertyValue allRecords fields schema = Ok idx →
  key_hit idx doc field = None.
Proof.
  intros Hschema Hempty Hrun. unfold key_hit.
  destruct (notNullish (entry_get doc field)); [|done].
  rewrite (buildIndex_spec _ _ _ _ _ _ _ Hrun).
  case_decide; [|done]. unfold matching.
  rewrite filter_none; [done|].
  intros r _. unfold extracted, typeOrNull. rewrite Hschema.
  destruct (properties r !! field); [|done].
  destruct (JS.truthy t); [|done].
  by rewrite Hempty.
Qed.

(** C4: the text extracted from a page property depends on the type the
    schema gives to the key field.  In both scripts [title] and
    [rich_text] give the plain texts of the segments put end to end; the
    other types a script has a case for give the scalar as text; any other
    type gives the empty string, and a key field of such a type hits no
    row. *)
Theorem getPropertyValue_type_aware (p : property) :
  (Mongo.getPropertyValue (Some p) (Some "title")
   = foldr String.append "" (plain_text <$> default [] (title p))
   ∧ Mongo.getPropertyValue (Some p) (Some "rich_text")
     = foldr String.append "" (plain_text <$> default [] (rich_text p))
   ∧ Mongo.getPropertyValue (Some p) (Some "url") = default "" (url p)
   ∧ Mongo.getPropertyValue (Some p) (Some "phone_number")
     = default "" (phone_number p)
   ∧ ∀ t, t ∉ Mongo.supported →
       Mongo.getPropertyValue (Some p) (Some t) = ""
       ∧ ∀ allRecords fields schema idx field (doc : entry),
           schema !! field = Some t →
           buildIndex (λ p t, Ok (Mongo.getPropertyValue p t))
             allRecords fields schema = Ok idx →
           key_hit idx doc field = None)
  ∧ (Excel.getPropertyValue (Some p) (Some "title")
     = Ok (foldr String.append "" (plain_text <$> default [] (title p)))
     ∧ Excel.getPropertyValue (Some p) (Some "rich_text")
       = Ok (foldr String.append "" (plain_text <$> default [] (rich_text p)))
     ∧ Excel.getPropertyValue (Some p) (Some "url") = Ok (default "" (url p))
     ∧ Excel.getPropertyValue (Some p) (Some "phone_number")
       = Ok (default "" (phone_number p))
     ∧ Excel.getPropertyValue (Some p) (Some "email")
       = Ok (default "" (email p))
     ∧ Excel.getPropertyValue (Some p) (Some "number")
       = Ok (default "" (String_number <$> number_ p))
     ∧ Excel.getPropertyValue (Some p) (Some "select")
       = Ok (default "" (select p))
     ∧ Excel.getPropertyValue (Some p) (Some "status")
       = Ok (default "" (status p))
     ∧ (∀ names, multi_select p = Some names →
          Excel.getPropertyValue (Some p) (Some "multi_select")
          = Ok (String.concat "," names))
     ∧ Excel.getPropertyValue (Some p) (Some "checkbox")
       = Ok (if checkbox p then "true" else "false")
     ∧ ∀ t, t ∉ Excel.supported →
         Excel.getPropertyValue (Some p) (Some t) = Ok ""
         ∧ ∀ allRecords fields schema idx field (doc : entry),
             schema !! field = Some t →
             buildIndex Excel.getPropertyValue allRecords fields schema
             = Ok idx →
             key_hit idx doc field = None).
Proof.
  split.
  - split; [apply join_empty|]. split; [apply join_empty|].
    split; [done|]. split; [done|].
    intros t Ht. split; [by apply Mongo_unsupported|].
    intros allRecords fields schema idx field doc Hschema Hrun.
    eapply empty_extraction_never_hits; [done| |done].
    intros q. cbv beta. by rewrite Mongo_unsupported.
  - split; [unfold Excel.getPropertyValue; simpl; by rewrite join_empty|].
    split; [unfold Excel.getPropertyValue; simpl; by rewrite join_empty|].
    split; [done|]. split; [done|]. split; [done|].
    split; [unfold Excel.getPropertyValue; simpl; by destruct (number_ p)|].
    split; [done|]. split; [done|].
    split; [intros names Hn; unfold Excel.getPropertyValue; simpl;
            by rewrite Hn|].
    split; [done|].
    intros t Ht. split; [by apply Excel_unsupported|].
    intros allRecords fields schema idx field doc Hschema Hrun.
    eapply empty_extraction_never_hits; [done| |done].
    intros q. by apply Excel_unsupported.
Qed.

End Extraction.

(** An instance: in [subir_mongo_notion.cjs] a key field of type [email]
    hits no row. *)
Lemma getPropertyValue_type_aware_witness :
  ∃ idx,
    buildIndex Ex.mongo_value [Ex.page1] ["email"] Ex.schema_email = Ok idx
    ∧ key_hit idx Ex.alice "email" = None.
Proof.
  destruct (getPropertyValue_type_aware (H:=IntegerNumber)
              (Ex.email_text "a@x.com")) as [(_ & _ & _ & _ & Hother) _].
  destruct (Hother "email") as [_ Hnever].
  - intros Hin. apply list_elem_of_In in Hin. simpl in Hin.
    repeat destruct Hin as [Hin|Hin]; try discriminate. done.
  - assert (buildIndex Ex.mongo_value [Ex.page1] ["email"] Ex.schema_email
            = Ok (<["email" := ∅]> ∅)) as Hrun by by_evaluation.
    eexists. split; [exact Hrun|].
    apply (Hnever [Ex.page1] ["email"] Ex.schema_email _ "email" Ex.alice).
    + by_evaluation.
    + exact Hrun.
Defined.

(** ** Payload of a row *)

Section Payload.
Context `{JsNumber}.
Implicit Types (sp : gmap string mapped) (e : entry).




End Payload.


(** ** The title of a mapping *)

Section Title.

Lemma mapProperties_loop_keep defaultType headers opt
    (init : gmap string mapped) stdin :
  opt ≠ "2" →
  mapProperties_loop defaultType headers opt init stdin
  = Some (foldl (λ m h, <[h := {| name := h; type := defaultType h |}]> m)
            init headers, stdin).
Proof.
  intros Hopt. revert init.
  induction headers as [|h headers IH]; intros init; [done|].
  cbn [mapProperties_loop foldl].
  destruct (String.eqb_spec opt "2") as [->|_]; [done|].
  simpl. apply IH.
Qed.

Lemma kept_lookup (defaultType : string → string) headers
    (init : gmap string mapped) h :
  foldl (λ m h, <[h := {| name := h; type := defaultType h |}]> m)
    init headers !! h
  = if decide (h ∈ headers)
    then Some {| name := h; type := defaultType h |} else init !! h.
Proof.
  revert init. induction headers as [|g headers IH]; intros init; cbn [foldl].
  - by rewrite decide_False by apply not_elem_of_nil.
  - rewrite IH. destruct (decide (h ∈ headers)) as [Hin|Hnin].
    + rewrite decide_True by by right. done.
    + destruct (decide (h = g)) as [->|Hne].
      * rewrite decide_True by by left. by rewrite lookup_insert_eq.
      * rewrite decide_False by (rewrite not_elem_of_cons; done).
        by rewrite lookup_insert_ne.
Qed.






End Title.



(** ** Schema synchronisation *)

Section Schema.
Context `{JsNumber}.
Variable exportToNotion :
  list entry → string → gmap string mapped → list string → string →
  list string → M ().

Lemma Object_keys_nonempty {A} (o : gmap string A) :
  o ≠ ∅ → (0 < length (Object_keys o))%nat.
Proof.
  intros Ho. unfold Object_keys. rewrite length_fmap.
  destruct (map_to_list o) eqn:Hl; [|simpl; lia].
  by apply map_to_list_empty_iff in Hl.
Qed.

(** C2, as amended: when the service rejects the schema request,
    [ensurePropertiesExist] prints the error and returns the empty list of
    new properties; nothing is thrown, and the run goes on to
    [exportToNotion] with no new property. *)
Theorem schema_rejection_is_swallowed (data : list entry) db headers sp
    fields duplicateOption σ current answers adds updates error rest :
  retrieve_answers σ = Ok current :: answers →
  ensure_loop headers sp current ∅ ∅ = Ok (adds, updates) →
  adds ≠ ∅ ∨ updates ≠ ∅ →
  schema_answers σ = Throw error :: rest →
  ∃ σ',
    ensurePropertiesExist db headers sp σ = (Ok [], σ')
    ∧ trace σ'
      = trace σ ++ [DatabasesRetrieve db; DatabasesUpdate db (updates ∪ adds);
                    Console (ErrorEnsure error)]
    ∧ create_answers σ' = create_answers σ
    ∧ update_answers σ' = update_answers σ
    ∧ synchronise_and_export exportToNotion data db headers sp fields
        duplicateOption σ
      = exportToNotion data db sp fields duplicateOption [] σ'.
Proof.
  intros Hretrieve Hloop Hsome Hreject.
  assert (bool_decide (0 < length (Object_keys adds))%nat
          || bool_decide (0 < length (Object_keys updates))%nat = true)
    as Hnonempty.
  { apply orb_true_iff.
    destruct Hsome as [Ha|Hu]; [left|right];
      apply bool_decide_eq_true; by apply Object_keys_nonempty. }
  assert (∃ σ', ensurePropertiesExist db headers sp σ = (Ok [], σ')
                ∧ trace σ'
                  = trace σ ++ [DatabasesRetrieve db;
                                DatabasesUpdate db (updates ∪ adds);
                                Console (ErrorEnsure error)]
                ∧ create_answers σ' = create_answers σ
                ∧ update_answers σ' = update_answers σ)
    as (σ' & Hrun & Htrace & Hc & Hu).
  { unfold ensurePropertiesExist, try_catch.
    unfold mbind at 1, M_bind at 1, databases_retrieve at 1.
    cbn [retrieve_answers emit]. rewrite Hretrieve.
    unfold mbind at 1, M_bind at 1, lift at 1. rewrite Hloop.
    unfold mbind at 1, M_bind at 1. rewrite Hnonempty.
    unfold databases_update at 1. cbn [schema_answers emit]. rewrite Hreject.
    unfold mbind, M_bind, log, mret, M_ret, emit.
    cbn [trace retrieve_answers schema_answers query_answers create_answers
         update_answers].
    eexists. split; [done|]. cbn [trace create_answers update_answers].
    by rewrite <- !app_assoc. }
  exists σ'. split; [done|]. split; [done|]. split; [done|]. split; [done|].
  unfold synchronise_and_export. unfold mbind at 1, M_bind at 1.
  by rewrite Hrun.
Qed.

End Schema.

(** C2 fails as stated: the service rejects the schema request, and the
    run still creates the page; the handler of [main] reports nothing. *)
Lemma schema_rejection_aborts_fails :
  ¬ schema_rejection_aborts Mongo.main [Ex.alice] "db" Ex.headers "name"
      ["3"; "1"] Ex.strict.
Proof.
  unfold schema_rejection_aborts. intros Habort.
  assert ((λ σ', (trace σ' !! 2%nat, length (creates_of (trace σ'))))
            <$> Mongo.main [Ex.alice] "db" Ex.headers "name" ["3"; "1"]
                  Ex.strict
          = Some (Some (DatabasesUpdate "db"
                          (<["email" := "rich_text"]>
                             (<["name" := "title"]> ∅))), 1%nat)) as Hrun
    by by_evaluation.
  destruct (Mongo.main _ _ _ _ _ _) as [σ'|]; [|done].
  injection Hrun as Hupdate Hcreated.
  destruct (Habort "validation_error" [] σ' eq_refl eq_refl)
    as (_ & Hnone & _).
  - eexists. by eapply list_elem_of_lookup_2.
  - rewrite Hnone in Hcreated. discriminate.
Qed.

(** An instance: the rejected request adds the two mapped properties. *)
Lemma schema_rejection_is_swallowed_witness :
  ∃ σ', ensurePropertiesExist "db" Ex.headers Ex.selected Ex.strict
        = (Ok [], σ')
        ∧ reports_of (trace σ') = [ErrorEnsure "validation_error"]
        ∧ synchronise_and_export Mongo.exportToNotion [Ex.alice] "db"
            Ex.headers Ex.selected [] "3" Ex.strict
          = Mongo.exportToNotion [Ex.alice] "db" Ex.selected [] "3" [] σ'.
Proof.
  destruct (schema_rejection_is_swallowed (H:=IntegerNumber)
              Mongo.exportToNotion [Ex.alice] "db" Ex.headers Ex.selected []
              "3" Ex.strict Ex.existing [Ok Ex.existing]
              (<["email" := "rich_text"]> (<["name" := "title"]> ∅)) ∅
              "validation_error" [])
    as (σ' & Hrun & Htrace & _ & _ & Hsync).
  - reflexivity.
  - by_evaluation.
  - left. intros Hempty. apply (f_equal (λ m, m !! "name")) in Hempty.
    vm_compute in Hempty. discriminate.
  - reflexivity.
  - exists σ'. split; [exact Hrun|]. split; [|exact Hsync].
    rewrite Htrace. reflexivity.
Defined.

(** ** Key fields that are no headers *)

Section Fallback.
Context `{JsNumber}.


Lemma option_valid (s : string) :
  s = "1" ∨ s = "2" ∨ s = "3" → s ∈ ["1"; "2"; "3"].
Proof.
  intros [->|[->| ->]]; [by left|right; by left|right; right; by left].
Qed.



End Fallback.


(** * Further properties *)

(** ** Selection prompts *)

Section Selection.
Context {A : Type}.
Implicit Types (items : list A) (stdin : list string).

Lemma promptIndex_cons items answer stdin :
  promptIndex items (answer :: stdin)
  = match JS.parseInt answer with
    | Some n =>
        if bool_decide (1 ≤ n ≤ Z.of_nat (length items))
        then match items !! Z.to_nat (n - 1) with
             | Some item => Some (item, stdin)
             | None => promptIndex items stdin
             end
        else promptIndex items stdin
    | None => promptIndex items stdin
    end.
Proof.
  cbn [promptIndex]. destruct (JS.parseInt answer) as [n|]; [|done].
  case_bool_decide as Hn.
  - replace (0 <=? n - 1) with true by (symmetry; apply Z.leb_le; lia).
    replace (n - 1 <? Z.of_nat (length items)) with true
      by (symmetry; apply Z.ltb_lt; lia).
    done.
  - destruct (0 <=? n - 1) eqn:Hlo; [|done].
    destruct (n - 1 <? Z.of_nat (length items)) eqn:Hhi; [|done].
    apply Z.leb_le in Hlo. apply Z.ltb_lt in Hhi. lia.
Qed.

Lemma promptIndex_Some items stdin item rest :
  promptIndex items stdin = Some (item, rest)
  ↔ ∃ skipped answer n,
      stdin = skipped ++ answer :: rest
      ∧ Forall (invalid_choice (length items)) skipped
      ∧ JS.parseInt answer = Some n
      ∧ 1 ≤ n ≤ Z.of_nat (length items)
      ∧ items !! Z.to_nat (n - 1) = Some item.
Proof.
  split.
  - induction stdin as [|answer stdin IH]; [done|].
    rewrite promptIndex_cons.
    assert (promptIndex items stdin = Some (item, rest) →
            invalid_choice (length items) answer →
            ∃ skipped answer0 n,
              answer :: stdin = skipped ++ answer0 :: rest
              ∧ Forall (invalid_choice (length items)) skipped
              ∧ JS.parseInt answer0 = Some n
              ∧ 1 ≤ n ≤ Z.of_nat (length items)
              ∧ items !! Z.to_nat (n - 1) = Some item) as Hskip.
    { intros Hrest Hbad.
      destruct (IH Hrest) as (skipped & a & n & -> & Hall & Hrest').
      exists (answer :: skipped), a, n. split; [done|].
      split; [by constructor|done]. }
    destruct (JS.parseInt answer) as [n|] eqn:Hparse.
    + case_bool_decide as Hn.
      * destruct (items !! Z.to_nat (n - 1)) as [x|] eqn:Hx.
        -- intros [= -> ->]. by exists [], answer, n.
        -- apply lookup_ge_None in Hx. lia.
      * intros Hrest. apply Hskip; [done|].
        intros k Hk. rewrite Hparse in Hk. by injection Hk as <-.
    + intros Hrest. apply Hskip; [done|]. intros k Hk.
      by rewrite Hparse in Hk.
  - intros (skipped & answer & n & -> & Hall & Hparse & Hn & Hitem).
    induction Hall as [|a skipped Ha _ IH]; simpl app;
      rewrite promptIndex_cons.
    + by rewrite Hparse, bool_decide_true, Hitem.
    + destruct (JS.parseInt a) as [k|] eqn:Hk; [|done].
      rewrite bool_decide_false by by apply Ha. done.
Qed.

(** A selection among no items never returns. *)
Lemma promptIndex_nil stdin : promptIndex (@nil A) stdin = None.
Proof.
  induction stdin as [|answer stdin IH]; [done|].
  rewrite promptIndex_cons. destruct (JS.parseInt answer) as [n|]; [|done].
  case_bool_decide as Hn; [simpl in Hn; lia|done].
Qed.

Lemma promptIndex_elem items stdin item rest :
  promptIndex items stdin = Some (item, rest) → item ∈ items.
Proof.
  intros Hrun. apply promptIndex_Some in Hrun
    as (_ & _ & n & _ & _ & _ & _ & Hitem).
  by eapply list_elem_of_lookup_2.
Qed.

(** X1: a selection prompt skips every answer that is no index of the
    list and returns the item the first valid answer points at, counted
    from one; the answers after it are left unread.  With no item to
    choose from it never returns. *)
Theorem promptIndex_first_valid items stdin :
  (∀ item rest,
     promptIndex items stdin = Some (item, rest)
     ↔ ∃ skipped answer n,
         stdin = skipped ++ answer :: rest
         ∧ Forall (invalid_choice (length items)) skipped
         ∧ JS.parseInt answer = Some n
         ∧ 1 ≤ n ≤ Z.of_nat (length items)
         ∧ items !! Z.to_nat (n - 1) = Some item)
  ∧ (items = [] → promptIndex items stdin = None).
Proof.
  split; [intros item rest; apply promptIndex_Some|].
  intros ->. apply promptIndex_nil.
Qed.

End Selection.

(** ** Headers and the renaming of [_id] *)

Section DocumentFacts.
Context `{JsNumber}.
Implicit Types (doc : entry) (data : list entry) (headers : list string).

Lemma Set_add_elem (set : list string) key x :
  x ∈ Set_add set key ↔ x ∈ set ∨ x = key.
Proof.
  unfold Set_add. case_bool_decide as Hin.
  - split; [by left|]. by intros [?| ->].
  - rewrite elem_of_app, list_elem_of_singleton. done.
Qed.

Lemma Set_add_NoDup (set : list string) key :
  NoDup set → NoDup (Set_add set key).
Proof.
  intros Hset. unfold Set_add. case_bool_decide as Hin; [done|].
  apply NoDup_app. split; [done|]. split; [|apply NoDup_singleton].
  intros x Hx Hk. apply list_elem_of_singleton in Hk as ->. done.
Qed.

Lemma add_keys_spec (set ks : list string) :
  (NoDup set → NoDup (foldl Set_add set ks))
  ∧ ∀ x, x ∈ foldl Set_add set ks ↔ x ∈ set ∨ x ∈ ks.
Proof.
  revert set. induction ks as [|k ks IH]; intros set; cbn [foldl].
  - split; [done|]. intros x. split; [by left|].
    intros [?|Hx]; [done|]. by apply elem_of_nil in Hx.
  - destruct (IH (Set_add set k)) as [Hnd Hin]. split.
    + intros Hset. by apply Hnd, Set_add_NoDup.
    + intros x. rewrite Hin, Set_add_elem, elem_of_cons. tauto.
Qed.

Lemma headers_spec (set : list string) data :
  (NoDup set →
   NoDup (foldl (λ headersSet doc, foldl Set_add headersSet doc.*1) set data))
  ∧ ∀ x, x ∈ foldl (λ headersSet doc, foldl Set_add headersSet doc.*1) set data
         ↔ x ∈ set ∨ ∃ doc, doc ∈ data ∧ x ∈ keys doc.
Proof.
  revert set. induction data as [|doc data IH]; intros set; cbn [foldl].
  - split; [done|]. intros x. split; [by left|].
    intros [?|(doc & Hd & _)]; [done|]. by apply elem_of_nil in Hd.
  - destruct (IH (foldl Set_add set doc.*1)) as [Hnd Hin].
    destruct (add_keys_spec set doc.*1) as [Hnd1 Hin1]. split.
    + intros Hset. by apply Hnd, Hnd1.
    + intros x. rewrite Hin, Hin1. split.
      * intros [[?|Hx]|(d & Hd & Hx)]; [by left| |].
        -- right. exists doc. split; [by left|done].
        -- right. exists d. split; [by right|done].
      * intros [?|(d & Hd & Hx)]; [by left; left|].
        apply elem_of_cons in Hd as [->|Hd]; [left; by right|].
        right. by exists d.
Qed.

Lemma readMongoDBHeaders_spec data :
  NoDup (readMongoDBHeaders data)
  ∧ ∀ key, key ∈ readMongoDBHeaders data
           ↔ ∃ doc, doc ∈ data ∧ key ∈ keys doc.
Proof.
  unfold readMongoDBHeaders.
  destruct (headers_spec [] data) as [Hnd Hin].
  split; [apply Hnd, NoDup_nil_2|].
  intros key. rewrite Hin. split; [|by right].
  intros [Hk|?]; [|done]. by apply elem_of_nil in Hk.
Qed.

(** X2: the headers read off the documents hold no name twice, and a
    name is a header exactly when it is a key of some document; no
    document gives no header. *)
Theorem readMongoDBHeaders_union data :
  NoDup (readMongoDBHeaders data)
  ∧ (∀ key, key ∈ readMongoDBHeaders data
            ↔ ∃ doc, doc ∈ data ∧ key ∈ keys doc)
  ∧ (data = [] → readMongoDBHeaders data = []).
Proof.
  destruct (readMongoDBHeaders_spec data) as [Hnd Hin].
  split; [done|]. split; [done|]. by intros ->.
Qed.

Lemma entry_get_set doc key v k :
  entry_get (entry_set doc key v) k
  = if decide (k = key) then v else entry_get doc k.
Proof.
  induction doc as [|[k' w] doc IH]; simpl.
  - destruct (String.eqb_spec key k) as [->|Hne].
    + by rewrite decide_True.
    + by rewrite decide_False.
  - destruct (String.eqb_spec k' key) as [->|Hne]; simpl.
    + destruct (String.eqb_spec key k) as [->|Hk].
      * by rewrite decide_True.
      * by rewrite decide_False.
    + destruct (String.eqb_spec k' k) as [->|Hk].
      * by rewrite decide_False.
      * done.
Qed.

Lemma entry_get_delete doc key k :
  entry_get (entry_delete doc key) k
  = if decide (k = key) then VUndefined else entry_get doc k.
Proof.
  unfold entry_delete, entry in *. induction doc as [|[k' w] doc IH].
  - by case_decide.
  - rewrite filter_cons. cbn [fst].
    destruct (decide (k' ≠ key)) as [Hne|Heq]; cbn [entry_get].
    + destruct (String.eqb_spec k' k) as [->|Hk]; [|done].
      by rewrite decide_False.
    + apply dec_stable in Heq as ->.
      destruct (String.eqb_spec key k) as [->|Hk]; [|done].
      rewrite IH. by case_decide.
Qed.

Lemma keys_entry_set doc key v k :
  k ∈ keys (entry_set doc key v) ↔ k ∈ keys doc ∨ k = key.
Proof.
  unfold keys. induction doc as [|[k' w] doc IH]; simpl.
  - rewrite list_elem_of_singleton. split; [by right|].
    intros [Hk|?]; [|done]. by apply elem_of_nil in Hk.
  - destruct (String.eqb_spec k' key) as [->|Hne]; simpl.
    + rewrite !elem_of_cons. tauto.
    + rewrite !elem_of_cons, IH. tauto.
Qed.

Lemma keys_entry_delete doc key k :
  k ∈ keys (entry_delete doc key) ↔ k ∈ keys doc ∧ k ≠ key.
Proof.
  unfold keys, entry_delete, entry in *. rewrite !list_elem_of_fmap. split.
  - intros ([k' w] & -> & Hin). apply list_elem_of_filter in Hin as [Hne Hin].
    split; [|done]. by exists (k', w).
  - intros [([k' w] & -> & Hin) Hne]. exists (k', w). split; [done|].
    by apply list_elem_of_filter.
Qed.

Lemma keys_renameId newIdFieldName doc k :
  k ∈ keys (renameId newIdFieldName doc)
  ↔ (k ∈ keys doc ∨ k = newIdFieldName) ∧ k ≠ "_id".
Proof. unfold renameId. by rewrite keys_entry_delete, keys_entry_set. Qed.

(** X3: renaming [_id] to another name moves its value to that name,
    removes [_id], and leaves every other field as it was; renaming it to
    [_id] itself only removes the field. *)
Theorem renameId_moves_value newIdFieldName doc :
  (newIdFieldName ≠ "_id" →
   entry_get (renameId newIdFieldName doc) newIdFieldName
   = entry_get doc "_id")
  ∧ entry_get (renameId newIdFieldName doc) "_id" = VUndefined
  ∧ (∀ k, k ≠ newIdFieldName → k ≠ "_id" →
          entry_get (renameId newIdFieldName doc) k = entry_get doc k)
  ∧ (∀ k, k ∈ keys (renameId newIdFieldName doc)
          ↔ (k ∈ keys doc ∨ k = newIdFieldName) ∧ k ≠ "_id")
  ∧ renameId "_id" doc = entry_delete doc "_id".
Proof.
  unfold renameId. split; [|split; [|split; [|split]]].
  - intros Hne. rewrite entry_get_delete, entry_get_set.
    by rewrite decide_False, decide_True.
  - rewrite entry_get_delete. by rewrite decide_True.
  - intros k Hk Hid. rewrite entry_get_delete, entry_get_set.
    by rewrite !decide_False.
  - intros k. by rewrite keys_entry_delete, keys_entry_set.
  - unfold entry_delete, entry in *.
    induction doc as [|[k w] doc IH]; [done|].
    cbn [entry_get entry_set].
    destruct (String.eqb_spec k "_id") as [->|Hne].
    + done.
    + rewrite !filter_cons_True by done. by rewrite IH.
Qed.

Lemma remove_first_elem x y (l : list string) :
  x ≠ y → x ∈ remove_first y l ↔ x ∈ l.
Proof.
  intros Hne. induction l as [|z l IH]; [done|]. cbn [remove_first].
  destruct (String.eqb_spec z y) as [->|Hz].
  - rewrite elem_of_cons. split; [by right|]. by intros [?|?].
  - rewrite !elem_of_cons, IH. done.
Qed.

Lemma remove_first_length y (l : list string) :
  y ∈ l → S (length (remove_first y l)) = length l.
Proof.
  induction l as [|z l IH]; [by intros ?%elem_of_nil|]. cbn [remove_first].
  destruct (String.eqb_spec z y) as [->|Hz]; [done|].
  intros Hin. apply elem_of_cons in Hin as [->|Hin]; [done|].
  simpl. by rewrite IH.
Qed.

Lemma remove_first_once y z (l : list string) :
  NoDup l → y ≠ z → y ∉ remove_first y (l ++ [z]).
Proof.
  intros Hnd Hne. induction Hnd as [|a l Ha Hl IH]; cbn [app remove_first].
  - destruct (String.eqb_spec z y) as [->|_]; [done|].
    intros Hin. by apply list_elem_of_singleton in Hin.
  - destruct (String.eqb_spec a y) as [->|Hay].
    + rewrite elem_of_app, list_elem_of_singleton. by intros [?|?].
    + rewrite not_elem_of_cons. split; [by intros ->|apply IH].
Qed.

Lemma remove_first_keeps_later y (l : list string) :
  y ∈ l → y ∈ remove_first y (l ++ [y]).
Proof.
  induction l as [|z l IH]; [by intros ?%elem_of_nil|].
  intros Hin. cbn [app remove_first].
  destruct (String.eqb_spec z y) as [->|Hne].
  - apply elem_of_app. right. by left.
  - apply elem_of_cons in Hin as [->|Hin]; [done|]. right. by apply IH.
Qed.

Lemma renameIdStep_spec headers data stdin headers' data' stdin' :
  renameIdStep headers data stdin = Some (headers', data', stdin') →
  (∀ doc k, doc ∈ data → k ∈ keys doc → k ∈ headers) →
  (∀ doc k, doc ∈ data' → k ∈ keys doc → k ∈ headers')
  ∧ length headers' = length headers
  ∧ length data' = length data
  ∧ ("_id" ∉ headers → headers' = headers ∧ data' = data ∧ stdin' = stdin)
  ∧ ("_id" ∈ headers →
     ∃ newIdFieldName,
       stdin = newIdFieldName :: stdin'
       ∧ data' = renameId newIdFieldName <$> data
       ∧ (∀ doc, doc ∈ data' → "_id" ∉ keys doc)
       ∧ (newIdFieldName ≠ "_id" → NoDup headers → "_id" ∉ headers')
       ∧ (newIdFieldName = "_id" → "_id" ∈ headers')).
Proof.
  unfold renameIdStep. intros Hrun Hkeys.
  case_bool_decide as Hid.
  - destruct stdin as [|new stdin0]; [done|]. injection Hrun as <- <- <-.
    assert (∀ doc, doc ∈ renameId new <$> data → "_id" ∉ keys doc) as Hgone.
    { intros doc Hdoc. apply list_elem_of_fmap in Hdoc as (d & -> & Hd).
      intros Hin. by apply keys_renameId in Hin as [_ ?]. }
    split; [|split; [|split; [|split]]].
    + intros doc k Hdoc Hk.
      pose proof (Hgone doc Hdoc) as Hnot.
      apply list_elem_of_fmap in Hdoc as (d & -> & Hd).
      apply keys_renameId in Hk as [Hk Hne].
      apply remove_first_elem; [done|].
      apply elem_of_app. destruct Hk as [Hk| ->]; [left; by eapply Hkeys|].
      right. by left.
    + assert ("_id" ∈ headers ++ [new]) as Hin'
        by (apply elem_of_app; by left).
      apply remove_first_length in Hin'. rewrite length_app in Hin'.
      simpl in Hin'. lia.
    + by rewrite length_fmap.
    + done.
    + intros _. exists new. split; [done|]. split; [done|].
      split; [done|]. split.
      * intros Hne Hnd. apply remove_first_once; [done|]. by intros <-.
      * intros ->. by apply remove_first_keeps_later.
  - injection Hrun as <- <- <-. split; [done|]. by repeat split.
Qed.

(** X4: the renaming step keeps every key of every document among the
    headers and keeps the number of headers and of documents; it does
    nothing when [_id] is no header.  When the new name is not [_id] and
    the headers hold no name twice, [_id] is no header afterwards.  When
    the new name is [_id] itself, [_id] stays a header although no document
    has that field any more. *)
Theorem renameIdStep_keeps_keys headers data stdin headers' data' stdin' :
  renameIdStep headers data stdin = Some (headers', data', stdin') →
  (∀ doc k, doc ∈ data → k ∈ keys doc → k ∈ headers) →
  (∀ doc k, doc ∈ data' → k ∈ keys doc → k ∈ headers')
  ∧ length headers' = length headers
  ∧ length data' = length data
  ∧ ("_id" ∉ headers → headers' = headers ∧ data' = data ∧ stdin' = stdin)
  ∧ ("_id" ∈ headers →
     ∃ newIdFieldName,
       stdin = newIdFieldName :: stdin'
       ∧ data' = renameId newIdFieldName <$> data
       ∧ (∀ doc, doc ∈ data' → "_id" ∉ keys doc)
       ∧ (newIdFieldName ≠ "_id" → NoDup headers → "_id" ∉ headers')
       ∧ (newIdFieldName = "_id" → "_id" ∈ headers')).
Proof. apply renameIdStep_spec. Qed.

End DocumentFacts.

(** ** The mapping covers the headers *)

Section Mapping.
Context `{JsNumber}.

Lemma mapProperties_loop_dom defaultType headers opt
    (init : gmap string mapped) stdin m rest :
  mapProperties_loop defaultType headers opt init stdin = Some (m, rest) →
  ∀ h, is_Some (m !! h) ↔ h ∈ headers ∨ is_Some (init !! h).
Proof.
  revert init stdin. induction headers as [|g headers IH]; intros init stdin.
  - intros [= <- <-] h. split; [by right|].
    intros [Hh|?]; [|done]. by apply elem_of_nil in Hh.
  - cbn [mapProperties_loop].
    destruct (if String.eqb opt "2"
              then customize g (defaultType g) stdin
              else Some ({| name := g; type := defaultType g |}, stdin))
      as [[x stdin1]|]; [|done].
    cbn [mbind option_bind]. intros Hrest h.
    rewrite (IH _ _ Hrest h), elem_of_cons, lookup_insert_is_Some.
    destruct (decide (g = h)) as [->|Hne]; [tauto|]. split.
    + intros [?|[?|[_ ?]]]; [left; by right|done|by right].
    + intros [[->|?]|?]; [done|by left|]. right. right. done.
Qed.

(** X5: whatever the mapping option and the answers, a mapping that
    [mapProperties] returns has an entry for a name exactly when the name
    is a header, in both scripts; hence every row whose keys are headers
    can be turned into a payload. *)
Theorem mapProperties_covers_headers headers schema opt titleField stdin :
  (∀ m rest,
     Mongo.mapProperties headers schema opt titleField stdin = Some (m, rest) →
     (∀ h, is_Some (m !! h) ↔ h ∈ headers)
     ∧ ∀ e : entry, (∀ k, k ∈ keys e → k ∈ headers) → mappable m e)
  ∧ (∀ m rest,
       Excel.mapProperties headers schema opt titleField stdin
       = Some (m, rest) →
       (∀ h, is_Some (m !! h) ↔ h ∈ headers)
       ∧ ∀ e : entry, (∀ k, k ∈ keys e → k ∈ headers) → mappable m e).
Proof.
  assert (∀ defaultType m rest,
            mapProperties_loop defaultType headers opt ∅ stdin = Some (m, rest) →
            (∀ h, is_Some (m !! h) ↔ h ∈ headers)
            ∧ ∀ e : entry, (∀ k, k ∈ keys e → k ∈ headers) → mappable m e)
    as Hboth.
  { intros defaultType m rest Hrun.
    assert (∀ h, is_Some (m !! h) ↔ h ∈ headers) as Hdom.
    { intros h. rewrite (mapProperties_loop_dom _ _ _ _ _ _ _ Hrun h).
      rewrite lookup_empty. split; [|by left].
      intros [?|[? ?]]; done. }
    split; [done|]. intros e He. apply Forall_forall. intros [k v] Hin.
    apply Hdom, He. unfold keys. apply list_elem_of_fmap.
    by exists (k, v). }
  split; intros m rest Hrun; by eapply Hboth.
Qed.

Lemma customize_enter propertyName propertyType stdin :
  customize propertyName propertyType ("" :: "" :: stdin)
  = Some ({| name := propertyName; type := propertyType |}, stdin).
Proof. done. Qed.

Lemma mapProperties_loop_enter defaultType headers
    (init : gmap string mapped) rest :
  mapProperties_loop defaultType headers "2" init
    (replicate (2 * length headers) "" ++ rest)
  = mapProperties_loop defaultType headers "1" init rest.
Proof.
  revert init. induction headers as [|h headers IH]; intros init; [done|].
  replace (2 * length (h :: headers))%nat
    with (S (S (2 * length headers))) by (simpl; lia).
  cbn [replicate app mapProperties_loop].
  change (String.eqb "2" "2") with true. change (String.eqb "1" "2") with false.
  cbv iota. rewrite customize_enter. cbn [mbind option_bind].
  rewrite IH. clear IH.
  generalize (<[h:={| name := h; type := defaultType h |}]> init).
  intros init'. revert init'.
  induction headers as [|g headers IH]; intros init'; [done|].
  cbn [mapProperties_loop]. change (String.eqb "1" "2") with false.
  cbv iota. cbn [mbind option_bind]. done.
Qed.

(** X6: answering every customization prompt with an empty line gives the
    mapping of the run without customization, and uses up two answers per
    header. *)
Theorem customization_with_empty_answers headers schema titleField rest :
  Mongo.mapProperties headers schema "2" titleField
    (replicate (2 * length headers) "" ++ rest)
  = Mongo.mapProperties headers schema "1" titleField rest
  ∧ Excel.mapProperties headers schema "2" titleField
      (replicate (2 * length headers) "" ++ rest)
    = Excel.mapProperties headers schema "1" titleField rest
  ∧ ∃ m, Mongo.mapProperties headers schema "1" titleField rest
         = Some (m, rest)
         ∧ ∀ h, h ∈ headers →
                m !! h = Some {| name := h;
                                 type := Mongo.defaultType schema titleField h |}.
Proof.
  split; [apply mapProperties_loop_enter|].
  split; [apply mapProperties_loop_enter|].
  eexists. split.
  - unfold Mongo.mapProperties. by apply mapProperties_loop_keep.
  - intros h Hin. by rewrite kept_lookup, decide_True.
Qed.

End Mapping.

(** ** From the documents to the rows of a run *)

Section Prepared.
Context `{JsNumber}.

(** X7: when steps 6 to 9 of [main] reach the choice of the duplicate
    option, the title field is one of the headers, no document was lost,
    every key of every document is a header, and every document can be
    turned into a payload under any mapping [mapProperties] returns for
    those headers.  An empty collection ends the run at once, and so do
    documents without keys. *)
Theorem prepare_ready data stdin :
  (∀ headers data' titleField stdin',
     prepare data stdin = Some (Ready headers data' titleField stdin') →
     titleField ∈ headers
     ∧ length data' = length data
     ∧ (∀ doc k, doc ∈ data' → k ∈ keys doc → k ∈ headers)
     ∧ ∀ schema opt answers sp rest,
         Mongo.mapProperties headers schema opt titleField answers
         = Some (sp, rest) →
         Forall (mappable sp) data' ∧ is_Some (sp !! titleField))
  ∧ (data = [] → prepare data stdin = Some NoData)
  ∧ (data ≠ [] → (∀ doc, doc ∈ data → doc = []) →
     prepare data stdin = Some NoFields).
Proof.
  split; [|split].
  - intros headers data' titleField stdin' Hrun. unfold prepare in Hrun.
    destruct data as [|doc0 data0] eqn:Edata; [done|]. rewrite <- Edata in *.
    destruct (readMongoDBHeaders_spec data) as [_ Hin].
    destruct (readMongoDBHeaders data) as [|h0 hs] eqn:Eh; [done|].
    rewrite <- Eh in *.
    destruct (renameIdStep (readMongoDBHeaders data) data stdin)
      as [[[headers1 data1] stdin1]|] eqn:Hstep; [|done].
    cbn [mbind option_bind] in Hrun.
    destruct (promptTitleField headers1 stdin1) as [[tf stdin2]|] eqn:Hprompt;
      [|done].
    cbn [mbind option_bind] in Hrun. injection Hrun as <- <- <- <-.
    destruct (renameIdStep_spec _ _ _ _ _ _ Hstep) as (Hkeys & _ & Hlen & _).
    { intros doc k Hdoc Hk. apply Hin. by exists doc. }
    assert (tf ∈ headers1) as Htf by by eapply promptIndex_elem.
    split; [done|]. split; [done|]. split; [done|].
    intros schema opt answers sp rest Hmap.
    pose proof (mapProperties_loop_dom _ _ _ _ _ _ _ Hmap) as Hdom.
    split; [|apply Hdom; by left].
    apply Forall_forall. intros doc Hdoc. apply Forall_forall.
    intros [k v] Hkv. apply Hdom. left. apply (Hkeys doc); [done|].
    unfold keys. apply list_elem_of_fmap. by exists (k, v).
  - by intros ->.
  - intros Hne Hempty. unfold prepare.
    destruct data as [|doc0 data0] eqn:Edata; [done|]. rewrite <- Edata in *.
    destruct (readMongoDBHeaders_spec data) as [_ Hin].
    destruct (readMongoDBHeaders data) as [|h0 hs] eqn:Eh; [done|].
    exfalso. destruct (proj1 (Hin h0)) as (doc & Hdoc & Hk); [by left|].
    rewrite (Hempty doc Hdoc) in Hk. by apply elem_of_nil in Hk.
Qed.

End Prepared.

(** ** Outcomes of the schema synchronisation *)

Section Synchronisation.
Context `{JsNumber}.
Implicit Types (σ : Notion) (sp : gmap string mapped).

Lemma ensurePropertiesExist_run db headers sp σ :
  ensurePropertiesExist db headers sp σ
  = let '(newProps, ns, evs) := ensure_outcome db headers sp σ in
    (Ok newProps, after_schema σ 1 ns evs).
Proof.
  unfold ensurePropertiesExist, ensure_outcome, try_catch, after_schema.
  unfold mbind at 1, M_bind at 1, databases_retrieve at 1.
  cbn [retrieve_answers emit].
  destruct (retrieve_answers σ) as [|[current|error] answers] eqn:Hr;
    cbn [next_answer].
  - unfold mbind, M_bind, log, mret, M_ret, emit. cbn.
    by rewrite ?Hr, <- ?app_assoc.
  - unfold mbind at 1, M_bind at 1, lift at 1.
    destruct (ensure_loop headers sp current ∅ ∅) as [[adds updates]|error]
      eqn:Hloop.
    + unfold mbind at 1, M_bind at 1.
      destruct (bool_decide (0 < length (Object_keys adds))%nat
                || bool_decide (0 < length (Object_keys updates))%nat).
      * unfold databases_update at 1. cbn [schema_answers emit].
        destruct (schema_answers σ) as [|[[]|error] sanswers] eqn:Hs;
          cbn [next_answer];
          unfold mbind, M_bind, log, mret, M_ret, emit; cbn;
          rewrite ?Hr, ?Hs, ?drop_0, <- ?app_assoc; done.
      * unfold mbind, M_bind, log, mret, M_ret, emit. cbn.
        by rewrite ?Hr, ?drop_0.
    + unfold mbind, M_bind, log, mret, M_ret, emit. cbn.
      by rewrite ?Hr, ?drop_0, <- ?app_assoc.
  - unfold mbind, M_bind, log, mret, M_ret, emit. cbn.
    by rewrite ?Hr, ?drop_0, <- ?app_assoc.
Qed.

Lemma ensure_loop_spec headers sp (current : gmap string string)
    (adds0 updates0 adds updates : gmap string string) :
  ensure_loop headers sp current adds0 updates0 = Ok (adds, updates) →
  (∀ h, h ∈ headers → is_Some (sp !! h))
  ∧ (∀ n, is_Some (adds !! n)
          ↔ is_Some (adds0 !! n)
            ∨ ∃ h m, h ∈ headers ∧ sp !! h = Some m ∧ name m = n
                     ∧ current !! n = None)
  ∧ (∀ n, is_Some (updates !! n)
          ↔ is_Some (updates0 !! n)
            ∨ ∃ h m t, h ∈ headers ∧ sp !! h = Some m ∧ name m = n
                       ∧ current !! n = Some t ∧ t ≠ type m).
Proof.
  revert adds0 updates0.
  induction headers as [|h headers IH]; intros adds0 updates0;
    cbn [ensure_loop].
  - intros [= <- <-]. split; [by intros h ?%elem_of_nil|].
    split; intros n; (split; [by left|]);
      intros [?|Hsrc]; try done.
    + destruct Hsrc as (h & m & Hh & _). by apply elem_of_nil in Hh.
    + destruct Hsrc as (h & m & t & Hh & _). by apply elem_of_nil in Hh.
  - destruct (sp !! h) as [m|] eqn:Hm; [|done].
    assert (∀ a0 u0,
              ensure_loop headers sp current a0 u0 = Ok (adds, updates) →
              (∀ n, is_Some (a0 !! n)
                    ↔ is_Some (adds0 !! n)
                      ∨ (name m = n ∧ current !! n = None)) →
              (∀ n, is_Some (u0 !! n)
                    ↔ is_Some (updates0 !! n)
                      ∨ (name m = n ∧ ∃ t, current !! n = Some t ∧ t ≠ type m)) →
              (∀ h0, h0 ∈ h :: headers → is_Some (sp !! h0))
              ∧ (∀ n, is_Some (adds !! n)
                      ↔ is_Some (adds0 !! n)
                        ∨ ∃ h0 m0, h0 ∈ h :: headers ∧ sp !! h0 = Some m0
                                   ∧ name m0 = n ∧ current !! n = None)
              ∧ (∀ n, is_Some (updates !! n)
                      ↔ is_Some (updates0 !! n)
                        ∨ ∃ h0 m0 t, h0 ∈ h :: headers ∧ sp !! h0 = Some m0
                                     ∧ name m0 = n ∧ current !! n = Some t
                                     ∧ t ≠ type m0)) as Hstep.
    { intros a0 u0 Hrest Ha0 Hu0.
      destruct (IH a0 u0 Hrest) as (Hmapped & Ha & Hu).
      split; [|split].
      - intros h0 Hh0. apply elem_of_cons in Hh0 as [->|Hh0]; [by eexists|].
        by apply Hmapped.
      - intros n. rewrite Ha, Ha0. split.
        + intros [[?|[Hn Hc]]|(h0 & m0 & Hh0 & Hrest')]; [by left| |].
          * right. exists h, m. split; [by left|done].
          * right. exists h0, m0. split; [by right|done].
        + intros [?|(h0 & m0 & Hh0 & Hm0 & Hn & Hc)]; [by left; left|].
          apply elem_of_cons in Hh0 as [->|Hh0].
          * rewrite Hm in Hm0. injection Hm0 as <-. left. by right.
          * right. by exists h0, m0.
      - intros n. rewrite Hu, Hu0. split.
        + intros [[?|[Hn (t & Hc & Ht)]]|(h0 & m0 & t & Hh0 & Hrest')];
            [by left| |].
          * right. exists h, m, t. split; [by left|done].
          * right. exists h0, m0, t. split; [by right|done].
        + intros [?|(h0 & m0 & t & Hh0 & Hm0 & Hn & Hc & Ht)];
            [by left; left|].
          apply elem_of_cons in Hh0 as [->|Hh0].
          * rewrite Hm in Hm0. injection Hm0 as <-. left. right.
            split; [done|]. by exists t.
          * right. by exists h0, m0, t. }
    destruct (current !! name m) as [currentType|] eqn:Hc.
    + destruct (String.eqb_spec currentType (type m)) as [Heq|Hne]; simpl.
      * intros Hrest. apply (Hstep _ _ Hrest).
        -- intros n. split; [by left|]. intros [?|[<- Hn]]; [done|].
           by rewrite Hc in Hn.
        -- intros n. split; [by left|].
           intros [?|[<- (t & Ht & Hne)]]; [done|].
           rewrite Hc in Ht. injection Ht as <-. done.
      * intros Hrest. apply (Hstep _ _ Hrest).
        -- intros n. split; [by left|]. intros [?|[<- Hn]]; [done|].
           by rewrite Hc in Hn.
        -- intros n. rewrite lookup_insert_is_Some.
           destruct (decide (name m = n)) as [<-|Hn].
           ++ split; [|by left]. intros _. right. split; [done|].
              by exists currentType.
           ++ split; [intros [?|[_ ?]]; [done|by left]|].
              intros [?|[? _]]; [|done]. right. done.
    + intros Hrest. apply (Hstep _ _ Hrest).
      * intros n. rewrite lookup_insert_is_Some.
        destruct (decide (name m = n)) as [<-|Hn].
        -- split; [|by left]. intros _. right. done.
        -- split; [intros [?|[_ ?]]; [done|by left]|].
           intros [?|[? _]]; [|done]. right. done.
      * intros n. split; [by left|].
        intros [?|[<- (t & Ht & _)]]; [done|]. by rewrite Hc in Ht.
Qed.

Lemma ensure_loop_mapped headers sp (current : gmap string string)
    (adds0 updates0 : gmap string string) :
  (∀ h, h ∈ headers → is_Some (sp !! h)) →
  ∃ adds updates,
    ensure_loop headers sp current adds0 updates0 = Ok (adds, updates).
Proof.
  revert adds0 updates0.
  induction headers as [|h headers IH]; intros adds0 updates0 Hm;
    cbn [ensure_loop]; [by eauto|].
  destruct (Hm h) as [m ->]; [by left|].
  assert (∀ h0, h0 ∈ headers → is_Some (sp !! h0)) as Hm'
    by (intros h0 ?; apply Hm; by right).
  destruct (current !! name m); [destruct (negb _)|]; by apply IH.
Qed.

Lemma Object_keys_elem {B} (o : gmap string B) n :
  n ∈ Object_keys o ↔ is_Some (o !! n).
Proof.
  unfold Object_keys. rewrite list_elem_of_fmap. split.
  - intros ([k v] & -> & Hin). apply elem_of_map_to_list in Hin. by eexists.
  - intros [v Hv]. exists (n, v). split; [done|].
    by apply elem_of_map_to_list.
Qed.


Lemma Object_keys_length {B} (o : gmap string B) :
  (0 < length (Object_keys o))%nat ↔ ∃ n, is_Some (o !! n).
Proof.
  split.
  - destruct (Object_keys o) as [|n l] eqn:Hl; [simpl; lia|]. intros _.
    exists n. apply Object_keys_elem. rewrite Hl. by left.
  - intros [n Hn]. apply Object_keys_elem in Hn.
    destruct (Object_keys o); [by apply elem_of_nil in Hn|simpl; lia].
Qed.


(** The test that decides whether a schema request is sent. *)
Lemma ensure_request_sent headers sp (current adds updates : gmap string string) :
  ensure_loop headers sp current ∅ ∅ = Ok (adds, updates) →
  if bool_decide (0 < length (Object_keys adds))%nat
     || bool_decide (0 < length (Object_keys updates))%nat
  then ¬ in_sync headers sp current
  else in_sync headers sp current ∧ Object_keys adds = [].
Proof.
  intros Hloop.
  destruct (ensure_loop_spec _ _ _ _ _ _ _ Hloop) as (_ & Ha & Hu).
  destruct (bool_decide (0 < length (Object_keys adds))%nat
            || bool_decide (0 < length (Object_keys updates))%nat) eqn:Hsent.
  - intros Hsync. apply orb_true_iff in Hsent as [Hsent|Hsent];
      apply bool_decide_eq_true, Object_keys_length in Hsent as [n Hn].
    + apply Ha in Hn as [Hn|(h & m & Hh & Hm & <- & Hc)].
      * rewrite lookup_empty in Hn. by destruct Hn.
      * rewrite (Hsync h m Hh Hm) in Hc. discriminate.
    + apply Hu in Hn as [Hn|(h & m & t & Hh & Hm & <- & Hc & Ht)].
      * rewrite lookup_empty in Hn. by destruct Hn.
      * rewrite (Hsync h m Hh Hm) in Hc. by injection Hc.
  - apply orb_false_iff in Hsent as [Hadds Hupdates].
    apply bool_decide_eq_false in Hadds, Hupdates.
    split.
    + intros h m Hh Hm.
      destruct (current !! name m) as [t|] eqn:Hc.
      * destruct (decide (t = type m)) as [->|Hne]; [done|].
        destruct Hupdates. apply Object_keys_length. exists (name m).
        apply Hu. right. by exists h, m, t.
      * destruct Hadds. apply Object_keys_length. exists (name m).
        apply Ha. right. by exists h, m.
    + destruct (Object_keys adds); [done|]. destruct Hadds. simpl. lia.
Qed.


(** X8: [ensurePropertiesExist] never throws.  It reads the schema once,
    sends at most one schema request, creates and updates no page, and
    whenever it reports an error it returns no new property. *)
Theorem ensurePropertiesExist_never_throws db headers sp σ :
  ∃ newProps ns evs,
    ensurePropertiesExist db headers sp σ
    = (Ok newProps, after_schema σ 1 ns evs)
    ∧ reads_of evs = [DatabasesRetrieve db]
    ∧ length (schema_updates_of evs) = ns
    ∧ (ns ≤ 1)%nat
    ∧ creates_of evs = []
    ∧ updates_of evs = []
    ∧ (reports_of evs = []
       ∨ newProps = [] ∧ ∃ error, reports_of evs = [ErrorEnsure error]).
Proof.
  rewrite ensurePropertiesExist_run. unfold ensure_outcome.
  destruct (next_answer (retrieve_answers σ)) as [current|error].
  - destruct (ensure_loop headers sp current ∅ ∅) as [[adds updates]|error].
    + destruct (bool_decide _ || bool_decide _).
      * destruct (next_answer (schema_answers σ)) as [[]|error].
        -- eexists _, _, _. split; [done|].
           repeat (split; [done || (simpl; lia)|]). by left.
        -- eexists _, _, _. split; [done|].
           repeat (split; [done || (simpl; lia)|]). right. by eauto.
      * eexists _, _, _. split; [done|].
        repeat (split; [done || (simpl; lia)|]). by left.
    + eexists _, _, _. split; [done|].
      repeat (split; [done || (simpl; lia)|]). right. by eauto.
  - eexists _, _, _. split; [done|].
    repeat (split; [done || (simpl; lia)|]). right. by eauto.
Qed.

(** X9: once the schema is read and every header is mapped, no schema
    request is sent exactly when every mapped property is in the schema
    with the mapped type; the function then returns no new property and
    leaves the read as its only event. *)
Theorem ensurePropertiesExist_in_sync db headers sp σ current answers :
  retrieve_answers σ = Ok current :: answers →
  (∀ h, h ∈ headers → is_Some (sp !! h)) →
  in_sync headers sp current
  ↔ ensurePropertiesExist db headers sp σ
    = (Ok [], after_schema σ 1 0 [DatabasesRetrieve db]).
Proof.
  intros Hr Hmapped. rewrite ensurePropertiesExist_run. unfold ensure_outcome.
  rewrite Hr. cbn [next_answer].
  destruct (ensure_loop_mapped headers sp current ∅ ∅ Hmapped)
    as (adds & updates & Hloop).
  rewrite Hloop. pose proof (ensure_request_sent _ _ _ _ _ Hloop) as Hsent.
  destruct (bool_decide _ || bool_decide _).
  - split; [done|]. intros Hrun. exfalso.
    destruct (next_answer (schema_answers σ)) as [[]|error];
      apply (f_equal (λ r, trace r.2)) in Hrun; cbn [snd after_schema trace] in Hrun;
      apply app_inv_head in Hrun; discriminate.
  - destruct Hsent as [Hsync ->]. done.
Qed.


End Synchronisation.

(** ** Reading the pages of the database, page by page *)

Section Pagination.
Context `{JsNumber}.
Implicit Types (σ : Notion) (pages : list QueryPage).

Lemma after_queries_0 σ : after_queries σ 0 [] = σ.
Proof. destruct σ. unfold after_queries. simpl. by rewrite app_nil_r. Qed.

Lemma fetch_events_app db cursor pages last :
  fetch_events db cursor (pages ++ [last])
  = fetch_events db cursor pages
    ++ [DatabasesQuery db (cursor_after cursor pages)].
Proof.
  revert cursor. induction pages as [|p pages IH]; intros cursor; [done|].
  simpl. by rewrite IH.
Qed.

Lemma fetch_events_observed db cursor pages :
  creates_of (fetch_events db cursor pages) = []
  ∧ updates_of (fetch_events db cursor pages) = []
  ∧ reports_of (fetch_events db cursor pages) = []
  ∧ length (fetch_events db cursor pages) = length pages.
Proof.
  revert cursor. induction pages as [|p pages IH]; intros cursor; [done|].
  destruct (IH (next_cursor p)) as (Hc & Hu & Hr & Hl).
  simpl. by rewrite Hl.
Qed.

(** The turns of the loop that read pages announcing more. *)
Lemma fetch_loop_more n db (allRecords : list page) cursor σ pages rest :
  query_answers σ = (Ok <$> pages) ++ rest →
  Forall (λ p, has_more p = true) pages →
  fetch_loop (length pages + n) db allRecords cursor σ
  = fetch_loop n db (allRecords ++ concat (results <$> pages))
      (cursor_after cursor pages)
      (after_queries σ (length pages) (fetch_events db cursor pages)).
Proof.
  intros Hq Hmore. revert allRecords cursor σ Hq.
  induction Hmore as [|p pages Hp _ IH]; intros allRecords cursor σ Hq.
  - simpl. by rewrite app_nil_r, after_queries_0.
  - rewrite fmap_cons in Hq. simpl in Hq.
    cbn [length Nat.add fetch_loop].
    unfold mbind at 1, M_bind at 1, databases_query at 1.
    cbn [query_answers emit]. rewrite Hq, Hp.
    rewrite IH by done. f_equal.
    + rewrite fmap_cons. simpl. by rewrite app_assoc.
    + unfold after_queries. simpl. rewrite Hq. simpl.
      by rewrite <- app_assoc.
Qed.

Lemma after_queries_after_queries σ n evs n' evs' :
  after_queries (after_queries σ n evs) n' evs'
  = after_queries σ (n + n') (evs ++ evs').
Proof.
  unfold after_queries. simpl. by rewrite drop_drop, <- app_assoc.
Qed.

Lemma databases_query_run db cursor σ :
  databases_query db cursor σ
  = (next_answer (query_answers σ),
     after_queries σ 1 [DatabasesQuery db cursor]).
Proof.
  unfold databases_query, after_queries, emit. simpl.
  destruct (query_answers σ) as [|r answers]; simpl; by rewrite ?drop_0.
Qed.

(** The answer that follows the pages announcing more decides the run. *)
Lemma fetchAllRecords_run db σ pages rest :
  query_answers σ = (Ok <$> pages) ++ rest →
  Forall (λ p, has_more p = true) pages →
  let σ' := after_queries σ (S (length pages))
              (fetch_events db None pages
               ++ [DatabasesQuery db (cursor_after None pages)]) in
  (∀ last, next_answer rest = Ok last → has_more last = false →
     fetchAllRecords db σ
     = (Ok (concat (results <$> pages ++ [last])), σ'))
  ∧ (∀ error, next_answer rest = Throw error →
       fetchAllRecords db σ = (Throw error, σ')).
Proof.
  intros Hq Hmore σ'.
  assert (fetchAllRecords db σ
          = fetch_loop (S (length rest)) db (concat (results <$> pages))
              (cursor_after None pages)
              (after_queries σ (length pages) (fetch_events db None pages)))
    as Hrun.
  { unfold fetchAllRecords. rewrite Hq, length_app, length_fmap.
    replace (S (length pages + length rest))
      with (length pages + S (length rest))%nat by lia.
    by rewrite (fetch_loop_more _ _ _ _ _ pages rest). }
  assert (query_answers
            (after_queries σ (length pages) (fetch_events db None pages))
          = rest) as Hrest.
  { unfold after_queries. simpl. rewrite Hq.
    rewrite drop_app_length'; [done|by rewrite length_fmap]. }
  rewrite Hrun. cbn [fetch_loop]. unfold mbind, M_bind.
  rewrite databases_query_run, Hrest, after_queries_after_queries.
  rewrite Nat.add_1_r. fold σ'.
  split.
  - intros last -> Hstop. rewrite Hstop. unfold mret, M_ret.
    rewrite fmap_app, concat_app. simpl. by rewrite app_nil_r.
  - by intros error ->.
Qed.

(** X11: [fetchAllRecords] asks for the first page without a cursor and
    for each next page with the cursor the page before gave, as long as
    the pages announce more; it returns the results of all the pages put
    end to end, in the order read, and leaves the later answers of the
    service unused. *)
Theorem fetchAllRecords_paginates db σ pages last rest :
  query_answers σ = (Ok <$> pages) ++ Ok last :: rest →
  Forall (λ p, has_more p = true) pages →
  has_more last = false →
  ∃ σ',
    fetchAllRecords db σ = (Ok (concat (results <$> pages ++ [last])), σ')
    ∧ trace σ' = trace σ ++ fetch_events db None (pages ++ [last])
    ∧ length (fetch_events db None (pages ++ [last])) = S (length pages)
    ∧ query_answers σ' = rest.
Proof.
  intros Hq Hmore Hstop.
  destruct (fetchAllRecords_run db σ pages _ Hq Hmore) as [Hok _].
  eexists. split; [by apply Hok|].
  split; [simpl; by rewrite fetch_events_app|].
  split.
  - destruct (fetch_events_observed db None (pages ++ [last]))
      as (_ & _ & _ & ->).
    rewrite length_app. simpl. lia.
  - simpl. rewrite Hq, cons_middle, app_assoc.
    rewrite drop_app_length'; [done|].
    rewrite length_app, length_fmap. simpl. lia.
Qed.

End Pagination.

(** ** The paths of [exportToNotion] *)

Section ExportPaths.
Context `{JsNumber}.
Variable getPropertyValue : option property → option string → Result string.
Implicit Types (σ : Notion) (sp : gmap string mapped) (data : list entry).

Lemma databases_retrieve_run db σ :
  databases_retrieve db σ
  = (next_answer (retrieve_answers σ),
     after_schema σ 1 0 [DatabasesRetrieve db]).
Proof.
  unfold databases_retrieve, after_schema, emit. simpl.
  destruct (retrieve_answers σ) as [|r answers]; simpl; by rewrite ?drop_0.
Qed.

Lemma classify_skip idx fields opt newProps duplicatesForUpdate
    nonDuplicatesToAdd doc :
  String.eqb opt "2" = false →
  classify idx fields opt newProps (duplicatesForUpdate, nonDuplicatesToAdd)
    doc
  = match findDuplicate idx fields doc with
    | Some _ => (duplicatesForUpdate, nonDuplicatesToAdd)
    | None => (duplicatesForUpdate, nonDuplicatesToAdd ++ [doc])
    end.
Proof.
  intros Hopt. unfold classify. rewrite Hopt.
  destruct (findDuplicate idx fields doc); [|done].
  by destruct (String.eqb opt "1").
Qed.

Lemma separate_skip idx fields opt newProps data duplicatesForUpdate
    nonDuplicatesToAdd :
  String.eqb opt "2" = false →
  foldl (classify idx fields opt newProps)
    (duplicatesForUpdate, nonDuplicatesToAdd) data
  = (duplicatesForUpdate, nonDuplicatesToAdd ++ to_create idx fields data).
Proof.
  intros Hopt. revert nonDuplicatesToAdd.
  induction data as [|doc data IH]; intros adds.
  - simpl. by rewrite app_nil_r.
  - cbn [foldl]. rewrite classify_skip, to_create_cons by done.
    destruct (findDuplicate idx fields doc); rewrite IH;
      by rewrite <- ?app_assoc.
Qed.

Lemma addNonDuplicateRecords_guard records sp db σ :
  (if bool_decide (0 < length records)%nat
   then addNonDuplicateRecords records sp db
   else mret ()) σ
  = addNonDuplicateRecords records sp db σ.
Proof.
  case_bool_decide as Hlen; [done|].
  destruct records; [done|]. simpl in Hlen. lia.
Qed.

(** A run of [exportToNotion] whose reads succeed, under an option that
    is neither 2 nor 3. *)
Lemma exportToNotion_skip_run data db sp fields opt newProps
    σ allRecords σ1 schema σ2 idx :
  String.eqb opt "2" = false →
  String.eqb opt "3" = false →
  fetchAllRecords db σ = (Ok allRecords, σ1) →
  databases_retrieve db σ1 = (Ok schema, σ2) →
  buildIndex getPropertyValue allRecords fields schema = Ok idx →
  exportToNotion getPropertyValue data db sp fields opt newProps σ
  = addNonDuplicateRecords (to_create idx fields data) sp db σ2.
Proof.
  intros Hopt2 Hopt3 Hfetch Hretrieve Hindex.
  unfold exportToNotion. rewrite Hopt3.
  unfold mbind at 1, M_bind at 1. rewrite Hfetch.
  unfold mbind at 1, M_bind at 1. rewrite Hretrieve.
  unfold mbind at 1, M_bind at 1, lift at 1. rewrite Hindex.
  unfold separate. rewrite separate_skip, app_nil_l by done.
  rewrite Hopt2, andb_false_l.
  unfold mbind at 1, M_bind at 1, mret at 1, M_ret at 1.
  apply addNonDuplicateRecords_guard.
Qed.

Lemma index_records_no_fields (allRecords : list page) types maps :
  index_records getPropertyValue allRecords [] types maps = Ok maps.
Proof. induction allRecords as [|r allRecords IH]; [done|]. simpl. apply IH. Qed.

Lemma to_create_no_fields idx data : to_create idx [] data = data.
Proof.
  induction data as [|doc data IH]; [done|].
  rewrite to_create_cons. simpl. by rewrite IH.
Qed.

Lemma to_update_no_fields idx newProps data : to_update idx [] newProps data = [].
Proof.
  induction data as [|doc data IH]; [done|].
  rewrite to_update_cons. simpl. by rewrite IH.
Qed.

(** X12: under an option other than 3, a rejected query makes
    [exportToNotion] throw the error of the service once the pages that
    announced more are read, and so does a rejected schema read after the
    last page; in both cases no page is created or updated and no answer
    to a write is used up. *)
Theorem rejected_read_writes_nothing data db sp fields opt newProps σ
    pages rest :
  String.eqb opt "3" = false →
  query_answers σ = (Ok <$> pages) ++ rest →
  Forall (λ p, has_more p = true) pages →
  ∀ error,
    next_answer rest = Throw error
    ∨ (∃ last, next_answer rest = Ok last ∧ has_more last = false
               ∧ next_answer (retrieve_answers σ) = Throw error) →
    ∃ σ' evs,
      exportToNotion getPropertyValue data db sp fields opt newProps σ
      = (Throw error, σ')
      ∧ trace σ' = trace σ ++ evs
      ∧ creates_of evs = []
      ∧ updates_of evs = []
      ∧ reports_of evs = []
      ∧ create_answers σ' = create_answers σ
      ∧ update_answers σ' = update_answers σ.
Proof.
  intros Hopt Hq Hmore error Hrejected.
  destruct (fetchAllRecords_run db σ pages rest Hq Hmore) as [Hok Hthrow].
  destruct (fetch_events_observed db None pages) as (Hc & Hu & Hr & _).
  unfold exportToNotion. rewrite Hopt.
  destruct Hrejected as [Herror|(last & Hlast & Hstop & Herror)].
  - unfold mbind at 1, M_bind at 1. rewrite (Hthrow error Herror).
    eexists _, _. split; [done|]. split; [done|].
    autorewrite with observe. by rewrite Hc, Hu, Hr.
  - unfold mbind at 1, M_bind at 1. rewrite (Hok last Hlast Hstop).
    unfold mbind at 1, M_bind at 1. rewrite databases_retrieve_run.
    cbn [retrieve_answers after_queries]. rewrite Herror.
    eexists _, _. split; [reflexivity|].
    split; [simpl; rewrite <- app_assoc; reflexivity|].
    autorewrite with observe. by rewrite Hc, Hu, Hr.
Qed.

(** X13: under option 1, and under any option other than 2 and 3, a run
    whose reads succeed updates no page: it creates the rows that match no
    page, with the one retry of the rejected ones, and writes nothing for
    the rows that match a page, whatever the new properties are. *)
Theorem skip_option_updates_nothing data db sp fields opt newProps
    σ allRecords σ1 schema σ2 idx :
  String.eqb opt "2" = false →
  String.eqb opt "3" = false →
  fetchAllRecords db σ = (Ok allRecords, σ1) →
  databases_retrieve db σ1 = (Ok schema, σ2) →
  buildIndex getPropertyValue allRecords fields schema = Ok idx →
  Forall (mappable sp) data →
  let adds := to_create idx fields data in
  ∃ σ' evs,
    exportToNotion getPropertyValue data db sp fields opt newProps σ
    = (Ok (), σ')
    ∧ trace σ' = trace σ2 ++ evs
    ∧ updates_of evs = []
    ∧ update_answers σ' = update_answers σ2
    ∧ creates_of evs
      = payloads sp adds ++ payloads sp (rejected adds (create_answers σ2))
    ∧ ∀ doc, doc ∈ adds ↔ doc ∈ data ∧ findDuplicate idx fields doc = None.
Proof.
  intros Hopt2 Hopt3 Hfetch Hretrieve Hindex Hm adds.
  pose proof (to_create_mappable idx fields sp data Hm) as Ha. fold adds in Ha.
  destruct (add_events_observed db sp adds (create_answers σ2) Ha)
    as (Hc & Hu & _).
  eexists _, _. split.
  - erewrite exportToNotion_skip_run by done.
    by apply addNonDuplicateRecords_run.
  - split; [done|]. split; [done|]. split; [done|]. split; [done|].
    apply to_create_elem.
Qed.

(** X14: with no key field, every option other than 3 reads the pages and
    the schema and then does what option 3 does at once: it hands every
    row to [addNonDuplicateRecords], whatever the pages hold. *)
Theorem no_key_field_creates_all data db sp opt newProps
    σ allRecords σ1 schema σ2 :
  String.eqb opt "3" = false →
  fetchAllRecords db σ = (Ok allRecords, σ1) →
  databases_retrieve db σ1 = (Ok schema, σ2) →
  exportToNotion getPropertyValue data db sp [] opt newProps σ
  = exportToNotion getPropertyValue data db sp [] "3" newProps σ2.
Proof.
  intros Hopt3 Hfetch Hretrieve.
  assert (buildIndex getPropertyValue allRecords [] schema = Ok ∅) as Hindex
    by apply index_records_no_fields.
  change (exportToNotion getPropertyValue data db sp [] "3" newProps σ2)
    with (addNonDuplicateRecords data sp db σ2).
  destruct (String.eqb opt "2") eqn:Hopt2.
  - apply String.eqb_eq in Hopt2 as ->.
    unfold exportToNotion. change (String.eqb "2" "3") with false. cbv iota.
    unfold mbind at 1, M_bind at 1. rewrite Hfetch.
    unfold mbind at 1, M_bind at 1. rewrite Hretrieve.
    unfold mbind at 1, M_bind at 1, lift at 1. rewrite Hindex.
    unfold separate. rewrite separate_update, !app_nil_l.
    rewrite to_update_no_fields, to_create_no_fields.
    unfold mbind at 1, M_bind at 1. simpl.
    apply addNonDuplicateRecords_guard.
  - erewrite exportToNotion_skip_run by done.
    by rewrite to_create_no_fields.
Qed.

(** X15: under option 2, with the reads of the run succeeding, every
    update request is sent before the first create request. *)
Theorem updates_precede_creates data db sp fields newProps
    σ allRecords σ1 schema σ2 idx :
  fetchAllRecords db σ = (Ok allRecords, σ1) →
  databases_retrieve db σ1 = (Ok schema, σ2) →
  buildIndex getPropertyValue allRecords fields schema = Ok idx →
  Forall (mappable sp) data →
  ∃ σ' updating creating,
    exportToNotion getPropertyValue data db sp fields "2" newProps σ
    = (Ok (), σ')
    ∧ trace σ' = trace σ2 ++ updating ++ creating
    ∧ creates_of updating = []
    ∧ updates_of creating = []
    ∧ length (updates_of updating)
      = length (to_update idx fields newProps data)
    ∧ (length (to_create idx fields data) ≤ length (creates_of creating))%nat.
Proof.
  intros Hfetch Hretrieve Hindex Hm.
  pose proof (to_update_mappable idx fields newProps sp data Hm) as Hd.
  pose proof (to_create_mappable idx fields sp data Hm) as Ha.
  destruct (update_events_observed _ sp newProps (update_answers σ2) Hd)
    as (Hu1 & Hc1 & _ & _).
  destruct (add_events_observed db sp _ (create_answers σ2) Ha)
    as (Hc2 & Hu2 & _).
  eexists _, _, _. split; [by eapply exportToNotion_update_run|].
  split; [simpl; by rewrite app_assoc|].
  split; [done|]. split; [done|]. split.
  - rewrite Hu1. by apply update_requests_length.
  - rewrite Hc2, length_app, payloads_length by done. lia.
Qed.

End ExportPaths.

(** ** The payload of a row, field by field *)

Section PayloadShape.
Context `{JsNumber}.
Implicit Types (σ : Notion) (sp : gmap string mapped) (e : entry).


Lemma image_blocks_cons sp h v e :
  image_blocks sp ((h, v) :: e)
  = match sp !! h with
    | Some m =>
        if String.eqb (type m) "files" && JS.truthy (stringValue v)
        then ImageBlock (stringValue v) :: image_blocks sp e
        else image_blocks sp e
    | None => image_blocks sp e
    end.
Proof.
  unfold image_blocks. cbn [omap list_omap fst snd].
  destruct (sp !! h) as [m|]; [|done]. by destruct (_ && _).
Qed.

Lemma buildPagePayload_loop_shape e sp props0 children0 props children :
  buildPagePayload_loop e sp props0 children0 = Ok (props, children) →
  children = children0 ++ image_blocks sp e
  ∧ ∀ n, is_Some (props !! n)
         ↔ is_Some (props0 !! n)
           ∨ ∃ h v m, (h, v) ∈ e ∧ sp !! h = Some m ∧ name m = n.
Proof.
  revert props0 children0.
  induction e as [|[h v] e IH]; intros props0 children0.
  - simpl. intros [= <- <-]. split; [by rewrite app_nil_r|].
    intros n. split; [by left|]. intros [?|(h & v & m & Hin & _)]; [done|].
    by apply elem_of_nil in Hin.
  - cbn [buildPagePayload_loop]. rewrite image_blocks_cons.
    destruct (sp !! h) as [m|] eqn:Hm; [|done]. intros Hloop.
    destruct (IH _ _ Hloop) as [Hchildren Hnames]. split.
    + rewrite Hchildren. destruct (_ && _); [|done].
      by rewrite <- app_assoc.
    + intros n. rewrite Hnames, lookup_insert_is_Some. split.
      * intros [[Hn|[_ ?]]|(h' & v' & m' & Hin & Hrest)].
        -- right. exists h, v, m. split; [by left|done].
        -- by left.
        -- right. exists h', v', m'. split; [by right|done].
      * intros [?|(h' & v' & m' & Hin & Hm' & Hn)].
        -- left. destruct (decide (name m = n)); [by left|by right].
        -- apply elem_of_cons in Hin as [[= -> ->]|Hin].
           ++ rewrite Hm in Hm'. injection Hm' as <-. left. by left.
           ++ right. by exists h', v', m'.
Qed.

Lemma buildPagePayload_loop_app e1 e2 sp props0 children0 :
  buildPagePayload_loop (e1 ++ e2) sp props0 children0
  = match buildPagePayload_loop e1 sp props0 children0 with
    | Ok (props1, children1) => buildPagePayload_loop e2 sp props1 children1
    | Throw error => Throw error
    end.
Proof.
  revert props0 children0.
  induction e1 as [|[h v] e1 IH]; intros props0 children0; [done|].
  cbn [app buildPagePayload_loop]. destruct (sp !! h); [apply IH|done].
Qed.

Lemma buildPagePayload_loop_untouched e sp props0 children0 props children n :
  buildPagePayload_loop e sp props0 children0 = Ok (props, children) →
  (∀ h v m, (h, v) ∈ e → sp !! h = Some m → name m ≠ n) →
  props !! n = props0 !! n.
Proof.
  revert props0 children0.
  induction e as [|[h v] e IH]; intros props0 children0.
  - simpl. by intros [= <- <-].
  - cbn [buildPagePayload_loop]. destruct (sp !! h) as [m|] eqn:Hm; [|done].
    intros Hloop Hother. rewrite (IH _ _ Hloop).
    + apply lookup_insert_ne. apply (Hother h v m); [by left|done].
    + intros h' v' m' Hin. apply (Hother h' v' m'). by right.
Qed.

Lemma buildPagePayload_loop_throws e sp props0 children0 error :
  buildPagePayload_loop e sp props0 children0 = Throw error →
  error = TypeError ∧ ¬ mappable sp e.
Proof.
  revert props0 children0.
  induction e as [|[h v] e IH]; intros props0 children0; [done|].
  cbn [buildPagePayload_loop]. destruct (sp !! h) as [m|] eqn:Hm.
  - intros Hloop. destruct (IH _ _ Hloop) as [-> Hnot]. split; [done|].
    intros Hall. apply Hnot. by apply Forall_cons in Hall as [_ ?].
  - intros [= <-]. split; [done|]. intros Hall.
    apply Forall_cons in Hall as [[m Hsome] _]. simpl in Hsome. congruence.
Qed.

Lemma buildPagePayload_loop_returns e sp props0 children0 r :
  buildPagePayload_loop e sp props0 children0 = Ok r → mappable sp e.
Proof.
  revert props0 children0.
  induction e as [|[h v] e IH]; intros props0 children0; [by constructor|].
  cbn [buildPagePayload_loop]. destruct (sp !! h) as [m|] eqn:Hm; [|done].
  intros Hloop. apply Forall_cons. split; [by eexists|by eapply IH].
Qed.

Lemma buildPagePayload_fails e sp :
  ¬ mappable sp e → buildPagePayload e sp = Throw TypeError.
Proof.
  intros Hnot. destruct (buildPagePayload e sp) as [r|error] eqn:Hp.
  - destruct Hnot. by eapply buildPagePayload_loop_returns.
  - by destruct (buildPagePayload_loop_throws _ _ _ _ _ Hp) as [-> _].
Qed.

(** X17: the payload of a row names exactly the properties its fields are
    mapped to; when several fields are mapped to one name, the last of
    them in the row gives the value; and the page body is made of one
    image block per field of type [files] with a value that is not empty,
    in the order of the fields. *)
Theorem buildPagePayload_shape e sp props children :
  buildPagePayload e sp = Ok (props, children) →
  children = image_blocks sp e
  ∧ (∀ n, is_Some (props !! n)
          ↔ ∃ h v m, (h, v) ∈ e ∧ sp !! h = Some m ∧ name m = n)
  ∧ ∀ pre h v post m,
      e = pre ++ (h, v) :: post →
      sp !! h = Some m →
      (∀ h' v' m', (h', v') ∈ post → sp !! h' = Some m' →
                   name m' ≠ name m) →
      props !! name m = Some (buildPropertyPayload (type m) (stringValue v)).
Proof.
  intros Hp.
  destruct (buildPagePayload_loop_shape _ _ _ _ _ _ Hp) as [Hchildren Hnames].
  split; [done|]. split.
  - intros n. rewrite Hnames, lookup_empty. split; [|by right].
    intros [Hn|?]; [by destruct Hn|done].
  - intros pre h v post m -> Hm Hlast. unfold buildPagePayload in Hp.
    rewrite buildPagePayload_loop_app in Hp.
    destruct (buildPagePayload_loop pre sp ∅ []) as [[props1 children1]|];
      [|done].
    cbn [buildPagePayload_loop] in Hp. rewrite Hm in Hp.
    rewrite (buildPagePayload_loop_untouched _ _ _ _ _ _ _ Hp Hlast).
    apply lookup_insert_eq.
Qed.

(** X18: a row is turned into a payload exactly when every one of its
    fields has a mapping, and is refused with a [TypeError] otherwise.
    [addNonDuplicateRecords] then stops at the first such row: the rows
    before it are sent once, the rejected ones among them are not
    retried, and the rows after it are not sent. *)
Theorem unmapped_row_aborts pre bad post sp db σ :
  Forall (mappable sp) pre →
  ¬ mappable sp bad →
  (∀ e, mappable sp e ↔ ∃ r, buildPagePayload e sp = Ok r)
  ∧ buildPagePayload bad sp = Throw TypeError
  ∧ addNonDuplicateRecords (pre ++ bad :: post) sp db σ
    = (Throw TypeError,
       after_creates σ (length pre)
         (pass_events ErrorCreate db sp pre (create_answers σ)))
  ∧ creates_of (pass_events ErrorCreate db sp pre (create_answers σ))
    = payloads sp pre.
Proof.
  intros Hpre Hbad. pose proof (buildPagePayload_fails _ _ Hbad) as Hthrow.
  split.
  { intros e. split.
    - intros He. destruct (buildPagePayload_mappable e sp He) as (p & c & Hp).
      by eexists.
    - intros [r Hr]. by eapply buildPagePayload_loop_returns. }
  split; [done|]. split.
  - unfold addNonDuplicateRecords. unfold mbind at 1, M_bind at 1.
    assert (∀ failed σ0,
              create_pass (pre ++ bad :: post) sp db failed σ0
              = (Throw TypeError,
                 after_creates σ0 (length pre)
                   (pass_events ErrorCreate db sp pre (create_answers σ0))))
      as ->; [|done].
    clear σ. induction Hpre as [|e pre He _ IH]; intros failed σ.
    + cbn [app create_pass]. unfold mbind at 1, M_bind at 1, lift at 1.
      rewrite Hthrow. simpl. by rewrite after_creates_0.
    + cbn [app create_pass].
      destruct (buildPagePayload_mappable e sp He) as (props & children & Hp).
      unfold mbind at 1, M_bind at 1, lift at 1. rewrite Hp.
      unfold mbind at 1, M_bind at 1.
      rewrite (create_step ErrorCreate).
      destruct (create_answers σ) as [|[[]|error] answers] eqn:Ha;
        rewrite IH, after_creates_after_creates; simpl;
        rewrite ?drop_0, ?Ha, ?Hp, <- ?app_assoc; simpl; try done.
  - by destruct (pass_events_observed ErrorCreate db sp pre (create_answers σ)
                   Hpre) as (-> & _).
Qed.

End PayloadShape.

(** ** Runs of [main] *)

Section MainRuns.
Context `{JsNumber}.
Implicit Types (σ : Notion) (data : list entry) (stdin : list string).

Lemma main_from_options_read_rejected exportToNotion normalise mapProperties
    data db headers titleField stdin σ σ' error :
  next_answer (retrieve_answers σ) = Throw error →
  main_from_options exportToNotion normalise mapProperties data db headers
    titleField stdin σ = Some σ' →
  ∃ warning,
    (warning = [] ∨ warning = [Console WarnNoValidFields])
    ∧ σ' = after_schema σ 1 0
             (warning ++ [DatabasesRetrieve db;
                          Console (ErrorGeneral error)]).
Proof.
  intros Herror. unfold main_from_options.
  assert (∀ warning,
            emit (Console (ErrorGeneral error))
              (after_schema (after_schema σ 0 0 warning) 1 0
                 [DatabasesRetrieve db])
            = after_schema σ 1 0
                (warning ++ [DatabasesRetrieve db;
                             Console (ErrorGeneral error)])) as Hend.
  { intros warning. unfold emit, after_schema. simpl.
    by rewrite !drop_0, <- !app_assoc. }
  assert (∀ stdin0 opt fields warning σ0,
            σ0 = after_schema σ 0 0 warning →
            warning = [] ∨ warning = [Console WarnNoValidFields] →
            match databases_retrieve db σ0 with
            | (Throw error, σ1) => Some (emit (Console (ErrorGeneral error)) σ1)
            | (Ok currentProperties, σ1) =>
                '(answer, stdin1) ← askChoice ["1"; "2"] stdin0;
                let mapOption := normalise answer in
                '(selectedProperties, _) ←
                  mapProperties headers currentProperties mapOption titleField
                    stdin1;
                Some (try_catch
                        (synchronise_and_export exportToNotion data db headers
                           selectedProperties fields opt)
                        (λ error, log (ErrorGeneral error)) σ1).2
            end = Some σ' →
            ∃ warning,
              (warning = [] ∨ warning = [Console WarnNoValidFields])
              ∧ σ' = after_schema σ 1 0
                       (warning ++ [DatabasesRetrieve db;
                                    Console (ErrorGeneral error)])) as Hrest.
  { intros stdin0 opt fields warning σ0 -> Hwarning.
    rewrite databases_retrieve_run. simpl. rewrite drop_0, Herror.
    intros [= <-]. exists warning. split; [done|]. by rewrite Hend. }
  assert (σ = after_schema σ 0 0 []) as Hsame.
  { destruct σ. unfold after_schema. simpl. by rewrite !drop_0, app_nil_r. }
  assert (emit (Console WarnNoValidFields) σ
          = after_schema σ 0 0 [Console WarnNoValidFields]) as Hwarned.
  { unfold emit, after_schema. simpl. by rewrite !drop_0. }
  destruct (askChoice ["1"; "2"; "3"] stdin) as [[answer stdin0]|]; [|done].
  cbn [mbind option_bind].
  destruct (String.eqb (normalise answer) "1"
            || String.eqb (normalise answer) "2").
  - destruct stdin0 as [|fields stdin1]; [done|].
    case_bool_decide; cbn [mbind option_bind].
    + apply (Hrest _ _ _ [Console WarnNoValidFields]); [done|by right].
    + apply (Hrest _ _ _ []); [done|by left].
  - cbn [mbind option_bind]. apply (Hrest _ _ _ []); [done|by left].
Qed.

Lemma askChoice_accepts valid answer stdin :
  JS.trim answer ∈ valid →
  askChoice valid (answer :: stdin) = Some (answer, stdin).
Proof. intros Hin. cbn [askChoice]. by rewrite bool_decide_true. Qed.

Lemma main_from_options_reaches_read exportToNotion normalise mapProperties
    data db headers titleField answer fields stdin σ error :
  JS.trim answer ∈ ["1"; "2"; "3"] →
  next_answer (retrieve_answers σ) = Throw error →
  is_Some (main_from_options exportToNotion normalise mapProperties data db
             headers titleField (answer :: fields :: stdin) σ).
Proof.
  intros Hvalid Herror. unfold main_from_options.
  rewrite askChoice_accepts by done. cbn [mbind option_bind].
  destruct (String.eqb (normalise answer) "1"
            || String.eqb (normalise answer) "2").
  - case_bool_decide; cbn [mbind option_bind];
      rewrite databases_retrieve_run; simpl; rewrite Herror; by eexists.
  - cbn [mbind option_bind].
    rewrite databases_retrieve_run, Herror. by eexists.
Qed.

(** X19: when the schema read of [main] is rejected, the run of either
    script ends there: after the warning about the key fields, if there
    was one, it leaves the read and the error line of [main], asks for no
    mapping, and sends no request that writes; and a run whose first
    answer is a valid option does get that far. *)
Theorem main_schema_read_rejected data db headers titleField σ error :
  next_answer (retrieve_answers σ) = Throw error →
  (∀ stdin σ',
     Mongo.main data db headers titleField stdin σ = Some σ'
     ∨ Excel.main data db headers titleField stdin σ = Some σ' →
     ∃ warning,
       (warning = [] ∨ warning = [Console WarnNoValidFields])
       ∧ σ' = after_schema σ 1 0
                (warning ++ [DatabasesRetrieve db;
                             Console (ErrorGeneral error)]))
  ∧ ∀ answer fields stdin,
      JS.trim answer ∈ ["1"; "2"; "3"] →
      is_Some (Mongo.main data db headers titleField
                 (answer :: fields :: stdin) σ)
      ∧ is_Some (Excel.main data db headers titleField
                   (answer :: fields :: stdin) σ).
Proof.
  intros Herror. split.
  - intros stdin σ' [Hrun|Hrun];
      by eapply main_from_options_read_rejected.
  - intros answer fields stdin Hvalid.
    split; by eapply main_from_options_reaches_read.
Qed.

Lemma trim_option s :
  s ∈ ["1"; "2"; "3"] → JS.trim s = s.
Proof.
  intros Hin. apply list_elem_of_In in Hin. simpl in Hin.
  destruct Hin as [<-|[<-|[<-|[]]]]; reflexivity.
Qed.

(** X20: the spreadsheet script keeps the trimmed answer to the prompt of
    the duplicate option, so an answer with white space around it starts
    the same run as the bare digit; an answer that is no option once
    trimmed is passed over by both scripts. *)
Theorem padded_option_is_trimmed data db headers titleField answer stdin σ :
  (JS.trim answer ∈ ["1"; "2"; "3"] →
   Excel.main data db headers titleField (answer :: stdin) σ
   = Excel.main data db headers titleField (JS.trim answer :: stdin) σ)
  ∧ (JS.trim answer ∉ ["1"; "2"; "3"] →
     Excel.main data db headers titleField (answer :: stdin) σ
     = Excel.main data db headers titleField stdin σ
     ∧ Mongo.main data db headers titleField (answer :: stdin) σ
       = Mongo.main data db headers titleField stdin σ).
Proof.
  split.
  - intros Hvalid. unfold Excel.main, main_from_options.
    rewrite (askChoice_accepts _ answer) by done.
    rewrite (askChoice_accepts _ (JS.trim answer))
      by (by rewrite (trim_option _ Hvalid)).
    cbn [mbind option_bind]. by rewrite (trim_option _ Hvalid).
  - intros Hinvalid. unfold Excel.main, Mongo.main, main_from_options.
    cbn [askChoice]. by rewrite bool_decide_false.
Qed.

End MainRuns.

(** ** Customized mappings *)

Section Customization.

Lemma askType_selection stdin : askType stdin = promptIndex propertyTypes stdin.
Proof.
  induction stdin as [|answer stdin IH]; [done|].
  cbn [askType promptIndex]. rewrite IH.
  destruct (JS.parseInt answer) as [n|]; [|done]. cbv zeta.
  destruct (Z.leb_spec 1 n), (Z.leb_spec n (Z.of_nat (length propertyTypes))),
    (Z.leb_spec 0 (n - 1)),
    (Z.ltb_spec (n - 1) (Z.of_nat (length propertyTypes)));
    try lia; try done.
  cbn [andb].
  destruct (lookup_lt_is_Some_2 propertyTypes (Z.to_nat (n - 1))) as [t Ht];
    [lia|].
  by rewrite Ht.
Qed.

Lemma askType_menu stdin t rest :
  askType stdin = Some (t, rest) → t ∈ propertyTypes.
Proof.
  rewrite askType_selection. intros Hrun.
  apply promptIndex_Some in Hrun as (_ & _ & n & _ & _ & _ & _ & Hitem).
  by eapply list_elem_of_lookup_2.
Qed.

Lemma customize_spec propertyName propertyType stdin x rest :
  customize propertyName propertyType stdin = Some (x, rest) →
  (type x = propertyType ∨ type x ∈ propertyTypes)
  ∧ (name x = propertyName
     ∨ ∃ newName, name x = JS.trim newName ∧ JS.trim newName ≠ "").
Proof.
  unfold customize.
  destruct stdin as [|newName [|changeType stdin]]; [done..|].
  assert ((if String.eqb (JS.trim newName) "" then propertyName
           else JS.trim newName) = propertyName
          ∨ ∃ newName0,
              (if String.eqb (JS.trim newName) "" then propertyName
               else JS.trim newName) = JS.trim newName0
              ∧ JS.trim newName0 ≠ "") as Hname.
  { destruct (String.eqb_spec (JS.trim newName) ""); [by left|].
    right. by exists newName. }
  destruct (String.eqb _ "s").
  - destruct (askType stdin) as [[t stdin']|] eqn:Htype; [|done].
    cbn [mbind option_bind]. intros [= <- <-]. split; [|done].
    right. by eapply askType_menu.
  - intros [= <- <-]. split; [by left|done].
Qed.

Lemma mapProperties_loop_types defaultType headers opt
    (init : gmap string mapped) stdin m rest :
  mapProperties_loop defaultType headers opt init stdin = Some (m, rest) →
  ∀ h x, m !! h = Some x →
    init !! h = Some x
    ∨ h ∈ headers
      ∧ (type x = defaultType h
         ∨ opt = "2" ∧ type x ∈ propertyTypes)
      ∧ (name x = h
         ∨ opt = "2"
           ∧ ∃ newName, name x = JS.trim newName ∧ JS.trim newName ≠ "").
Proof.
  revert init stdin. induction headers as [|g headers IH]; intros init stdin.
  - intros [= <- <-] h x Hx. by left.
  - cbn [mapProperties_loop].
    destruct (if String.eqb opt "2"
              then customize g (defaultType g) stdin
              else Some ({| name := g; type := defaultType g |}, stdin))
      as [[y stdin1]|] eqn:Hstep; [|done].
    cbn [mbind option_bind]. intros Hrest h x Hx.
    destruct (IH _ _ Hrest h x Hx) as [Hinit|(Hin & Hrest')].
    + destruct (decide (g = h)) as [->|Hne].
      * rewrite lookup_insert_eq in Hinit. injection Hinit as ->.
        right. split; [by left|].
        destruct (String.eqb_spec opt "2") as [->|Hopt].
        -- destruct (customize_spec _ _ _ _ _ Hstep) as [Hty Hname].
           split; [destruct Hty; auto|destruct Hname; auto].
        -- injection Hstep as <- <-. split; by left.
      * rewrite lookup_insert_ne in Hinit by done. by left.
    + right. split; [by right|done].
Qed.

(** X21: the loop that asks for a type is the selection prompt over the
    twenty types of the menu.  Hence, in a mapping either script returns,
    every header keeps its own name and its default type unless the
    customization option is 2; under that option a type is the default or
    one of the menu, and a name is the header or a trimmed answer that is
    not empty. *)
Theorem customized_mapping_from_menu headers schema opt titleField stdin :
  (∀ answers, askType answers = promptIndex propertyTypes answers)
  ∧ (∀ m rest h x,
       Mongo.mapProperties headers schema opt titleField stdin
       = Some (m, rest) →
       m !! h = Some x →
       h ∈ headers
       ∧ (type x = Mongo.defaultType schema titleField h
          ∨ opt = "2" ∧ type x ∈ propertyTypes)
       ∧ (name x = h
          ∨ opt = "2"
            ∧ ∃ newName, name x = JS.trim newName ∧ JS.trim newName ≠ ""))
  ∧ (∀ m rest h x,
       Excel.mapProperties headers schema opt titleField stdin
       = Some (m, rest) →
       m !! h = Some x →
       h ∈ headers
       ∧ (type x = Excel.defaultType schema titleField h
          ∨ opt = "2" ∧ type x ∈ propertyTypes)
       ∧ (name x = h
          ∨ opt = "2"
            ∧ ∃ newName, name x = JS.trim newName ∧ JS.trim newName ≠ "")).
Proof.
  split; [apply askType_selection|].
  split; intros m rest h x Hrun Hx;
    (destruct (mapProperties_loop_types _ _ _ _ _ _ _ Hrun h x Hx)
       as [Hinit|?]; [by rewrite lookup_empty in Hinit|done]).
Qed.

End Customization.

(** ** A whole run without duplicate check *)

Section WholeRun.
Context `{JsNumber}.
Implicit Types (σ : Notion) (data : list entry) (sp : gmap string mapped).

Lemma ensure_outcome_events db headers sp σ newProps ns evs :
  ensure_outcome db headers sp σ = (newProps, ns, evs) →
  creates_of evs = []
  ∧ updates_of evs = []
  ∧ reads_of evs = [DatabasesRetrieve db]
  ∧ ∀ error, ErrorGeneral error ∉ reports_of evs.
Proof.
  unfold ensure_outcome. intros Ho.
  assert (∀ error e, ErrorGeneral error ∉ [ErrorEnsure e]) as Hone.
  { intros error e Hin. by apply list_elem_of_singleton in Hin. }
  destruct (next_answer (retrieve_answers σ)) as [current|e].
  - destruct (ensure_loop headers sp current ∅ ∅) as [[adds updates]|e].
    + destruct (bool_decide _ || bool_decide _).
      * destruct (next_answer (schema_answers σ)) as [[]|e];
          injection Ho as <- <- <-; repeat (split; [done|]);
          intros error; [apply not_elem_of_nil|apply Hone].
      * injection Ho as <- <- <-. repeat (split; [done|]).
        intros error. apply not_elem_of_nil.
    + injection Ho as <- <- <-. repeat (split; [done|]).
      intros error. apply Hone.
  - injection Ho as <- <- <-. repeat (split; [done|]).
    intros error. apply Hone.
Qed.

Lemma add_events_reports db sp records answers r :
  Forall (mappable sp) records →
  r ∈ reports_of (add_events db sp records answers) →
  (∃ error, r = ErrorCreate error) ∨ (∃ error, r = ErrorRetry error)
  ∨ r = WarnRetrying ∨ r = WarnStillFailed.
Proof.
  intros Hm. unfold add_events.
  assert (Forall (mappable sp) (rejected records answers)) as Hf
    by by apply rejected_Forall.
  destruct (pass_events_observed ErrorCreate db sp records answers Hm)
    as (_ & _ & _ & Hr1).
  destruct (pass_events_observed ErrorRetry db sp _
              (drop (length records) answers) Hf) as (_ & _ & _ & Hr2).
  rewrite reports_of_app, Hr1, elem_of_app.
  intros [Hin|Hin].
  - apply list_elem_of_fmap in Hin as (error & -> & _). left. by eexists.
  - destruct (rejected records answers) as [|e failed];
      [by apply elem_of_nil in Hin|].
    change (reports_of (Console WarnRetrying :: ?l))
      with (WarnRetrying :: reports_of l) in Hin.
    apply elem_of_cons in Hin as [->|Hin]; [by right; right; left|].
    rewrite reports_of_app, Hr2, elem_of_app in Hin.
    destruct Hin as [Hin|Hin].
    + apply list_elem_of_fmap in Hin as (error & -> & _).
      right. left. by eexists.
    + destruct (rejected (e :: failed) _);
        [by apply elem_of_nil in Hin|].
      apply list_elem_of_singleton in Hin as ->. by right; right; right.
Qed.

Lemma default_mapping_mappable defaultType headers data :
  (∀ e k, e ∈ data → k ∈ keys e → k ∈ headers) →
  Forall (mappable (default_mapping defaultType headers)) data.
Proof.
  intros Hkeys. apply Forall_forall. intros e He. apply Forall_forall.
  intros [k v] Hkv. unfold default_mapping. cbn [fst].
  rewrite kept_lookup, decide_True; [by eexists|].
  apply (Hkeys e); [done|]. unfold keys. apply list_elem_of_fmap.
  by exists (k, v).
Qed.

(** A run of [main] under option 3 with the default mapping. *)
Lemma main_from_options_none_run exportToNotion normalise defaultType
    data db headers titleField rest σ current :
  normalise "3" = "3" →
  normalise "1" = "1" →
  (∀ sp fields newProps σ0,
     exportToNotion data db sp fields "3" newProps σ0
     = addNonDuplicateRecords data sp db σ0) →
  next_answer (retrieve_answers σ) = Ok current →
  (∀ e k, e ∈ data → k ∈ keys e → k ∈ headers) →
  let sp := default_mapping (defaultType current titleField) headers in
  ∃ σ' evs,
    main_from_options exportToNotion normalise
      (λ headers current opt titleField stdin,
         mapProperties_loop (defaultType current titleField) headers opt ∅
           stdin)
      data db headers titleField ("3" :: "1" :: rest) σ = Some σ'
    ∧ trace σ' = trace σ ++ evs
    ∧ creates_of evs
      = payloads sp data ++ payloads sp (rejected data (create_answers σ))
    ∧ updates_of evs = []
    ∧ reads_of evs = [DatabasesRetrieve db; DatabasesRetrieve db]
    ∧ ∀ error, ErrorGeneral error ∉ reports_of evs.
Proof.
  intros Hn3 Hn1 Hexport Hr Hkeys sp.
  pose proof (default_mapping_mappable (defaultType current titleField)
                headers data Hkeys) as Hm. fold sp in Hm.
  unfold main_from_options.
  rewrite askChoice_accepts by (apply option_valid; auto).
  cbn [mbind option_bind]. rewrite Hn3.
  change (String.eqb "3" "1" || String.eqb "3" "2") with false.
  cbn [mbind option_bind].
  rewrite databases_retrieve_run, Hr.
  rewrite askChoice_accepts by by left.
  cbn [mbind option_bind]. rewrite Hn1.
  rewrite mapProperties_loop_keep by done.
  cbn [mbind option_bind]. fold (default_mapping
    (defaultType current titleField) headers). fold sp.
  unfold try_catch, synchronise_and_export.
  unfold mbind at 1, M_bind at 1. rewrite ensurePropertiesExist_run.
  destruct (ensure_outcome db headers sp
              (after_schema σ 1 0 [DatabasesRetrieve db]))
    as [[newProps ns] evs] eqn:Ho.
  destruct (ensure_outcome_events _ _ _ _ _ _ _ Ho) as (Hc & Hu & Hreads & Hg).
  rewrite Hexport, addNonDuplicateRecords_run by done.
  cbn [snd create_answers after_schema].
  destruct (add_events_observed db sp data (create_answers σ) Hm)
    as (Hc2 & Hu2 & Hr2).
  eexists _, ([DatabasesRetrieve db] ++ evs
              ++ add_events db sp data (create_answers σ)).
  split; [reflexivity|]. split.
  { cbn [trace after_creates after_schema]. by rewrite <- !app_assoc. }
  rewrite !creates_of_app, !updates_of_app, !reads_of_app, !reports_of_app.
  rewrite Hc, Hu, Hreads, Hc2, Hu2, Hr2.
  split; [done|]. split; [done|]. split; [done|].
  intros error Hin. rewrite !elem_of_app in Hin.
  destruct Hin as [Hin|[Hin|Hin]].
  - by apply elem_of_nil in Hin.
  - by apply (Hg error).
  - apply add_events_reports in Hin; [|done].
    destruct Hin as [[? ?]|[[? ?]|[?|?]]]; discriminate.
Qed.

(** X22: in either script, when the schema read of [main] succeeds and
    every key of every row is a header, the answers 3 and 1 lead to a run
    that maps every header to itself with its default type, reads the
    schema a second time and never queries the pages, sends a create
    request for every row, with the one retry of the rejected ones,
    updates no page, and does not end in the error handler of [main]. *)
Theorem main_without_check_creates_all data db headers titleField rest σ
    current :
  next_answer (retrieve_answers σ) = Ok current →
  (∀ e k, e ∈ data → k ∈ keys e → k ∈ headers) →
  (∃ σ' evs,
     Mongo.main data db headers titleField ("3" :: "1" :: rest) σ = Some σ'
     ∧ trace σ' = trace σ ++ evs
     ∧ creates_of evs
       = (let sp := default_mapping
                      (Mongo.defaultType current titleField) headers in
          payloads sp data
          ++ payloads sp (rejected data (create_answers σ)))
     ∧ updates_of evs = []
     ∧ reads_of evs = [DatabasesRetrieve db; DatabasesRetrieve db]
     ∧ ∀ error, ErrorGeneral error ∉ reports_of evs)
  ∧ (∃ σ' evs,
       Excel.main data db headers titleField ("3" :: "1" :: rest) σ = Some σ'
       ∧ trace σ' = trace σ ++ evs
       ∧ creates_of evs
         = (let sp := default_mapping
                        (Excel.defaultType current titleField) headers in
            payloads sp data
            ++ payloads sp (rejected data (create_answers σ)))
       ∧ updates_of evs = []
       ∧ reads_of evs = [DatabasesRetrieve db; DatabasesRetrieve db]
       ∧ ∀ error, ErrorGeneral error ∉ reports_of evs).
Proof.
  intros Hr Hkeys. split.
  - by apply (main_from_options_none_run Mongo.exportToNotion (λ a, a)
                Mongo.defaultType).
  - by apply (main_from_options_none_run Excel.exportToNotion JS.trim
                Excel.defaultType).
Qed.

End WholeRun.

(** ** The two scripts build the same mapping *)

Section SameMapping.



End SameMapping.

(** ** Instances *)

Lemma selected_mapped h : h ∈ Ex.headers → is_Some (Ex.selected !! h).
Proof.
  intros Hin. apply elem_of_cons in Hin as [->|Hin];
    [|apply list_elem_of_singleton in Hin as ->].
  - exists {| name := "name"; type := "title" |}. by_evaluation.
  - exists {| name := "email"; type := "rich_text" |}. by_evaluation.
Qed.

Lemma selected_lookup h m :
  h ∈ Ex.headers → Ex.selected !! h = Some m →
  h = "name" ∧ m = {| name := "name"; type := "title" |}
  ∨ h = "email" ∧ m = {| name := "email"; type := "rich_text" |}.
Proof.
  intros Hin Hm. apply elem_of_cons in Hin as [->|Hin];
    [|apply list_elem_of_singleton in Hin as ->].
  - left. split; [done|].
    assert (Ex.selected !! "name" = Some {| name := "name"; type := "title" |})
      as Hl by by_evaluation.
    rewrite Hl in Hm. by injection Hm.
  - right. split; [done|].
    assert (Ex.selected !! "email"
            = Some {| name := "email"; type := "rich_text" |})
      as Hl by by_evaluation.
    rewrite Hl in Hm. by injection Hm.
Qed.

(** An instance: [_id] renamed [key] in one document. *)
Lemma renameIdStep_keeps_keys_witness :
  renameIdStep ["_id"; "name"] [More.doc1] ["key"]
  = Some (["name"; "key"], [More.doc1_renamed], [])
  ∧ length ["name"; "key"] = length ["_id"; "name"].
Proof.
  assert (renameIdStep ["_id"; "name"] [More.doc1] ["key"]
          = Some (["name"; "key"], [More.doc1_renamed], [])) as Hrun
    by by_evaluation.
  split; [exact Hrun|].
  destruct (renameIdStep_keeps_keys (H:=IntegerNumber) _ _ _ _ _ _ Hrun)
    as (_ & Hlen & _).
  - intros doc k Hdoc Hk. apply list_elem_of_singleton in Hdoc as ->.
    exact Hk.
  - exact Hlen.
Defined.

(** An instance: the schema already has both properties. *)
Lemma ensurePropertiesExist_in_sync_witness :
  ensurePropertiesExist "db" Ex.headers Ex.selected Ex.populated
  = (Ok [], after_schema Ex.populated 1 0 [DatabasesRetrieve "db"]).
Proof.
  apply (ensurePropertiesExist_in_sync (H:=IntegerNumber) "db" Ex.headers
           Ex.selected Ex.populated Ex.schema []).
  - reflexivity.
  - apply selected_mapped.
  - intros h m Hin Hm.
    destruct (selected_lookup h m Hin Hm) as [[-> ->]|[-> ->]]; by_evaluation.
Defined.


(** An instance: two pages of results. *)
Lemma fetchAllRecords_paginates_witness :
  ∃ σ', fetchAllRecords "db" More.paged = (Ok [Ex.page1; Ex.page2], σ')
        ∧ trace σ' = [DatabasesQuery "db" None;
                      DatabasesQuery "db" (Some "c1")]
        ∧ query_answers σ' = [].
Proof.
  destruct (fetchAllRecords_paginates (H:=IntegerNumber) "db" More.paged
              [More.first_page] More.last_page [])
    as (σ' & Hrun & Htrace & _ & Hleft).
  - reflexivity.
  - by repeat constructor.
  - reflexivity.
  - exists σ'. split; [exact Hrun|]. split; [exact Htrace|exact Hleft].
Defined.

(** An instance: the second query is rejected under option 1. *)
Lemma rejected_read_writes_nothing_witness :
  ∃ σ', exportToNotion Ex.mongo_value [Ex.alice] "db" Ex.selected ["email"]
          "1" [] More.interrupted
        = (Throw "rate_limited", σ')
        ∧ create_answers σ' = [Ok ()].
Proof.
  destruct (rejected_read_writes_nothing (H:=IntegerNumber) Ex.mongo_value
              [Ex.alice] "db" Ex.selected ["email"] "1" [] More.interrupted
              [More.first_page] [Throw "rate_limited"] eq_refl eq_refl)
    with "rate_limited"
    as (σ' & evs & Hrun & _ & _ & _ & _ & Hcreate & _).
  - by repeat constructor.
  - by left.
  - exists σ'. split; [exact Hrun|exact Hcreate].
Defined.

(** An instance: option 1 with one duplicate and one new row. *)
Lemma skip_option_updates_nothing_witness :
  ∃ σ', Mongo.exportToNotion [Ex.alice_phone; Ex.bob] "db" Ex.selected_more
          ["email"] "1" ["phone"] Ex.populated = (Ok (), σ')
        ∧ update_answers σ' = [Ok ()].
Proof.
  destruct (skip_option_updates_nothing (H:=IntegerNumber) Ex.mongo_value
              [Ex.alice_phone; Ex.bob] "db" Ex.selected_more ["email"] "1"
              ["phone"] Ex.populated [Ex.page1] Ex.populated_fetched
              Ex.schema Ex.populated_read Ex.index_page1)
    as (σ' & evs & Hrun & _ & _ & Hupdate & _).
  - reflexivity.
  - reflexivity.
  - by_evaluation.
  - by_evaluation.
  - by_evaluation.
  - repeat constructor; vm_compute; eauto.
  - exists σ'. split; [exact Hrun|exact Hupdate].
Defined.

(** An instance: option 2 with no key field. *)
Lemma no_key_field_creates_all_witness :
  exportToNotion Ex.mongo_value [Ex.alice] "db" Ex.selected [] "2" []
    Ex.populated
  = exportToNotion Ex.mongo_value [Ex.alice] "db" Ex.selected [] "3" []
      Ex.populated_read.
Proof.
  apply (no_key_field_creates_all (H:=IntegerNumber) Ex.mongo_value
           [Ex.alice] "db" Ex.selected "2" [] Ex.populated [Ex.page1]
           Ex.populated_fetched Ex.schema Ex.populated_read).
  - reflexivity.
  - by_evaluation.
  - by_evaluation.
Defined.

(** An instance: one update, then one creation. *)
Lemma updates_precede_creates_witness :
  ∃ σ' updating creating,
    Mongo.exportToNotion [Ex.alice_phone; Ex.bob] "db" Ex.selected_more
      ["email"] "2" ["phone"] Ex.populated = (Ok (), σ')
    ∧ trace σ' = trace Ex.populated_read ++ updating ++ creating
    ∧ creates_of updating = []
    ∧ updates_of creating = [].
Proof.
  destruct (updates_precede_creates (H:=IntegerNumber) Ex.mongo_value
              [Ex.alice_phone; Ex.bob] "db" Ex.selected_more ["email"]
              ["phone"] Ex.populated [Ex.page1] Ex.populated_fetched
              Ex.schema Ex.populated_read Ex.index_page1)
    as (σ' & updating & creating & Hrun & Htrace & Hc & Hu & _).
  - by_evaluation.
  - by_evaluation.
  - by_evaluation.
  - repeat constructor; vm_compute; eauto.
  - exists σ', updating, creating. by repeat split.
Defined.


(** An instance: a row with a picture. *)
Lemma buildPagePayload_shape_witness :
  [ImageBlock "http://x/p.png"]
  = image_blocks More.selected_photo More.photo_row.
Proof.
  destruct (buildPagePayload_shape (H:=IntegerNumber) More.photo_row
              More.selected_photo More.photo_props
              [ImageBlock "http://x/p.png"]) as [Hchildren _].
  - by_evaluation.
  - exact Hchildren.
Defined.

(** An instance: the second of three rows has a field without mapping. *)
Lemma unmapped_row_aborts_witness :
  ∃ σ', addNonDuplicateRecords ([Ex.alice] ++ More.stray :: [Ex.bob])
          Ex.selected "db" Ex.flaky = (Throw TypeError, σ')
        ∧ length (creates_of (trace σ')) = 1%nat.
Proof.
  destruct (unmapped_row_aborts (H:=IntegerNumber) [Ex.alice] More.stray
              [Ex.bob] Ex.selected "db" Ex.flaky)
    as (_ & _ & Hrun & Hcreates).
  - repeat constructor; vm_compute; eauto.
  - intros Hm. apply Forall_cons in Hm as [_ Hm].
    apply Forall_cons in Hm as [[m Hm] _]. vm_compute in Hm. discriminate.
  - eexists. split; [exact Hrun|].
    cbn [trace after_creates Ex.flaky app]. rewrite Hcreates. reflexivity.
Defined.

(** An instance: the schema read is rejected after option 3. *)
Lemma main_schema_read_rejected_witness :
  is_Some (Mongo.main [Ex.alice] "db" Ex.headers "name" ["3"; "1"]
             More.denied).
Proof.
  destruct (main_schema_read_rejected (H:=IntegerNumber) [Ex.alice] "db"
              Ex.headers "name" More.denied "unauthorized") as [_ Hreaches].
  - reflexivity.
  - destruct (Hreaches "3" "1" []) as [Hmongo _]; [|exact Hmongo].
    by repeat constructor.
Defined.

(** An instance: one document, a database that only has [Name]. *)
Lemma main_without_check_creates_all_witness :
  ∃ σ', Mongo.main [Ex.alice] "db" Ex.headers "name" ["3"; "1"] More.paged
        = Some σ'
        ∧ length (creates_of (trace σ')) = 1%nat
        ∧ updates_of (trace σ') = [].
Proof.
  destruct (main_without_check_creates_all (H:=IntegerNumber) [Ex.alice] "db"
              Ex.headers "name" [] More.paged Ex.existing)
    as [(σ' & evs & Hrun & Htrace & Hcreates & Hupdates & _) _].
  - reflexivity.
  - intros e k He Hk. apply list_elem_of_singleton in He as ->. exact Hk.
  - exists σ'. split; [exact Hrun|]. rewrite Htrace.
    cbn [trace More.paged app]. rewrite Hcreates, Hupdates.
    split; [by_evaluation|reflexivity].
Defined.

